(** * Haikara flexible-compute scheduler: a shallow embedding and its properties

    The development follows the Python sources of the repository:

    - [optimization/p415_bidder.py]        (module [P415])
    - [beckn/agents/orchestrator.py]       (modules [Orchestrator], [Agent])
    - [optimization/forecaster.py]         (module [Forecaster])
    - [beckn/agents/compute_monitor.py]    (module [Monitor])
    - [beckn/bap_client.py]                (module [Beckn])
    - [beckn/agents/grid_data_ingestor.py] (module [Ingestor])
    - [beckn/agents/audit_logger.py]       (modules [Sha256], [Json], [Audit])
    - [utils/api_clients.py]               (module [CarbonApi])

    The modules come first, then sample data and the predicates in which
    the design states its properties, then the properties.

    Numbers.  Python's [float] and [int] values are modelled by exact
    rationals [Q] (integers by [Z] where the code only counts); rounding,
    overflow and NaN of IEEE arithmetic are outside the model.  Equality of
    rationals is [Qeq] ([==]).

    Exceptions.  A Python function that can raise returns a [result].

    The world.  What a function reads from outside (the clock, random
    draws, identifiers, the network and the data sources) is an argument:
    a sequence of readings, or a function named in the section that uses
    it. *)

From Stdlib Require Import QArith Qround Qabs Lqa Lia ZArith List Bool Ascii String.
From stdpp Require Import base option list gmap strings sorting.

Local Open Scope Q_scope.

(** ** Python exceptions *)

Inductive exn : Type :=
| KeyError (key : string)
| ValueError (msg : string)
| ZeroDivisionError
| TypeError (msg : string)
| NameError (name : string).

Inductive result (A : Type) : Type :=
| Ok (a : A)
| Raise (e : exn).
Arguments Ok {A} a.
Arguments Raise {A} e.

#[global] Instance result_ret : MRet result := fun A a => Ok a.
#[global] Instance result_bind : MBind result := fun A B k r =>
  match r with
  | Ok a => k a
  | Raise e => Raise e
  end.

#[global] Instance result_fmap : FMap result := fun A B f r =>
  match r with
  | Ok a => Ok (f a)
  | Raise e => Raise e
  end.

(** Python's true division [a / b] raises on a zero divisor. *)
Definition py_div (a b : Q) : result Q :=
  if Qeq_bool b 0 then Raise ZeroDivisionError else Ok (a / b).

(** ** The clock

    [datetime.now()] reads a clock that the program does not control: the
    clock is a sequence of readings, consumed one per call. *)

Record Clock : Type := {
  ticks : nat;
  reading : nat -> Z
}.

Definition now (c : Clock) : Z * Clock :=
  (reading c (ticks c), {| ticks := S (ticks c); reading := reading c |}).

(** ** Shared data: windows, jobs, forecasts, schedule entries *)

(** A candidate window, as the forecaster returns it. *)
Record Window : Type := {
  start_hour : Z;
  w_region : string;
  avg_price : Q;
  avg_carbon : Q;
  score : Q;
  confidence : Q
}.

(** The job record ([models.job.ComputeJob], as its callers build it;
    [preferred_windows] is the attribute the orchestrator attaches). *)
Record ComputeJob : Type := {
  job_id : string;
  job_name : string;
  job_type : string;
  priority : Z;
  cpu_cores : Z;
  gpu_count : Z;
  energy_kwh : Q;
  power_mw : Q;
  duration_hours : Q;
  deadline : Z;
  can_defer : bool;
  can_interrupt : bool;
  can_migrate : bool;
  flexibility_minutes : Z;
  preferred_region : option string;
  status : string;
  preferred_windows : list Window
}.

Definition set_preferred_windows (job : ComputeJob) (ws : list Window) : ComputeJob :=
  {| job_id := job_id job; job_name := job_name job; job_type := job_type job;
     priority := priority job; cpu_cores := cpu_cores job; gpu_count := gpu_count job;
     energy_kwh := energy_kwh job; power_mw := power_mw job;
     duration_hours := duration_hours job; deadline := deadline job;
     can_defer := can_defer job; can_interrupt := can_interrupt job;
     can_migrate := can_migrate job; flexibility_minutes := flexibility_minutes job;
     preferred_region := preferred_region job; status := status job;
     preferred_windows := ws |}.

Definition set_status (job : ComputeJob) (st : string) : ComputeJob :=
  {| job_id := job_id job; job_name := job_name job; job_type := job_type job;
     priority := priority job; cpu_cores := cpu_cores job; gpu_count := gpu_count job;
     energy_kwh := energy_kwh job; power_mw := power_mw job;
     duration_hours := duration_hours job; deadline := deadline job;
     can_defer := can_defer job; can_interrupt := can_interrupt job;
     can_migrate := can_migrate job; flexibility_minutes := flexibility_minutes job;
     preferred_region := preferred_region job; status := st;
     preferred_windows := preferred_windows job |}.

(** A market event is a dict read with [.get]: every key may be absent. *)
Record GridEvent : Type := {
  ev_product : option string;
  ev_clearing_price : option Q;
  ev_duration_minutes : option Q
}.

(** The grid forecast is a dict; a key that the code reads with [d[k]] or
    [d.get(k, ...)] is an optional field. *)
Record GridForecast : Type := {
  fc_price : option (gmap string (list Q));
  fc_carbon : option (gmap string (list Q));
  fc_p415_events : option (list GridEvent);
  fc_avg_price : option Q;
  fc_avg_carbon : option Q;
  fc_min_carbon_hour : option (gmap string (Z * Q));
  fc_min_price_hour : option (gmap string (Z * Q));
  fc_timestamp : option string;
  fc_horizon_hours : option Z;
  fc_data_source : option string
}.

(** One entry of a schedule: a dict binding a job to a region; the keys
    that some reader takes with [.get] are optional.  Datetimes are clock
    readings. *)
Record ScheduledJob : Type := {
  sj_job : ComputeJob;
  sj_region : string;
  sj_start_time : option Z;
  sj_start_datetime : option Z;
  sj_end_datetime : option Z;
  sj_cost : option Q;
  sj_carbon : option Q;
  sj_p415_revenue : option Q;
  sj_baseline_cost : option Q;
  sj_baseline_carbon : option Q
}.

(** [d[k]] on an optional key. *)
Definition getitem {A} (key : string) (v : option A) : result A :=
  match v with
  | Some a => Ok a
  | None => Raise (KeyError key)
  end.

(** [sum(...)] of a generator of numbers, starting from [0]. *)
Definition py_sum (xs : list Q) : Q := fold_left Qplus xs 0.

(** ** Flexibility-market bid valuation: [optimization/p415_bidder.py] *)

Module P415.

Record Bid : Type := {
  bid_stamp : Z;
  bid_job_id : string;
  bid_product : string;
  bid_power_mw : Q;
  bid_duration_minutes : Q;
  bid_price : Q;
  bid_expected_revenue : Q
}.

Record P415BidEngine : Type := {
  revenue_share : Q;
  active_bids : list Bid
}.

(** [__init__(revenue_share=0.10)] *)
Definition init (share : option Q) : P415BidEngine :=
  {| revenue_share := default (1 # 10) share; active_bids := [] |}.

(** The keys of [self.products]. *)
Definition products : list string := ["DC"; "DM"; "DR"]%string.

Definition in_products (p : option string) : bool :=
  match p with
  | Some s => bool_decide (s ∈ products)
  | None => false
  end.

(** The eligibility chain of [calculate_flexibility_value]: the revenue
    multiplier of an admitted job, [None] where the code returns [0.0]. *)
Definition revenue_multiplier (job : ComputeJob) (product : string) : option Q :=
  if String.eqb product "DC" then
    if negb (can_interrupt job) then None else Some (8 # 10)
  else if String.eqb product "DM" then
    if negb (can_defer job) || (flexibility_minutes job <? 5)%Z then None
    else Some (5 # 10)
  else if String.eqb product "DR" then
    if negb (can_defer job) then None else Some (3 # 10)
  else None.

Definition duration_of (grid_event : GridEvent) : Q :=
  default 30 (ev_duration_minutes grid_event).

Definition calculate_flexibility_value (self : P415BidEngine) (job : ComputeJob)
    (time_window : Z) (grid_event : GridEvent) : Q :=
  let product := ev_product grid_event in
  let clearing_price := default 0 (ev_clearing_price grid_event) in
  let duration_minutes := duration_of grid_event in
  if negb (in_products product) then 0
  else
    match product ≫= revenue_multiplier job with
    | None => 0
    | Some multiplier =>
        let duration_hours := duration_minutes / 60 in
        let revenue := clearing_price * power_mw job * duration_hours * multiplier in
        let platform_revenue := revenue * revenue_share self in
        revenue - platform_revenue
    end.

(** The divisor of the bid price, [job.power_mw * duration_minutes / 60]. *)
Definition bid_divisor (job : ComputeJob) (event : GridEvent) : Q :=
  power_mw job * duration_of event / 60.

(** [create_bid]: [Ok (None, _)] is Python's [return None]; [now] is the
    clock reading that names the bid. *)
Definition create_bid (self : P415BidEngine) (job : ComputeJob) (event : GridEvent)
    (now : Z) : result (option Bid * P415BidEngine) :=
  let value := calculate_flexibility_value self job 0 event in
  if Qle_bool value 0 then Ok (None, self)
  else
    product ← getitem "product" (ev_product event);
    price ← py_div value (bid_divisor job event);
    let bid := {| bid_stamp := now;
                  bid_job_id := job_id job;
                  bid_product := product;
                  bid_power_mw := power_mw job;
                  bid_duration_minutes := duration_of event;
                  bid_price := price;
                  bid_expected_revenue := value |} in
    Ok (Some bid, {| revenue_share := revenue_share self;
                     active_bids := active_bids self ++ [bid] |}).

(** [get_total_p415_potential] *)
Definition get_total_p415_potential (self : P415BidEngine) (jobs : list ComputeJob)
    (events : list GridEvent) : Q :=
  fold_left (fun total job =>
    fold_left (fun total event => total + calculate_flexibility_value self job 0 event)
      events total) jobs 0.

End P415.

(** ** The orchestrator: [beckn/agents/orchestrator.py] *)

Module Orchestrator.

(** [job.preferred_region or 'south']: [None] and the empty string are
    both falsy. *)
Definition region_or_south (job : ComputeJob) : string :=
  match preferred_region job with
  | Some r => if String.eqb r "" then "south"%string else r
  | None => "south"%string
  end.

(** [series[region][0] if region in series and len(series[region]) > 0
    else dflt] *)
Definition hour0 (series : gmap string (list Q)) (region : string) (dflt : Q) : Q :=
  match series !! region with
  | Some (x :: _) => x
  | _ => dflt
  end.

(** The body of the loop of [_fallback_schedule] for one job. *)
Definition fallback_entry (grid_forecast : GridForecast) (job : ComputeJob)
    (clock : Clock) : result (ScheduledJob * Clock) :=
  let region := region_or_south job in
  prices ← getitem "price" (fc_price grid_forecast);
  carbon ← getitem "carbon" (fc_carbon grid_forecast);
  let current_price := hour0 prices region (15 # 100) in
  let current_carbon := hour0 carbon region 200 in
  let '(t_start, clock) := now clock in
  let '(t_end, clock) := now clock in
  Ok ({| sj_job := job;
         sj_region := region;
         sj_start_time := Some 0%Z;
         sj_start_datetime := Some t_start;
         sj_end_datetime := Some t_end;
         sj_cost := Some (energy_kwh job * current_price);
         sj_carbon := Some (energy_kwh job * current_carbon);
         sj_p415_revenue := Some 0;
         sj_baseline_cost := Some (energy_kwh job * (15 # 100));
         sj_baseline_carbon := Some (energy_kwh job * 250) |}, clock).

Fixpoint _fallback_schedule (jobs : list ComputeJob) (grid_forecast : GridForecast)
    (clock : Clock) : result (list ScheduledJob * Clock) :=
  match jobs with
  | [] => Ok ([], clock)
  | job :: jobs =>
      '(entry, clock) ← fallback_entry grid_forecast job clock;
      '(schedule, clock) ← _fallback_schedule jobs grid_forecast clock;
      Ok (entry :: schedule, clock)
  end.

(** [_print_schedule_summary] prints only, but its arithmetic can raise:
    the totals read [s['cost']] and [s['carbon']], and the percentages
    divide by the baseline totals. *)
Definition _print_schedule_summary (schedule : list ScheduledJob) : result unit :=
  costs ← mapM (fun s => getitem "cost" (sj_cost s)) schedule;
  carbons ← mapM (fun s => getitem "carbon" (sj_carbon s)) schedule;
  let total_cost := py_sum costs in
  let total_carbon := py_sum carbons in
  let total_p415 := py_sum (map (fun s => default 0 (sj_p415_revenue s)) schedule) in
  let total_baseline_cost :=
    py_sum (zip_with (fun s c => default c (sj_baseline_cost s)) schedule costs) in
  let total_baseline_carbon :=
    py_sum (zip_with (fun s c => default c (sj_baseline_carbon s)) schedule carbons) in
  let cost_savings := total_baseline_cost - total_cost in
  let carbon_savings := total_baseline_carbon - total_carbon in
  _ ← py_div cost_savings total_baseline_cost;
  _ ← py_div carbon_savings total_baseline_carbon;
  Ok ().

Section Optimize.

(** The collaborators of [optimize] that live outside this module: the
    window forecaster, the capacity table of the compute monitor and the
    scheduler ([optimization.scheduler.FlexibleScheduler.optimize]). *)
Variable Capacity : Type.
Variable forecast_optimal_windows :
  ComputeJob -> GridForecast -> Z -> result (list Window).
Variable get_capacity : Capacity.
Variable scheduler_optimize :
  list ComputeJob -> GridForecast -> Capacity -> result (list ScheduledJob).

Definition is_flexible (j : ComputeJob) : bool :=
  can_defer j && (priority j <? 9)%Z.

(** Step 2: each flexible job gets its windows, [[]] when the forecaster
    raises; the job objects of [jobs] are the ones updated. *)
Definition enrich (optimization_horizon : Z) (grid_forecast : GridForecast)
    (job : ComputeJob) : ComputeJob :=
  if is_flexible job then
    match forecast_optimal_windows job grid_forecast optimization_horizon with
    | Ok optimal_windows => set_preferred_windows job optimal_windows
    | Raise _ => set_preferred_windows job []
    end
  else job.

Definition optimize (optimization_horizon : Z) (jobs : list ComputeJob)
    (grid_forecast : GridForecast) (clock : Clock)
    : result (list ScheduledJob * Clock) :=
  match jobs with
  | [] => Ok ([], clock)
  | _ =>
      let jobs := map (enrich optimization_horizon grid_forecast) jobs in
      let datacenter_capacity := get_capacity in
      match (schedule ← scheduler_optimize jobs grid_forecast datacenter_capacity;
             _ ← _print_schedule_summary schedule;
             Ok schedule) with
      | Ok schedule => Ok (schedule, clock)
      | Raise _ => _fallback_schedule jobs grid_forecast clock
      end
  end.

End Optimize.

End Orchestrator.

(** ** The window forecaster: [optimization/forecaster.py] *)

Module Forecaster.

(** [int(x)] truncates toward zero. *)
Definition py_int (x : Q) : Z :=
  if Qle_bool 0 x then Qfloor x else Qceiling x.

(** A slice bound is clamped to the list, a negative one counted from the
    end. *)
Definition slice_index {A} (l : list A) (i : Z) : nat :=
  let n := Z.of_nat (length l) in
  Z.to_nat (if (i <? 0)%Z then Z.max 0 (i + n) else Z.min i n).

(** [l[a:b]] *)
Definition py_slice {A} (l : list A) (a b : Z) : list A :=
  take (slice_index l b - slice_index l a) (drop (slice_index l a) l).

(** [range(n)] *)
Definition py_range (n : Z) : list Z :=
  map Z.of_nat (seq 0 (Z.to_nat n)).

(** [l.sort(key=...)]: a stable sort, here by insertion from the right. *)
Fixpoint insert_by_score (w : Window) (l : list Window) : list Window :=
  match l with
  | [] => [w]
  | y :: l' =>
      if Qle_bool (score w) (score y) then w :: y :: l'
      else y :: insert_by_score w l'
  end.

Definition sort_by_score (l : list Window) : list Window :=
  foldr insert_by_score [] l.

Definition regions : list string := ["north"; "south"; "scotland"]%string.

(** The body of the inner loop: the window of [region] that starts at
    [hour].  [noise] is the draw of [random.uniform(0, 0.2)]. *)
Definition window_at (job : ComputeJob) (prices carbon : gmap string (list Q))
    (region : string) (hour : Z) (noise : Q) : result Window :=
  let d := py_int (duration_hours job) in
  region_prices ← getitem region (prices !! region);
  price_sum ← Ok (py_sum (py_slice region_prices hour (hour + d)));
  window_price ← py_div price_sum (duration_hours job);
  region_carbon ← getitem region (carbon !! region);
  carbon_sum ← Ok (py_sum (py_slice region_carbon hour (hour + d)));
  window_carbon ← py_div carbon_sum (duration_hours job);
  let score := (window_price / (15 # 100)) * (5 # 10) + (window_carbon / 200) * (5 # 10) in
  Ok {| start_hour := hour;
        w_region := region;
        avg_price := window_price;
        avg_carbon := window_carbon;
        score := score;
        confidence := (7 # 10) + noise |}.

(** The pairs (region, hour) in the order of the two nested loops. *)
Definition candidates (job : ComputeJob) (horizon_hours : Z) : list (string * Z) :=
  region ← regions;
  hour ← py_range (horizon_hours - py_int (duration_hours job));
  [(region, hour)].

(** The windows of the candidates, the k-th window drawing [uniform k]. *)
Fixpoint build_windows (job : ComputeJob) (prices carbon : gmap string (list Q))
    (uniform : nat -> Q) (k : nat) (cands : list (string * Z)) : result (list Window) :=
  match cands with
  | [] => Ok []
  | (region, hour) :: cands =>
      w ← window_at job prices carbon region hour (uniform k);
      ws ← build_windows job prices carbon uniform (S k) cands;
      Ok (w :: ws)
  end.

Definition _heuristic_forecast (uniform : nat -> Q) (job : ComputeJob)
    (grid_forecast : GridForecast) (horizon_hours : Z) : result (list Window) :=
  prices ← getitem "price" (fc_price grid_forecast);
  carbon ← getitem "carbon" (fc_carbon grid_forecast);
  windows ← build_windows job prices carbon uniform 0 (candidates job horizon_hours);
  Ok (py_slice (sort_by_score windows) 0 3).

End Forecaster.

(** ** The compute monitor: [beckn/agents/compute_monitor.py] *)

Module Monitor.

(** Job objects live in a store and the five queues hold references to
    them: the assignment [job.status = status] is seen through every
    reference. *)
Record ComputeMonitor : Type := {
  objects : gmap nat ComputeJob;
  pending_jobs : list nat;
  scheduled_jobs : list nat;
  running_jobs : list nat;
  completed_jobs : list nat;
  failed_jobs : list nat
}.

(** [__init__]: empty queues. *)
Definition init : ComputeMonitor :=
  {| objects := ∅; pending_jobs := []; scheduled_jobs := []; running_jobs := [];
     completed_jobs := []; failed_jobs := [] |}.

(** [for j in queue: if j.id == job_id: job = j; break] *)
Fixpoint find_job (objs : gmap nat ComputeJob) (job_id' : string) (queue : list nat)
    : option nat :=
  match queue with
  | [] => None
  | a :: queue' =>
      match objs !! a with
      | Some j => if String.eqb (job_id j) job_id' then Some a
                  else find_job objs job_id' queue'
      | None => find_job objs job_id' queue'
      end
  end.

(** [queue.remove(x)]: the first occurrence goes, [ValueError] without one. *)
Fixpoint list_remove (x : nat) (queue : list nat) : result (list nat) :=
  match queue with
  | [] => Raise (ValueError "list.remove(x): x not in list")
  | y :: queue' =>
      if decide (y = x) then Ok queue'
      else queue'' ← list_remove x queue'; Ok (y :: queue'')
  end.

Definition set_queues (m : ComputeMonitor) (p s r c f : list nat) : ComputeMonitor :=
  {| objects := objects m; pending_jobs := p; scheduled_jobs := s; running_jobs := r;
     completed_jobs := c; failed_jobs := f |}.

(** The queue moves of [update_job_status], after the status was written;
    [m] is the monitor with the new status in the store. *)
Definition move_between_queues (m : ComputeMonitor) (job : nat) (old_status status : string)
    : result ComputeMonitor :=
  let p := pending_jobs m in
  let s := scheduled_jobs m in
  let r := running_jobs m in
  let c := completed_jobs m in
  let f := failed_jobs m in
  if String.eqb status "scheduled" && String.eqb old_status "pending" then
    p' ← list_remove job p; Ok (set_queues m p' (s ++ [job]) r c f)
  else if String.eqb status "running" && String.eqb old_status "scheduled" then
    s' ← list_remove job s; Ok (set_queues m p s' (r ++ [job]) c f)
  else if String.eqb status "completed" && String.eqb old_status "running" then
    r' ← list_remove job r; Ok (set_queues m p s r' (c ++ [job]) f)
  else if String.eqb status "failed" then
    if bool_decide (job ∈ p) then
      p' ← list_remove job p; Ok (set_queues m p' s r c (f ++ [job]))
    else if bool_decide (job ∈ s) then
      s' ← list_remove job s; Ok (set_queues m p s' r c (f ++ [job]))
    else if bool_decide (job ∈ r) then
      r' ← list_remove job r; Ok (set_queues m p s r' c (f ++ [job]))
    else Ok (set_queues m p s r c (f ++ [job]))
  else Ok m.

(** [update_job_status]: the monitor it leaves behind, and the exception
    it raised if any (the status is written before a queue move can
    raise). *)
Definition update_job_status (m : ComputeMonitor) (job_id' : string) (status' : string)
    : ComputeMonitor * option exn :=
  let job :=
    match find_job (objects m) job_id' (pending_jobs m) with
    | Some a => Some a
    | None => find_job (objects m) job_id' (scheduled_jobs m ++ running_jobs m)
    end in
  match job with
  | None => (m, None)
  | Some a =>
      match objects m !! a with
      | None => (m, None)
      | Some j =>
          let old_status := status j in
          let m1 := {| objects := <[a := set_status j status']> (objects m);
                       pending_jobs := pending_jobs m;
                       scheduled_jobs := scheduled_jobs m;
                       running_jobs := running_jobs m;
                       completed_jobs := completed_jobs m;
                       failed_jobs := failed_jobs m |} in
          match move_between_queues m1 a old_status status' with
          | Ok m2 => (m2, None)
          | Raise e => (m1, Some e)
          end
      end
  end.

(** [get_pending_jobs] without the random arrivals: the arriving jobs are
    an argument.  New objects are allocated in the store and queued as
    pending; the result is a copy of the pending queue. *)
Definition fresh (objs : gmap nat ComputeJob) : nat :=
  S (foldr Nat.max 0%nat (map fst (map_to_list objs))).

Fixpoint extend_pending (m : ComputeMonitor) (new_jobs : list ComputeJob) : ComputeMonitor :=
  match new_jobs with
  | [] => m
  | j :: new_jobs =>
      let a := fresh (objects m) in
      extend_pending
        {| objects := <[a := j]> (objects m);
           pending_jobs := pending_jobs m ++ [a];
           scheduled_jobs := scheduled_jobs m;
           running_jobs := running_jobs m;
           completed_jobs := completed_jobs m;
           failed_jobs := failed_jobs m |} new_jobs
  end.

Definition get_pending_jobs (m : ComputeMonitor) (new_jobs : list ComputeJob)
    : list nat * ComputeMonitor :=
  let m' := extend_pending m new_jobs in
  (pending_jobs m', m').

(** [get_job_by_id] *)
Definition get_job_by_id (m : ComputeMonitor) (job_id' : string) : option ComputeJob :=
  find_job (objects m) job_id'
    (pending_jobs m ++ scheduled_jobs m ++ running_jobs m ++ completed_jobs m ++ failed_jobs m)
  ≫= (fun a => objects m !! a).

(** [get_job_count] *)
Record JobCount : Type := {
  count_pending : nat;
  count_scheduled : nat;
  count_running : nat;
  count_completed : nat;
  count_failed : nat;
  count_total : nat
}.

Definition get_job_count (m : ComputeMonitor) : JobCount :=
  {| count_pending := length (pending_jobs m);
     count_scheduled := length (scheduled_jobs m);
     count_running := length (running_jobs m);
     count_completed := length (completed_jobs m);
     count_failed := length (failed_jobs m);
     count_total := length (pending_jobs m) + length (scheduled_jobs m) +
                    length (running_jobs m) + length (completed_jobs m) +
                    length (failed_jobs m) |}.

(** One region of [self.datacenter_capacity]. *)
Record RegionCapacity : Type := {
  rc_name : string;
  rc_cpu_cores : Z;
  rc_gpu_count : Z;
  rc_memory_gb : Q;
  rc_max_power_mw : Q;
  available_cpu : Z;
  available_gpu : Z;
  available_memory_gb : Q;
  utilization_percent : Q
}.

Definition idle_region (name : string) (cpu gpu : Z) (memory power : Q) : RegionCapacity :=
  {| rc_name := name; rc_cpu_cores := cpu; rc_gpu_count := gpu; rc_memory_gb := memory;
     rc_max_power_mw := power; available_cpu := cpu; available_gpu := gpu;
     available_memory_gb := memory; utilization_percent := 0 |}.

(** The table of [__init__], in the order of the dict. *)
Definition datacenter_capacity : list (string * RegionCapacity) :=
  [("north", idle_region "North England DC" 10000 500 100000 50);
   ("south", idle_region "South England DC" 15000 800 150000 75);
   ("scotland", idle_region "Scotland DC (High Renewables)" 8000 400 80000 40)]%string.

(** The body of the loop of [get_capacity] for one region;
    [utilization] is the draw of [random.uniform(0, 0.5)]. *)
Definition refresh_region (utilization : Q) (c : RegionCapacity) : RegionCapacity :=
  let total_cpu := rc_cpu_cores c in
  let total_gpu := rc_gpu_count c in
  let total_memory := rc_memory_gb c in
  {| rc_name := rc_name c; rc_cpu_cores := rc_cpu_cores c; rc_gpu_count := rc_gpu_count c;
     rc_memory_gb := rc_memory_gb c; rc_max_power_mw := rc_max_power_mw c;
     available_cpu := Forecaster.py_int (inject_Z total_cpu * (1 - utilization));
     available_gpu := Forecaster.py_int (inject_Z total_gpu * (1 - utilization));
     available_memory_gb := total_memory * (1 - utilization);
     utilization_percent := utilization * 100 |}.

(** [get_capacity]: every region of the table is refreshed in turn, the
    k-th with the draw [uniform k]; the table is both the new state and
    the result. *)
Fixpoint get_capacity (uniform : nat -> Q) (k : nat)
    (capacity : list (string * RegionCapacity)) : list (string * RegionCapacity) :=
  match capacity with
  | [] => []
  | (region, c) :: capacity =>
      (region, refresh_region (uniform k) c) :: get_capacity uniform (S k) capacity
  end.

End Monitor.

(** ** The protocol client and the transaction orchestrator:
    [beckn/bap_client.py] *)

Module Beckn.

Inductive Message : Type :=
| SearchIntent (range_start range_end : Z) (region : string)
    (energy : Q) (cpus gpus : Z)
| SelectOrder (provider_id item_id : string)
| InitOrder (provider_id item_id : string) (count : Z)
| ConfirmOrder (provider_id item_id : string) (count : Z).

Record Context : Type := {
  action : string;
  transaction_id : string;
  message_id : string;
  timestamp : Z
}.

Record Payload : Type := {
  context : Context;
  message : Message
}.

(** A response is a dict of which the code reads one thing: whether it has
    the key ["error"]. *)
Record Response : Type := {
  error : option string
}.

(** What one HTTP POST can do: answer 200 with a body, answer another
    status, or fail in the transport (time-out included). *)
Inductive HttpOutcome : Type :=
| Http200 (body : Response)
| HttpStatus (code : Z) (text : string)
| HttpFailure (msg : string).

Inductive Event : Type :=
| JobStarted (id : string)
| SearchFailed (err : string)
| SearchComplete
| SelectComplete
| InitComplete
| Confirmed (order_id : string)
| ConfirmFailed (err : string)
| JobFailed (id : string) (e : exn).

Record Transaction : Type := {
  tx_job : ComputeJob;
  tx_transaction_id : string;
  tx_scheduled : ScheduledJob;
  tx_status : string;
  tx_confirmed_at : Z
}.

Section Protocol.

(** The counterparty and the network are arbitrary: a state and a
    function that answers each POST.  [uuid4 k] is the k-th identifier
    drawn. *)
Variable Net : Type.
Variable post : Net -> string -> Payload -> HttpOutcome * Net.
Variable uuid4 : nat -> string.

Record State : Type := {
  active_transactions : gmap string Transaction;
  clock : Clock;
  uuids : nat;
  net : Net;
  sent : list (string * Payload);
  stdout : list Event
}.

(** State and exceptions: a computation changes the state and returns or
    raises; the state changes made before a raise stay. *)
Definition M (A : Type) : Type := State -> result A * State.

Definition ret {A} (a : A) : M A := fun s => (Ok a, s).
Definition raise {A} (e : exn) : M A := fun s => (Raise e, s).
Definition bind {A B} (m : M A) (k : A -> M B) : M B :=
  fun s => match m s with
           | (Ok a, s') => k a s'
           | (Raise e, s') => (Raise e, s')
           end.

Notation "'do' x <- m ; k" := (bind m (fun x => k))
  (at level 10, x name, m at level 100, k at level 200).
Notation "m1 ;; m2" := (bind m1 (fun _ => m2))
  (at level 100, m2 at level 200, right associativity).

Definition lift {A} (r : result A) : M A := fun s => (r, s).

Definition print (e : Event) : M unit := fun s =>
  (Ok (), {| active_transactions := active_transactions s; clock := clock s;
             uuids := uuids s; net := net s; sent := sent s;
             stdout := stdout s ++ [e] |}).

Definition new_uuid : M string := fun s =>
  (Ok (uuid4 (uuids s)),
   {| active_transactions := active_transactions s; clock := clock s;
      uuids := S (uuids s); net := net s; sent := sent s; stdout := stdout s |}).

Definition read_clock : M Z := fun s =>
  let '(t, c) := now (clock s) in
  (Ok t, {| active_transactions := active_transactions s; clock := c;
            uuids := uuids s; net := net s; sent := sent s; stdout := stdout s |}).

Definition http_post (endpoint : string) (payload : Payload) : M HttpOutcome := fun s =>
  let '(o, n) := post (net s) endpoint payload in
  (Ok o, {| active_transactions := active_transactions s; clock := clock s;
            uuids := uuids s; net := n; sent := sent s ++ [(endpoint, payload)];
            stdout := stdout s |}).

Definition record_transaction (order_id : string) (t : Transaction) : M unit := fun s =>
  (Ok (), {| active_transactions := <[order_id := t]> (active_transactions s);
             clock := clock s; uuids := uuids s; net := net s; sent := sent s;
             stdout := stdout s |}).

(** [try: body except Exception as e: handler(e)] *)
Definition try_except {A} (body : M A) (handler : exn -> M A) : M A :=
  fun s => match body s with
           | (Ok a, s') => (Ok a, s')
           | (Raise e, s') => handler e s'
           end.

(** [_build_context]: [transaction_id or str(uuid.uuid4())], then a fresh
    message id and the time. *)
Definition _build_context (action' : string) (transaction_id' : string) : M Context :=
  do tid <- (if String.eqb transaction_id' "" then new_uuid else ret transaction_id');
  do mid <- new_uuid;
  do t <- read_clock;
  ret {| action := action'; transaction_id := tid; message_id := mid; timestamp := t |}.

(** [_make_request].  The module never imports [asyncio], so when the POST
    fails in the transport, evaluating the handler [except
    asyncio.TimeoutError] raises [NameError] and no handler runs. *)
Definition _make_request (endpoint : string) (payload : Payload) : M Response :=
  do o <- http_post endpoint payload;
  match o with
  | Http200 body => ret body
  | HttpStatus code text => ret {| error := Some text |}
  | HttpFailure msg => raise (NameError "asyncio")
  end.

Definition request (action' : string) (msg : Message) (transaction_id' : string)
    : M Response :=
  do ctx <- _build_context action' transaction_id';
  _make_request action' {| context := ctx; message := msg |}.

Definition search (intent : Message) (transaction_id' : string) : M Response :=
  request "search" intent transaction_id'.

Definition select (provider_id item_id transaction_id' : string) : M Response :=
  request "select" (SelectOrder provider_id item_id) transaction_id'.

(** [BAPClient.init], the order-initialisation request. *)
Definition init_order (order_details : Message) (transaction_id' : string) : M Response :=
  request "init" order_details transaction_id'.

Definition confirm (order_details : Message) (transaction_id' : string) : M Response :=
  request "confirm" order_details transaction_id'.

(** [s[:n]] *)
Definition prefix (n : nat) (s : string) : string := String.substring 0 n s.

Definition _execute_single_job (scheduled_job : ScheduledJob) : M unit :=
  let job := sj_job scheduled_job in
  do transaction_id' <- new_uuid;
  print (JobStarted (job_id job)) ;;
  do range_start <- lift (getitem "start_datetime" (sj_start_datetime scheduled_job));
  do range_end <- lift (getitem "end_datetime" (sj_end_datetime scheduled_job));
  let search_intent :=
    SearchIntent range_start range_end (sj_region scheduled_job)
      (energy_kwh job) (cpu_cores job) (gpu_count job) in
  do search_response <- search search_intent transaction_id';
  match error search_response with
  | Some err => print (SearchFailed err)
  | None =>
      print SearchComplete ;;
      let provider_id := ("mock_provider_" ++ sj_region scheduled_job)%string in
      let item_id := ("compute_slot_" ++ prefix 8 transaction_id')%string in
      do select_response <- select provider_id item_id transaction_id';
      print SelectComplete ;;
      do init_response <- init_order (InitOrder provider_id item_id (cpu_cores job))
                            transaction_id';
      print InitComplete ;;
      do confirm_response <- confirm (ConfirmOrder provider_id item_id (cpu_cores job))
                               transaction_id';
      match error confirm_response with
      | None =>
          let order_id := ("order_" ++ prefix 12 transaction_id')%string in
          do t <- read_clock;
          record_transaction order_id
            {| tx_job := job; tx_transaction_id := transaction_id';
               tx_scheduled := scheduled_job; tx_status := "CONFIRMED";
               tx_confirmed_at := t |} ;;
          print (Confirmed order_id)
      | Some err => print (ConfirmFailed err)
      end
  end.

(** One turn of the loop of [execute_schedule]. *)
Definition execute_guarded (scheduled_job : ScheduledJob) : M unit :=
  try_except (_execute_single_job scheduled_job)
    (fun e => print (JobFailed (job_id (sj_job scheduled_job)) e)).

Fixpoint execute_schedule (schedule : list ScheduledJob) : M unit :=
  match schedule with
  | [] => ret ()
  | scheduled_job :: schedule =>
      execute_guarded scheduled_job ;;
      execute_schedule schedule
  end.

End Protocol.

End Beckn.

(** ** The grid data ingestor: [beckn/agents/grid_data_ingestor.py] *)

Module Ingestor.

Record GridDataIngestor : Type := {
  last_forecast : option GridForecast;
  last_update : option Z;
  cache_duration : Z
}.

(** [__init__(cache_duration_minutes=5)]; times are in seconds. *)
Definition init (cache_duration_minutes : option Z) : GridDataIngestor :=
  {| last_forecast := None; last_update := None;
     cache_duration := (default 5 cache_duration_minutes * 60)%Z |}.

(** [_is_cache_valid]: the clock is read only when both cache fields are
    set. *)
Definition _is_cache_valid (self : GridDataIngestor) (clock : Clock) : bool * Clock :=
  match last_forecast self, last_update self with
  | Some _, Some updated =>
      let '(t, clock) := now clock in
      let age := (t - updated)%Z in
      ((age <? cache_duration self)%Z, clock)
  | _, _ => (false, clock)
  end.

(** [_calculate_average]: the mean over all regions and hours, [0.0] for
    no data. *)
Definition _calculate_average (data : gmap string (list Q)) : Q :=
  let all_values := concat (map snd (map_to_list data)) in
  match all_values with
  | [] => 0
  | _ => py_sum all_values / inject_Z (Z.of_nat (length all_values))
  end.

(** [min(values)] of a non-empty list *)
Definition list_min (x : Q) (xs : list Q) : Q :=
  fold_left (fun m y => if Qlt_le_dec y m then y else m) xs x.

(** [values.index(v)], for a [v] that occurs *)
Fixpoint list_index (v : Q) (xs : list Q) : Z :=
  match xs with
  | [] => 0
  | x :: xs => if Qeq_bool x v then 0 else (1 + list_index v xs)%Z
  end.

(** [_find_min_hour]: regions without values are left out. *)
Definition _find_min_hour (data : gmap string (list Q)) : gmap string (Z * Q) :=
  omap (fun values => match values with
                      | [] => None
                      | x :: xs => let min_value := list_min x xs in
                                   Some (list_index min_value values, min_value)
                      end) data.

Section Sources.

(** The data sources answer differently at different times: each takes
    the clock's tick count at the call.  The two mock generators are the
    per-source fall-backs (random in the source); [isoformat] renders a
    clock reading. *)
Variable carbon_source : nat -> Z -> result (gmap string (list Q)).
Variable price_source : nat -> Z -> result (gmap string (list Q)).
Variable p415_source : nat -> Z -> result (list GridEvent).
Variable _generate_mock_carbon : nat -> Z -> gmap string (list Q).
Variable _generate_mock_prices : nat -> Z -> gmap string (list Q).
Variable isoformat : Z -> string.

(** The fresh path of [fetch_forecast]: the three sources are gathered
    with their exceptions as values, and each failure falls back. *)
Definition build_forecast (horizon_hours : Z) (clock : Clock) : GridForecast * Clock :=
  let k := ticks clock in
  let carbon_data := match carbon_source k horizon_hours with
                     | Ok d => d
                     | Raise _ => _generate_mock_carbon k horizon_hours
                     end in
  let price_data := match price_source k horizon_hours with
                    | Ok d => d
                    | Raise _ => _generate_mock_prices k horizon_hours
                    end in
  let p415_events := match p415_source k horizon_hours with
                     | Ok evs => evs
                     | Raise _ => []
                     end in
  let '(t, clock) := now clock in
  ({| fc_price := Some price_data;
      fc_carbon := Some carbon_data;
      fc_p415_events := Some p415_events;
      fc_avg_price := Some (_calculate_average price_data);
      fc_avg_carbon := Some (_calculate_average carbon_data);
      fc_min_carbon_hour := Some (_find_min_hour carbon_data);
      fc_min_price_hour := Some (_find_min_hour price_data);
      fc_timestamp := Some (isoformat t);
      fc_horizon_hours := Some horizon_hours;
      fc_data_source := None |}, clock).

(** [fetch_forecast].  In this model the values the [try] block works on
    are well typed, so nothing in it raises and the last-resort handler
    of the source is never entered. *)
Definition fetch_forecast (horizon_hours : Z) (self : GridDataIngestor) (clock : Clock)
    : option GridForecast * GridDataIngestor * Clock :=
  let '(valid, clock) := _is_cache_valid self clock in
  if valid then (last_forecast self, self, clock)
  else
    let '(forecast, clock) := build_forecast horizon_hours clock in
    let '(t, clock) := now clock in
    (Some forecast,
     {| last_forecast := Some forecast; last_update := Some t;
        cache_duration := cache_duration self |},
     clock).

(** [clear_cache] *)
Definition clear_cache (self : GridDataIngestor) : GridDataIngestor :=
  {| last_forecast := None; last_update := None; cache_duration := cache_duration self |}.

End Sources.

End Ingestor.

(** ** SHA-256 ([hashlib.sha256]), on 32-bit words held in [Z] *)

Module Sha256.

Local Open Scope Z_scope.

Definition word (x : Z) : Z := x mod 2 ^ 32.

Definition add32 (x y : Z) : Z := word (x + y).

Definition rotr (n x : Z) : Z :=
  Z.lor (Z.shiftr x n) (word (Z.shiftl x (32 - n))).

Definition shr (n x : Z) : Z := Z.shiftr x n.

Definition not32 (x : Z) : Z := 2 ^ 32 - 1 - x.

Definition Ch (x y z : Z) : Z := Z.lxor (Z.land x y) (Z.land (not32 x) z).
Definition Maj (x y z : Z) : Z :=
  Z.lxor (Z.lxor (Z.land x y) (Z.land x z)) (Z.land y z).
Definition Sigma0 (x : Z) : Z := Z.lxor (Z.lxor (rotr 2 x) (rotr 13 x)) (rotr 22 x).
Definition Sigma1 (x : Z) : Z := Z.lxor (Z.lxor (rotr 6 x) (rotr 11 x)) (rotr 25 x).
Definition sigma0 (x : Z) : Z := Z.lxor (Z.lxor (rotr 7 x) (rotr 18 x)) (shr 3 x).
Definition sigma1 (x : Z) : Z := Z.lxor (Z.lxor (rotr 17 x) (rotr 19 x)) (shr 10 x).

(** The round constants are the first 32 bits of the fractional parts of
    the cube roots of the first 64 primes, the initial state those of
    the square roots of the first 8. *)
Definition primes : list Z :=
  [2; 3; 5; 7; 11; 13; 17; 19; 23; 29; 31; 37; 41; 43; 47; 53; 59; 61; 67; 71; 73;
   79; 83; 89; 97; 101; 103; 107; 109; 113; 127; 131; 137; 139; 149; 151; 157;
   163; 167; 173; 179; 181; 191; 193; 197; 199; 211; 223; 227; 229; 233; 239;
   241; 251; 257; 263; 269; 271; 277; 281; 283; 293; 307; 311].

(** The integer cube root, one bit at a time from the top. *)
Fixpoint cube_root (bits : nat) (n r : Z) : Z :=
  match bits with
  | O => r
  | S bits =>
      let r' := r + 2 ^ Z.of_nat bits in
      cube_root bits n (if r' * r' * r' <=? n then r' else r)
  end.

Definition K : list Z :=
  Eval vm_compute in map (fun p => word (cube_root 36 (p * 2 ^ 96) 0)) primes.

Definition H0 : list Z :=
  Eval vm_compute in map (fun p => word (Z.sqrt (p * 2 ^ 64))) (take 8 primes).

(** The padded message: the bytes, [0x80], zeros up to 56 modulo 64, and
    the bit length on eight bytes. *)
Definition be_bytes (n : nat) (x : Z) : list Z :=
  map (fun i => Z.shiftr x (8 * Z.of_nat i) mod 256) (rev (seq 0 n)).

Definition pad (msg : list Z) : list Z :=
  let len := Z.of_nat (length msg) in
  let zeros := Z.to_nat ((55 - len) mod 64) in
  msg ++ [128] ++ repeat 0 zeros ++ be_bytes 8 (8 * len).

Fixpoint words_of (n : nat) (bytes : list Z) : list Z :=
  match n, bytes with
  | S n, a :: b :: c :: d :: bytes =>
      (a * 2 ^ 24 + b * 2 ^ 16 + c * 2 ^ 8 + d) :: words_of n bytes
  | _, _ => []
  end.

(** The message schedule, newest word first while it is built. *)
Fixpoint schedule (n : nat) (w : list Z) : list Z :=
  match n with
  | O => w
  | S n =>
      let at_ i := nth i w 0 in
      schedule n
        (add32 (add32 (sigma1 (at_ 1%nat)) (at_ 6%nat))
               (add32 (sigma0 (at_ 14%nat)) (at_ 15%nat)) :: w)
  end.

Definition round (s : list Z) (kw : Z * Z) : list Z :=
  match s with
  | [a; b; c; d; e; f; g; h] =>
      let t1 := add32 (add32 (add32 h (Sigma1 e)) (add32 (Ch e f g) (fst kw))) (snd kw) in
      let t2 := add32 (Sigma0 a) (Maj a b c) in
      [add32 t1 t2; a; b; c; add32 d t1; e; f; g]
  | _ => s
  end.

Definition compress (h : list Z) (block : list Z) : list Z :=
  let w := rev (schedule 48 (rev (words_of 16 block))) in
  zip_with add32 h (fold_left round (zip K w) h).

Fixpoint blocks (n : nat) (h : list Z) (bytes : list Z) : list Z :=
  match n with
  | O => h
  | S n => blocks n (compress h (take 64 bytes)) (drop 64 bytes)
  end.

(** [hashlib.sha256(bytes).digest()] as 32 bytes. *)
Definition digest (msg : list Z) : list Z :=
  let padded := pad msg in
  h ← blocks (length padded / 64) H0 padded; be_bytes 4 h.

Definition hex_digit (x : Z) : ascii :=
  nth (Z.to_nat x) (list_ascii_of_string "0123456789abcdef") "0"%char.

(** [.hexdigest()] *)
Definition hexdigest (msg : list Z) : string :=
  string_of_list_ascii (b ← digest msg; [hex_digit (b / 16); hex_digit (b mod 16)]).

(** [str.encode()] of a text of ASCII characters. *)
Definition encode (text : list ascii) : list Z :=
  map (fun c => Z.of_nat (nat_of_ascii c)) text.

Definition sha256_hex (text : list ascii) : string := hexdigest (encode text).

End Sha256.

(** ** JSON values and [json.dumps] *)

Module Json.

(** A JSON value.  A number is its literal, as [repr] prints it; a dict
    keeps its items in insertion order, as Python's does. *)
#[warnings="-register-all"]
Inductive json : Type :=
| JNull
| JBool (b : bool)
| JNum (literal : string)
| JStr (s : string)
| JList (elements : list json)
| JDict (items : list (string * json)).

(** [d[key]], [d.get(key)] *)
Fixpoint dict_get (key : string) (items : list (string * json)) : option json :=
  match items with
  | [] => None
  | (k, v) :: items => if String.eqb k key then Some v else dict_get key items
  end.

(** [d[key] = value]: a present key keeps its place, a new one goes last. *)
Fixpoint dict_set (key : string) (value : json) (items : list (string * json))
    : list (string * json) :=
  match items with
  | [] => [(key, value)]
  | (k, v) :: items =>
      if String.eqb k key then (k, value) :: items
      else (k, v) :: dict_set key value items
  end.

(** [{k: v for k, v in d.items() if k != key}] *)
Definition dict_without (key : string) (items : list (string * json))
    : list (string * json) :=
  filter (fun kv => fst kv ≠ key) items.

Definition quote : ascii := ascii_of_nat 34.
Definition backslash : ascii := ascii_of_nat 92.

Definition hex_digit (n : nat) : ascii :=
  nth n (list_ascii_of_string "0123456789abcdef") "0"%char.

(** One character of a string under [ensure_ascii]: the short escapes,
    [\u00xx] for what is not printable ASCII, the character itself
    otherwise.  Characters are the code points below 256. *)
Definition escape_char (c : ascii) : list ascii :=
  let n := nat_of_ascii c in
  if Nat.eqb n 34 then [backslash; quote]
  else if Nat.eqb n 92 then [backslash; backslash]
  else if Nat.eqb n 10 then [backslash; "n"%char]
  else if Nat.eqb n 13 then [backslash; "r"%char]
  else if Nat.eqb n 9 then [backslash; "t"%char]
  else if Nat.eqb n 8 then [backslash; "b"%char]
  else if Nat.eqb n 12 then [backslash; "f"%char]
  else if (n <? 32)%nat || (126 <? n)%nat then
    [backslash; "u"%char; "0"%char; "0"%char; hex_digit (n / 16); hex_digit (n mod 16)]
  else [c].

Definition escape_body (s : list ascii) : list ascii := s ≫= escape_char.

(** A string between quotes. *)
Definition dumps_string (s : string) : list ascii :=
  quote :: escape_body (list_ascii_of_string s) ++ [quote].

Definition text (s : string) : list ascii := list_ascii_of_string s.

(** [json.dumps(v)] with the default separators, keys in the order of the
    dict. *)
Fixpoint dumps_plain (v : json) : list ascii :=
  match v with
  | JNull => text "null"
  | JBool true => text "true"
  | JBool false => text "false"
  | JNum literal => text literal
  | JStr s => dumps_string s
  | JList elements =>
      "["%char ::
      match elements with
      | [] => text "]"
      | x :: rest =>
          dumps_plain x ++
          (fix more (l : list json) : list ascii :=
             match l with
             | [] => text "]"
             | y :: l => text ", " ++ dumps_plain y ++ more l
             end) rest
      end
  | JDict items =>
      "{"%char ::
      match items with
      | [] => text "}"
      | (k, x) :: rest =>
          dumps_string k ++ text ": " ++ dumps_plain x ++
          (fix more (l : list (string * json)) : list ascii :=
             match l with
             | [] => text "}"
             | (k, y) :: l => text ", " ++ dumps_string k ++ text ": " ++ dumps_plain y ++ more l
             end) rest
      end
  end.

(** [sorted(d.items())]: a stable sort of the items by key. *)
Fixpoint insert_item (kv : string * json) (items : list (string * json))
    : list (string * json) :=
  match items with
  | [] => [kv]
  | kv' :: items' =>
      if String.leb (fst kv) (fst kv') then kv :: kv' :: items'
      else kv' :: insert_item kv items'
  end.

Definition sort_items (items : list (string * json)) : list (string * json) :=
  foldr insert_item [] items.

(** The value with the items of every dict sorted by key: what
    [sort_keys=True] prints. *)
Fixpoint canonical (v : json) : json :=
  match v with
  | JList elements => JList (map canonical elements)
  | JDict items =>
      JDict (sort_items (map (fun kv => (fst kv, canonical (snd kv))) items))
  | _ => v
  end.

(** [json.dumps(v, sort_keys=...)] *)
Definition dumps (sort_keys : bool) (v : json) : list ascii :=
  dumps_plain (if sort_keys then canonical v else v).

(** The literal of an integer. *)
Fixpoint digits_of (fuel : nat) (n : N) (acc : list ascii) : list ascii :=
  match fuel with
  | O => acc
  | S fuel =>
      let acc := hex_digit (N.to_nat (n mod 10)) :: acc in
      if (n <? 10)%N then acc else digits_of fuel (n / 10)%N acc
  end.

Definition int_literal (z : Z) : string :=
  let n := Z.abs_N z in
  let ds := string_of_list_ascii (digits_of (S (N.to_nat (N.log2 n))) n []) in
  if (z <? 0)%Z then String "-" ds else ds.

Definition JInt (z : Z) : json := JNum (int_literal z).

End Json.

(** ** The decision ledger: [beckn/agents/audit_logger.py] *)

Module Audit.

Import Json.

Record AuditLogger : Type := {
  decision_log : list (list ascii);
  total_cost_saved : Q;
  total_carbon_saved : Q;
  total_p415_revenue : Q;
  jobs_processed : Z;
  decisions_logged : Z;
  beckn_transactions_logged : Z
}.

(** [__init__]: the decision log is the file [decisions.jsonl], a list of
    lines. *)
Definition init : AuditLogger :=
  {| decision_log := []; total_cost_saved := 0; total_carbon_saved := 0;
     total_p415_revenue := 0; jobs_processed := 0; decisions_logged := 0;
     beckn_transactions_logged := 0 |}.

(** [_calculate_hash]: SHA-256 of the serialization with sorted keys.
    (The [default=str] of the source is for values that are not JSON; a
    [json] has none.) *)
Definition _calculate_hash (data : json) : string :=
  let data_str := dumps true data in
  Sha256.sha256_hex data_str.

(** One region's totals in [_calculate_regional_distribution]. *)
Record RegionTotals : Type := {
  rt_count : Z;
  rt_total_energy_kwh : Q;
  rt_total_cost : Q;
  rt_total_carbon : Q;
  rt_p415_revenue : Q
}.

Definition no_totals : RegionTotals :=
  {| rt_count := 0; rt_total_energy_kwh := 0; rt_total_cost := 0;
     rt_total_carbon := 0; rt_p415_revenue := 0 |}.

Definition add_totals (t : RegionTotals) (energy cost carbon p415 : Q) : RegionTotals :=
  {| rt_count := rt_count t + 1;
     rt_total_energy_kwh := rt_total_energy_kwh t + energy;
     rt_total_cost := rt_total_cost t + cost;
     rt_total_carbon := rt_total_carbon t + carbon;
     rt_p415_revenue := rt_p415_revenue t + p415 |}.

(** The distribution is a dict keyed by region, in the order the regions
    first occur. *)
Fixpoint bump (region : string) (f : RegionTotals -> RegionTotals)
    (d : list (string * RegionTotals)) : list (string * RegionTotals) :=
  match d with
  | [] => [(region, f no_totals)]
  | (r, t) :: d => if String.eqb r region then (r, f t) :: d
                   else (r, t) :: bump region f d
  end.

Fixpoint _calculate_regional_distribution (schedule : list ScheduledJob)
    (distribution : list (string * RegionTotals))
    : result (list (string * RegionTotals)) :=
  match schedule with
  | [] => Ok distribution
  | s :: schedule =>
      cost ← getitem "cost" (sj_cost s);
      carbon ← getitem "carbon" (sj_carbon s);
      _calculate_regional_distribution schedule
        (bump (sj_region s)
           (fun t => add_totals t (energy_kwh (sj_job s)) cost carbon
                       (default 0 (sj_p415_revenue s)))
           distribution)
  end.

Section Formats.

(** What the run-time library prints: [repr] of a float, and
    [isoformat] and [strftime('%Y%m%d_%H%M%S')] of a datetime. *)
Variable float_repr : Q -> string.
Variable isoformat : Z -> string.
Variable strftime : Z -> string.

Definition JFloat (q : Q) : json := JNum (float_repr q).

(** [d.get(key, 0)] of a number: the default is the integer [0]. *)
Definition float_or_zero (v : option Q) : json :=
  match v with
  | Some q => JFloat q
  | None => JInt 0
  end.

Definition job_summary (j : ComputeJob) : json :=
  JDict [("id"%string, JStr (job_id j));
         ("name"%string, JStr (job_name j));
         ("type"%string, JStr (job_type j));
         ("priority"%string, JInt (priority j));
         ("energy_kwh"%string, JFloat (energy_kwh j));
         ("can_defer"%string, JBool (can_defer j));
         ("deadline"%string, JStr (isoformat (deadline j)))].

(** One entry of ['schedule'].  The default [datetime.now()] of the two
    [s.get('start_datetime', ...)] is read whether it is used or not;
    [s['cost']] and [s['carbon']] raise on an entry without them. *)
Definition schedule_summary (s : ScheduledJob) (clock : Clock) : result (json * Clock) :=
  let '(_, clock) := now clock in
  let '(t, clock) := now clock in
  let start_datetime := isoformat (default t (sj_start_datetime s)) in
  cost ← getitem "cost" (sj_cost s);
  carbon ← getitem "carbon" (sj_carbon s);
  Ok (JDict [("job_id"%string, JStr (job_id (sj_job s)));
             ("job_name"%string, JStr (job_name (sj_job s)));
             ("job_type"%string, JStr (job_type (sj_job s)));
             ("start_time"%string, JInt (default 0%Z (sj_start_time s)));
             ("start_datetime"%string, JStr start_datetime);
             ("region"%string, JStr (sj_region s));
             ("cost"%string, JFloat cost);
             ("carbon"%string, JFloat carbon);
             ("p415_revenue"%string, float_or_zero (sj_p415_revenue s));
             ("baseline_cost"%string, JFloat (default cost (sj_baseline_cost s)));
             ("baseline_carbon"%string, JFloat (default carbon (sj_baseline_carbon s)))],
      clock).

Fixpoint schedule_summaries (schedule : list ScheduledJob) (clock : Clock)
    : result (list json * Clock) :=
  match schedule with
  | [] => Ok ([], clock)
  | s :: schedule =>
      '(x, clock) ← schedule_summary s clock;
      '(xs, clock) ← schedule_summaries schedule clock;
      Ok (x :: xs, clock)
  end.

Definition totals_json (t : RegionTotals) : json :=
  JDict [("count"%string, JInt (rt_count t));
         ("total_energy_kwh"%string, JFloat (rt_total_energy_kwh t));
         ("total_cost"%string, JFloat (rt_total_cost t));
         ("total_carbon"%string, JFloat (rt_total_carbon t));
         ("p415_revenue"%string, JFloat (rt_p415_revenue t))].

(** [x / total * 100 if total > 0 else 0] *)
Definition percent (x total : Q) : json :=
  if Qlt_le_dec 0 total then JFloat (x / total * 100) else JInt 0.

Record Totals : Type := {
  t_cost : Q;
  t_carbon : Q;
  t_p415 : Q;
  t_baseline_cost : Q;
  t_baseline_carbon : Q
}.

(** The sums at the head of [log_decision]. *)
Definition totals (schedule : list ScheduledJob) : Totals :=
  {| t_cost := py_sum (map (fun s => default 0 (sj_cost s)) schedule);
     t_carbon := py_sum (map (fun s => default 0 (sj_carbon s)) schedule);
     t_p415 := py_sum (map (fun s => default 0 (sj_p415_revenue s)) schedule);
     t_baseline_cost :=
       py_sum (map (fun s => default (default 0 (sj_cost s)) (sj_baseline_cost s)) schedule);
     t_baseline_carbon :=
       py_sum (map (fun s => default (default 0 (sj_carbon s)) (sj_baseline_carbon s))
                 schedule) |}.

Definition cost_savings (t : Totals) : Q := t_baseline_cost t - t_cost t.
Definition carbon_savings (t : Totals) : Q := t_baseline_carbon t - t_carbon t.

(** The dict [decision_entry], before its hash. *)
Definition decision_entry (self : AuditLogger) (jobs : list ComputeJob)
    (schedule : list ScheduledJob) (grid_state : GridForecast) (clock : Clock)
    : result (list (string * json) * Clock) :=
  let t := totals schedule in
  let '(t_stamp, clock) := now clock in
  let '(t_id, clock) := now clock in
  '(entries, clock) ← schedule_summaries schedule clock;
  distribution ← _calculate_regional_distribution schedule [];
  Ok ([("timestamp"%string, JStr (isoformat t_stamp));
       ("decision_id"%string,
        JStr ("decision_" ++ strftime t_id ++ "_" ++ int_literal (decisions_logged self)));
       ("jobs_count"%string, JInt (Z.of_nat (length jobs)));
       ("scheduled_count"%string, JInt (Z.of_nat (length schedule)));
       ("grid_state"%string,
        JDict [("avg_price"%string, float_or_zero (fc_avg_price grid_state));
               ("avg_carbon"%string, float_or_zero (fc_avg_carbon grid_state));
               ("p415_events_count"%string,
                JInt (Z.of_nat (length (default [] (fc_p415_events grid_state)))));
               ("timestamp"%string, JStr (default ""%string (fc_timestamp grid_state)))]);
       ("jobs_summary"%string, JList (map job_summary jobs));
       ("schedule"%string, JList entries);
       ("metrics"%string,
        JDict [("total_cost"%string, JFloat (t_cost t));
               ("total_carbon"%string, JFloat (t_carbon t));
               ("total_p415_revenue"%string, JFloat (t_p415 t));
               ("cost_savings"%string, JFloat (cost_savings t));
               ("carbon_savings"%string, JFloat (carbon_savings t));
               ("net_cost"%string, JFloat (t_cost t - t_p415 t));
               ("cost_savings_percent"%string,
                percent (cost_savings t) (t_baseline_cost t));
               ("carbon_savings_percent"%string,
                percent (carbon_savings t) (t_baseline_carbon t))]);
       ("regional_distribution"%string,
        JDict (map (fun rt => (fst rt, totals_json (snd rt))) distribution))]%string,
      clock).

(** What [log_decision] leaves behind: the ledger and the clock, the
    record it wrote if it got that far, and how it ended.  The two
    [print]s after the write divide by the baseline totals and raise when
    one is zero, with the record written and the totals updated. *)
Record Logged : Type := {
  logger : AuditLogger;
  clock_after : Clock;
  written : option json;
  outcome : result unit
}.

Definition log_decision (self : AuditLogger) (jobs : list ComputeJob)
    (schedule : list ScheduledJob) (grid_state : GridForecast) (clock : Clock) : Logged :=
  match decision_entry self jobs schedule grid_state clock with
  | Raise e => {| logger := self; clock_after := clock; written := None;
                  outcome := Raise e |}
  | Ok (entry, clock') =>
      let t := totals schedule in
      (* decision_entry['hash'] = self._calculate_hash(decision_entry) *)
      let entry := dict_set "hash" (JStr (_calculate_hash (JDict entry))) entry in
      (* f.write(json.dumps(decision_entry) + '\n') *)
      let line := dumps false (JDict entry) ++ [ascii_of_nat 10] in
      let self' :=
        {| decision_log := decision_log self ++ [line];
           total_cost_saved := total_cost_saved self + cost_savings t;
           total_carbon_saved := total_carbon_saved self + carbon_savings t;
           total_p415_revenue := total_p415_revenue self + t_p415 t;
           jobs_processed := (jobs_processed self + Z.of_nat (length schedule))%Z;
           decisions_logged := (decisions_logged self + 1)%Z;
           beckn_transactions_logged := beckn_transactions_logged self |} in
      {| logger := self'; clock_after := clock'; written := Some (JDict entry);
         outcome := (_ ← py_div (cost_savings t) (t_baseline_cost t);
                     _ ← py_div (carbon_savings t) (t_baseline_carbon t);
                     Ok ()) |}
  end.

End Formats.

End Audit.

(** ** The orchestrator agent at work: [OrchestratorAgent.execute_schedule]
    in [beckn/agents/orchestrator.py] *)

Module Agent.

Section Execute.

Variable Net : Type.
Variable post : Net -> string -> Beckn.Payload -> Beckn.HttpOutcome * Net.
Variable uuid4 : nat -> string.

(** The two sub-agents that [execute_schedule] works with. *)
Record OrchestratorAgent : Type := {
  compute_monitor : Monitor.ComputeMonitor;
  beckn_orchestrator : Beckn.State Net
}.

(** [for scheduled in schedule:
       self.compute_monitor.update_job_status(scheduled['job'].id, 'scheduled')]:
    the loop ends at the first update that raises. *)
Fixpoint mark_scheduled (m : Monitor.ComputeMonitor) (schedule : list ScheduledJob)
    : Monitor.ComputeMonitor * option exn :=
  match schedule with
  | [] => (m, None)
  | scheduled :: schedule =>
      match Monitor.update_job_status m (job_id (sj_job scheduled)) "scheduled" with
      | (m, None) => mark_scheduled m schedule
      | (m, Some e) => (m, Some e)
      end
  end.

(** [execute_schedule]: nothing for an empty schedule; otherwise the
    transactions, then the status updates, both inside one [try] whose
    handler only prints. *)
Definition execute_schedule (self : OrchestratorAgent) (schedule : list ScheduledJob)
    : OrchestratorAgent :=
  match schedule with
  | [] => self
  | _ =>
      match Beckn.execute_schedule Net post uuid4 schedule (beckn_orchestrator self) with
      | (Ok _, s) =>
          {| compute_monitor := fst (mark_scheduled (compute_monitor self) schedule);
             beckn_orchestrator := s |}
      | (Raise _, s) =>
          {| compute_monitor := compute_monitor self; beckn_orchestrator := s |}
      end
  end.

End Execute.

End Agent.

(** ** The carbon intensity client: [utils/api_clients.py] *)

Module CarbonApi.

Import Json.

(** What the body of the [try] of [_parse_carbon_data] works with is the
    parsed response, a JSON value.  An attribute or a type error in it
    is caught by the bare [except] whatever it is: the body returns
    [None] where the source raises. *)

(** [v.get(key, dflt)]: only a dict has the method. *)
Definition py_get (v : json) (key : string) (dflt : json) : option json :=
  match v with
  | JDict items => Some (default dflt (dict_get key items))
  | _ => None
  end.

(** [for entry in v]: a list gives its elements, a dict its keys, a
    string its characters; nothing else can be iterated. *)
Definition py_iter (v : json) : option (list json) :=
  match v with
  | JList elements => Some elements
  | JDict items => Some (map (fun kv => JStr (fst kv)) items)
  | JStr s => Some (map (fun c => JStr (String c EmptyString)) (list_ascii_of_string s))
  | _ => None
  end.

(** [entry.get('intensity', {}).get('forecast', 200)] *)
Definition forecast_of (entry : json) : option json :=
  intensity ← py_get entry "intensity" (JDict []);
  py_get intensity "forecast" (JInt 200).

(** [while len(values) < hours: values.append(values[-1] if values else 200)],
    run for at most [fuel] turns. *)
Fixpoint extend (fuel : nat) (values : list json) (hours : Z) : list json :=
  match fuel with
  | O => values
  | S fuel =>
      if (Z.of_nat (length values) <? hours)%Z
      then extend fuel (values ++ [default (JInt 200) (last values)]) hours
      else values
  end.

(** The values read off the response. *)
Definition parsed_values (data : json) : option (list json) :=
  outer ← py_get data "data" (JDict []);
  intensity_data ← py_get outer "data" (JList []);
  entries ← py_iter intensity_data;
  mapM forecast_of entries.

Section Parse.

(** [_generate_mock_carbon(hours, region)], random in the source. *)
Variable _generate_mock_carbon : Z -> string -> list json.

(** [_parse_carbon_data]; every turn of the loop adds a value, so
    [hours] turns are enough. *)
Definition _parse_carbon_data (data : json) (hours : Z) : list json :=
  match parsed_values data with
  | Some values => Forecaster.py_slice (extend (Z.to_nat hours) values hours) 0 hours
  | None => _generate_mock_carbon hours "default"
  end.

End Parse.

End CarbonApi.

(** * Sample data and the predicates of the design *)

(** ** The bid valuator *)

Definition sample_job (defer interrupt : bool) : ComputeJob :=
  {| job_id := "job_00001"; job_name := "Training #1"; job_type := "training";
     priority := 7; cpu_cores := 100; gpu_count := 4; energy_kwh := 150;
     power_mw := 2; duration_hours := 3; deadline := 43200;
     can_defer := defer; can_interrupt := interrupt; can_migrate := true;
     flexibility_minutes := 240; preferred_region := None; status := "pending";
     preferred_windows := [] |}.

Definition sample_event (product : string) (price minutes : Q) : GridEvent :=
  {| ev_product := Some product; ev_clearing_price := Some price;
     ev_duration_minutes := Some minutes |}.

(** The eligibility table of the bid valuator's design. *)
Inductive eligible (job : ComputeJob) : string -> Q -> Prop :=
| eligible_fast :
    can_interrupt job = true -> eligible job "DC" (8 # 10)
| eligible_medium :
    can_defer job = true -> (5 <= flexibility_minutes job)%Z ->
    eligible job "DM" (5 # 10)
| eligible_slow :
    can_defer job = true -> eligible job "DR" (3 # 10).

(** ** The FIFO fall-back *)

(** What the design asks of the fall-back assignment [a] of job [j]. *)
Definition fifo_assignment (prices carbon : gmap string (list Q))
    (j : ComputeJob) (a : ScheduledJob) : Prop :=
  let region := Orchestrator.region_or_south j in
  job_id (sj_job a) = job_id j /\
  energy_kwh (sj_job a) = energy_kwh j /\
  sj_start_time a = Some 0%Z /\
  sj_region a = region /\
  (region = default "south"%string (preferred_region j) \/
   (preferred_region j = Some ""%string /\ region = "south"%string)) /\
  sj_cost a = Some (energy_kwh j * Orchestrator.hour0 prices region (15 # 100)) /\
  sj_carbon a = Some (energy_kwh j * Orchestrator.hour0 carbon region 200) /\
  (forall p ps, prices !! region = Some (p :: ps) ->
     sj_cost a = Some (energy_kwh j * p)) /\
  (forall c cs, carbon !! region = Some (c :: cs) ->
     sj_carbon a = Some (energy_kwh j * c)) /\
  sj_p415_revenue a = Some 0 /\
  sj_baseline_cost a = Some (energy_kwh j * (15 # 100)) /\
  sj_baseline_carbon a = Some (energy_kwh j * 250).

(** The figures of an assignment that the fall-back computes from its
    inputs: everything but the two clock readings. *)
Definition figures (a : ScheduledJob)
    : ComputeJob * string * option Z * option Q * option Q * option Q * option Q * option Q :=
  (sj_job a, sj_region a, sj_start_time a, sj_cost a, sj_carbon a,
   sj_p415_revenue a, sj_baseline_cost a, sj_baseline_carbon a).

Definition sample_forecast : GridForecast :=
  {| fc_price := Some {[ "south"%string := [12 # 100; 30 # 100];
                         "north"%string := [10 # 100; 11 # 100] ]};
     fc_carbon := Some {[ "south"%string := [180; 240];
                          "north"%string := [210; 190] ]};
     fc_p415_events := Some [];
     fc_avg_price := Some (15 # 100);
     fc_avg_carbon := Some 200;
     fc_min_carbon_hour := None;
     fc_min_price_hour := None;
     fc_timestamp := Some "2025-01-01T00:00:00"%string;
     fc_horizon_hours := Some 2%Z;
     fc_data_source := None |}.

Definition sample_clock : Clock := {| ticks := 0; reading := fun k => Z.of_nat (60 * k) |}.

Definition failing_scheduler (jobs : list ComputeJob) (fc : GridForecast) (cap : unit)
    : result (list ScheduledJob) := Raise (ValueError "infeasible").

Definition no_windows (j : ComputeJob) (fc : GridForecast) (horizon : Z)
    : result (list Window) := Ok [].

(** ** The window forecaster *)

(** A four-hour forecast whose last two hours are the cheap and clean
    ones in every region. *)
Definition evening_prices : gmap string (list Q) :=
  {[ "north"%string := [30 # 100; 30 # 100; 6 # 100; 6 # 100];
     "south"%string := [30 # 100; 30 # 100; 9 # 100; 9 # 100];
     "scotland"%string := [24 # 100; 30 # 100; 12 # 100; 12 # 100] ]}.

Definition evening_carbon : gmap string (list Q) :=
  {[ "north"%string := [300; 300; 100; 100];
     "south"%string := [300; 280; 120; 120];
     "scotland"%string := [260; 340; 60; 60] ]}.

Definition evening_forecast : GridForecast :=
  {| fc_price := Some evening_prices;
     fc_carbon := Some evening_carbon;
     fc_p415_events := Some [];
     fc_avg_price := None;
     fc_avg_carbon := None;
     fc_min_carbon_hour := None;
     fc_min_price_hour := None;
     fc_timestamp := None;
     fc_horizon_hours := Some 4%Z;
     fc_data_source := None |}.

(** A two-hour job. *)
Definition two_hour_job : ComputeJob :=
  {| job_id := "job_00002"; job_name := "Analytics #2"; job_type := "analytics";
     priority := 5; cpu_cores := 50; gpu_count := 0; energy_kwh := 40;
     power_mw := 2 # 100; duration_hours := 2; deadline := 43200;
     can_defer := true; can_interrupt := true; can_migrate := true;
     flexibility_minutes := 360; preferred_region := Some "north"%string;
     status := "pending"; preferred_windows := [] |}.

Definition no_noise (k : nat) : Q := 0.

(** The start hours the design asks the forecaster to consider: every [h]
    with [h + duration <= horizon]. *)
Definition design_start_hours (job : ComputeJob) (horizon_hours : Z) : list Z :=
  Forecaster.py_range (horizon_hours - Forecaster.py_int (duration_hours job) + 1).

(** The forecaster as the design words it: the same windows, scores,
    sort and cut as [_heuristic_forecast], over the design's start
    hours. *)
Definition design_rank_windows (uniform : nat -> Q) (job : ComputeJob)
    (grid_forecast : GridForecast) (horizon_hours : Z) : result (list Window) :=
  prices ← getitem "price" (fc_price grid_forecast);
  carbon ← getitem "carbon" (fc_carbon grid_forecast);
  windows ← Forecaster.build_windows job prices carbon uniform 0
               (region ← Forecaster.regions;
                hour ← design_start_hours job horizon_hours;
                [(region, hour)]);
  Ok (Forecaster.py_slice (Forecaster.sort_by_score windows) 0 3).

Definition window_key (w : Window) : string * Z := (w_region w, start_hour w).

Definition window_keys (r : result (list Window)) : result (list (string * Z)) :=
  match r with
  | Ok ws => Ok (map window_key ws)
  | Raise e => Raise e
  end.

(** Ascending order of score. *)
Definition score_le (a b : Window) : Prop := score a <= score b.

(** ** The compute monitor *)

(** A monitor that holds one pending job. *)
Definition one_pending : Monitor.ComputeMonitor :=
  snd (Monitor.get_pending_jobs Monitor.init [sample_job true true]).

(** All queued references of a monitor. *)
Definition all_queues (m : Monitor.ComputeMonitor) : list nat :=
  Monitor.pending_jobs m ++ Monitor.scheduled_jobs m ++ Monitor.running_jobs m ++
  Monitor.completed_jobs m ++ Monitor.failed_jobs m.

(** The status of the object behind a reference. *)
Definition status_of (m : Monitor.ComputeMonitor) (a : nat) : option string :=
  status <$> Monitor.objects m !! a.

(** The lifecycle of the design: pending, scheduled, running, completed,
    and failed from any state that is not terminal. *)
Definition lifecycle_step (old new : string) : bool :=
  (String.eqb old "pending" && String.eqb new "scheduled") ||
  (String.eqb old "scheduled" && String.eqb new "running") ||
  (String.eqb old "running" && String.eqb new "completed") ||
  ((String.eqb old "pending" || String.eqb old "scheduled" || String.eqb old "running")
   && String.eqb new "failed").

(** ** The transaction orchestrator *)

(** The jobs whose transaction was begun, as the output shows them. *)
Definition started (evs : list Beckn.Event) : list string :=
  omap (fun e => match e with Beckn.JobStarted id => Some id | _ => None end) evs.

(** A computation of the transaction orchestrator is quiet when it begins
    no job: whatever it prints, no line is a [JobStarted]. *)
Definition quiet {Net A} (m : Beckn.M Net A) : Prop :=
  forall s : Beckn.State Net, exists evs,
    Beckn.stdout Net (snd (m s)) = Beckn.stdout Net s ++ evs /\ started evs = [].

(** A counterparty that refuses the search for region ['north'], breaks
    the connection on every request for region ['scotland'], and answers
    everything else. *)
Definition region_of (m : Beckn.Message) : string :=
  match m with
  | Beckn.SearchIntent _ _ region _ _ _ => region
  | Beckn.SelectOrder provider _ | Beckn.InitOrder provider _ _
  | Beckn.ConfirmOrder provider _ _ => String.substring 14 (String.length provider) provider
  end.

Definition moody_post (n : unit) (endpoint : string) (p : Beckn.Payload)
    : Beckn.HttpOutcome * unit :=
  let region := region_of (Beckn.message p) in
  if String.eqb region "north" then (Beckn.HttpStatus 503 "unavailable", n)
  else if String.eqb region "scotland" then (Beckn.HttpFailure "connection reset", n)
  else (Beckn.Http200 {| Beckn.error := None |}, n).

Definition sample_uuid4 (k : nat) : string :=
  String (ascii_of_nat (97 + k)) "3f2c1de-0000-4000-8000-000000000000".

Definition sample_entry (id region : string) : ScheduledJob :=
  {| sj_job := set_status
       {| job_id := id; job_name := "Batch"; job_type := "batch_inference";
          priority := 6; cpu_cores := 64; gpu_count := 2; energy_kwh := 50;
          power_mw := 5 # 100; duration_hours := 1; deadline := 43200;
          can_defer := true; can_interrupt := false; can_migrate := true;
          flexibility_minutes := 120; preferred_region := Some region;
          status := "pending"; preferred_windows := [] |} "pending";
     sj_region := region;
     sj_start_time := Some 0%Z;
     sj_start_datetime := Some 0%Z;
     sj_end_datetime := Some 3600%Z;
     sj_cost := Some 5; sj_carbon := Some 9000; sj_p415_revenue := Some 0;
     sj_baseline_cost := Some (75 # 10); sj_baseline_carbon := Some 12500 |}.

Definition sample_schedule : list ScheduledJob :=
  [sample_entry "job_a" "north"; sample_entry "job_b" "scotland";
   sample_entry "job_c" "south"].

Definition fresh_state : Beckn.State unit :=
  {| Beckn.active_transactions := ∅; Beckn.clock := sample_clock; Beckn.uuids := 0;
     Beckn.net := (); Beckn.sent := []; Beckn.stdout := [] |}.

(** ** The grid data ingestor *)



(** Sources that answer with the tick they were asked at, so that two
    fresh forecasts differ. *)
Definition ticking_source (k : nat) (horizon : Z) : result (gmap string (list Q)) :=
  Ok {[ "south"%string := [inject_Z (Z.of_nat k); inject_Z horizon] ]}.

Definition failing_source (k : nat) (horizon : Z) : result (gmap string (list Q)) :=
  Raise (ValueError "api down").

Definition mock_series (k : nat) (horizon : Z) : gmap string (list Q) :=
  {[ "south"%string := [15 # 100] ]}.

Definition no_events (k : nat) (horizon : Z) : result (list GridEvent) := Ok [].

Definition decimal_stamp (t : Z) : string :=
  String (ascii_of_nat (48 + Z.to_nat (t / 60 mod 10))) "m".

Definition sample_fetch (horizon : Z) (self : Ingestor.GridDataIngestor) (clock : Clock)
    : option GridForecast * Ingestor.GridDataIngestor * Clock :=
  Ingestor.fetch_forecast ticking_source failing_source no_events mock_series mock_series
    decimal_stamp horizon self clock.

(** ** JSON: well-formed values, and reading a serialization back *)

Section JsonDevices.
Import Json.

Definition hex_value (c : ascii) : nat :=
  let n := nat_of_ascii c in
  if (n <? 58)%nat then n - 48 else n - 87.

Definition unescape_char (input : list ascii) : option (ascii * list ascii) :=
  match input with
  | [] => None
  | c :: rest =>
      if Ascii.eqb c quote then None
      else if Ascii.eqb c backslash then
        match rest with
        | d :: rest' =>
            if Ascii.eqb d "u" then
              match rest' with
              | _ :: _ :: h :: l :: rest'' =>
                  Some (ascii_of_nat (16 * hex_value h + hex_value l), rest'')
              | _ => None
              end
            else if Ascii.eqb d "n" then Some (ascii_of_nat 10, rest')
            else if Ascii.eqb d "r" then Some (ascii_of_nat 13, rest')
            else if Ascii.eqb d "t" then Some (ascii_of_nat 9, rest')
            else if Ascii.eqb d "b" then Some (ascii_of_nat 8, rest')
            else if Ascii.eqb d "f" then Some (ascii_of_nat 12, rest')
            else Some (d, rest')
        | [] => None
        end
      else Some (c, rest)
  end.

(** The characters that can follow a value inside a list or a dict. *)
Definition delimiter (c : ascii) : bool :=
  Ascii.eqb c "," || Ascii.eqb c "]" || Ascii.eqb c "}".

(** What is left after a value: nothing, or text that opens with a
    delimiter. *)
Definition terminated (rest : list ascii) : bool :=
  match rest with
  | [] => true
  | c :: _ => delimiter c
  end.

Definition digit (c : ascii) : bool :=
  let n := nat_of_ascii c in (48 <=? n)%nat && (n <=? 57)%nat.

Definition letter (c : ascii) : bool :=
  let n := nat_of_ascii c in
  ((65 <=? n)%nat && (n <=? 90)%nat) || ((97 <=? n)%nat && (n <=? 122)%nat).

(** A number literal opens with a digit, a sign, or the [N] or [I] of
    [NaN] and [Infinity], and goes on with digits, letters, signs and
    points. *)
Definition number_start (c : ascii) : bool :=
  digit c || Ascii.eqb c "-" || Ascii.eqb c "N" || Ascii.eqb c "I".

Definition number_char (c : ascii) : bool :=
  digit c || letter c || Ascii.eqb c "-" || Ascii.eqb c "+" || Ascii.eqb c ".".

Definition number_literal (literal : string) : bool :=
  match list_ascii_of_string literal with
  | [] => false
  | c :: cs => number_start c && forallb number_char cs
  end.

Fixpoint well_formed (v : json) : bool :=
  match v with
  | JNum literal => number_literal literal
  | JList elements => forallb well_formed elements
  | JDict items => forallb (fun kv => well_formed (snd kv)) items
  | _ => true
  end.

(** The text after the first element of a list, and after the first item
    of a dict. *)
Fixpoint more_elements (l : list json) : list ascii :=
  match l with
  | [] => text "]"
  | y :: l => text ", " ++ dumps_plain y ++ more_elements l
  end.

Fixpoint more_items (l : list (string * json)) : list ascii :=
  match l with
  | [] => text "}"
  | (k, y) :: l =>
      text ", " ++ dumps_string k ++ text ": " ++ dumps_plain y ++ more_items l
  end.

(** How a value opens. *)
Definition opening (v : json) (c : ascii) : Prop :=
  match v with
  | JNull => c = "n"%char
  | JBool true => c = "t"%char
  | JBool false => c = "f"%char
  | JNum _ => number_start c = true
  | JStr _ => c = quote
  | JList _ => c = "["%char
  | JDict _ => c = "{"%char
  end.

(** A value can be read off the front of a text: what follows it is
    fixed too. *)
Definition decodes (v1 : json) : Prop :=
  forall v2 r1 r2,
    well_formed v1 = true -> well_formed v2 = true ->
    terminated r1 = true -> terminated r2 = true ->
    dumps_plain v1 ++ r1 = dumps_plain v2 ++ r2 -> v1 = v2 /\ r1 = r2.

End JsonDevices.

(** ** The decision ledger *)

(** The check of a reader of the ledger: the hash of the record without
    its ['hash'] field against that field. *)
Definition recomputed_hash (record : list (string * Json.json)) : string :=
  Audit._calculate_hash (Json.JDict (Json.dict_without "hash" record)).

Definition verify (record : Json.json) : bool :=
  match record with
  | Json.JDict items =>
      match Json.dict_get "hash" items with
      | Some (Json.JStr h) => String.eqb (recomputed_hash items) h
      | _ => false
      end
  | _ => false
  end.

(** Printers for the samples: a decimal with up to six places, and the
    clock reading in seconds. *)
Fixpoint drop_zeros (ds : list ascii) : list ascii :=
  match ds with
  | c :: ds' => if Ascii.eqb c "0" then drop_zeros ds' else ds
  | [] => []
  end.

Definition decimal_repr (q : Q) : string :=
  let n := Qfloor (Qabs q * 1000000) in
  let whole := list_ascii_of_string (Json.int_literal (n / 1000000)) in
  let frac := list_ascii_of_string (Json.int_literal (1000000 + n mod 1000000)) in
  let places := match rev (drop_zeros (rev (drop 1 frac))) with
                | [] => ["0"%char]
                | ds => ds
                end in
  string_of_list_ascii
    ((if Qlt_le_dec q 0 then ["-"%char] else []) ++ whole ++ "."%char :: places).

Definition seconds_stamp (t : Z) : string := ("t" ++ Json.int_literal t)%string.

(** The job, schedule and grid state of the self-test of the ledger. *)
Definition ledger_job : ComputeJob :=
  {| job_id := "test_job_001"; job_name := "Test ML Training"; job_type := "training";
     priority := 7; cpu_cores := 100; gpu_count := 4; energy_kwh := 150;
     power_mw := 5 # 100; duration_hours := 3; deadline := 43200;
     can_defer := true; can_interrupt := false; can_migrate := true;
     flexibility_minutes := 0; preferred_region := None; status := "pending";
     preferred_windows := [] |}.

Definition ledger_schedule : list ScheduledJob :=
  [{| sj_job := ledger_job; sj_region := "scotland";
      sj_start_time := Some 2%Z; sj_start_datetime := Some 7200%Z;
      sj_end_datetime := None;
      sj_cost := Some (155 # 10); sj_carbon := Some 12000;
      sj_p415_revenue := Some 5; sj_baseline_cost := Some (225 # 10);
      sj_baseline_carbon := Some 18000 |}].

Definition ledger_grid_state : GridForecast :=
  {| fc_price := None; fc_carbon := None; fc_p415_events := Some [];
     fc_avg_price := Some (15 # 100); fc_avg_carbon := Some 200;
     fc_min_carbon_hour := None; fc_min_price_hour := None;
     fc_timestamp := Some "t0"%string; fc_horizon_hours := None;
     fc_data_source := None |}.

Definition ledger_logged : Audit.Logged :=
  Audit.log_decision decimal_repr seconds_stamp seconds_stamp Audit.init
    [ledger_job] ledger_schedule ledger_grid_state sample_clock.

(** The written record with its metrics replaced. *)
Definition tampered_record : list (string * Json.json) :=
  match Audit.written ledger_logged with
  | Some (Json.JDict items) =>
      Json.dict_set "metrics" (Json.JDict [("total_cost"%string, Json.JNum "1.0")]) items
  | _ => []
  end.

(** Two texts that SHA-256 does not tell apart. *)
Definition sha256_collision (x y : list ascii) : Prop :=
  x <> y /\ Sha256.sha256_hex x = Sha256.sha256_hex y.

(** ** Further predicates and sample data *)

(** A schedule entry carries the two figures every reader takes with
    [s['cost']] and [s['carbon']]. *)
Definition has_figures (s : ScheduledJob) : Prop :=
  is_Some (sj_cost s) /\ is_Some (sj_carbon s).

(** A scheduler that places no job. *)
Definition idle_scheduler (jobs : list ComputeJob) (fc : GridForecast) (cap : unit)
    : result (list ScheduledJob) := Ok [].

(** The queues that [update_job_status] searches for a job. *)
Definition live_queues (m : Monitor.ComputeMonitor) : list nat :=
  Monitor.pending_jobs m ++ Monitor.scheduled_jobs m ++ Monitor.running_jobs m.

(** No job behind the references [l] has the identifier [id]. *)
Definition id_absent (m : Monitor.ComputeMonitor) (id : string) (l : list nat) : Prop :=
  forall a j, a ∈ l -> Monitor.objects m !! a = Some j -> job_id j <> id.

(** Every queued reference points to a job. *)
Definition no_dangling (m : Monitor.ComputeMonitor) : Prop :=
  forall a, a ∈ all_queues m -> is_Some (Monitor.objects m !! a).

(** A monitor whose one job went through the whole lifecycle. *)
Definition one_completed : Monitor.ComputeMonitor :=
  let id := "job_00001"%string in
  let m1 := fst (Monitor.update_job_status one_pending id "scheduled") in
  let m2 := fst (Monitor.update_job_status m1 id "running") in
  fst (Monitor.update_job_status m2 id "completed").

(** Draws of [random.uniform(0, 0.5)]. *)
Definition sample_utilization (k : nat) : Q :=
  match k with
  | O => 0
  | S O => 1 # 4
  | _ => 1 # 2
  end.

(** One turn of [extend_pending]: the job gets a fresh object and joins
    the pending queue. *)
Definition submit (m : Monitor.ComputeMonitor) (j : ComputeJob) : Monitor.ComputeMonitor :=
  {| Monitor.objects := <[Monitor.fresh (Monitor.objects m) := j]> (Monitor.objects m);
     Monitor.pending_jobs := Monitor.pending_jobs m ++ [Monitor.fresh (Monitor.objects m)];
     Monitor.scheduled_jobs := Monitor.scheduled_jobs m;
     Monitor.running_jobs := Monitor.running_jobs m;
     Monitor.completed_jobs := Monitor.completed_jobs m;
     Monitor.failed_jobs := Monitor.failed_jobs m |}.

(** The job behind [a] is where the lifecycle puts a job of its status,
    and the other queues are those of [m]. *)
Definition placed (m m' : Monitor.ComputeMonitor) (a : nat) (j : ComputeJob)
    (p s r c : list nat) : Prop :=
  Monitor.objects m' = <[a := j]> (Monitor.objects m) /\
  Monitor.pending_jobs m' = Monitor.pending_jobs m ++ p /\
  Monitor.scheduled_jobs m' = Monitor.scheduled_jobs m ++ s /\
  Monitor.running_jobs m' = Monitor.running_jobs m ++ r /\
  Monitor.completed_jobs m' = Monitor.completed_jobs m ++ c /\
  Monitor.failed_jobs m' = Monitor.failed_jobs m.

(** ** The orchestrator agent *)

(** The pending queue holds each of its jobs once and with the status
    ['pending'], and no scheduled or running job has that status. *)
Definition pending_in_order (m : Monitor.ComputeMonitor) : Prop :=
  NoDup (Monitor.pending_jobs m) /\
  (forall a, a ∈ Monitor.pending_jobs m -> status_of m a = Some "pending"%string) /\
  (forall a, a ∈ Monitor.scheduled_jobs m ++ Monitor.running_jobs m ->
     status_of m a <> Some "pending"%string).

(** A job with the identifier waits in the pending queue. *)
Definition is_pending (m : Monitor.ComputeMonitor) (id : string) : Prop :=
  exists a j, a ∈ Monitor.pending_jobs m /\ Monitor.objects m !! a = Some j /\ job_id j = id.

(** A job with the identifier is in the scheduled queue with the status
    ['scheduled']. *)
Definition marked (m : Monitor.ComputeMonitor) (id : string) : Prop :=
  exists a j, a ∈ Monitor.scheduled_jobs m /\ Monitor.objects m !! a = Some j /\
    job_id j = id /\ status j = "scheduled"%string.

(** An agent that holds one pending job and has made no transaction. *)
Definition sample_agent : Agent.OrchestratorAgent unit :=
  {| Agent.compute_monitor := one_pending; Agent.beckn_orchestrator := fresh_state |}.

(** ** The exchange of one job *)

Section ExchangeDesign.

Variable Net : Type.
Variable post : Net -> string -> Beckn.Payload -> Beckn.HttpOutcome * Net.
Variable uuid4 : nat -> string.

(** The context of the [i]-th request of a job begun in state [s]: the
    transaction identifier is the first identifier drawn, the message
    identifier the next one after the requests before. *)
Definition job_context (s : Beckn.State Net) (i : nat) (act : string) : Beckn.Context :=
  {| Beckn.action := act;
     Beckn.transaction_id := uuid4 (Beckn.uuids Net s);
     Beckn.message_id := uuid4 (S i + Beckn.uuids Net s);
     Beckn.timestamp :=
       reading (Beckn.clock Net s) (i + ticks (Beckn.clock Net s)) |}.

(** The four requests of the exchange, each with its endpoint. *)
Definition job_requests (sj : ScheduledJob) (s : Beckn.State Net)
    : list (string * Beckn.Payload) :=
  let job := sj_job sj in
  let provider := ("mock_provider_" ++ sj_region sj)%string in
  let item := ("compute_slot_" ++ Beckn.prefix 8 (uuid4 (Beckn.uuids Net s)))%string in
  [("search"%string,
    {| Beckn.context := job_context s 0 "search";
       Beckn.message :=
         Beckn.SearchIntent (default 0%Z (sj_start_datetime sj))
           (default 0%Z (sj_end_datetime sj)) (sj_region sj)
           (energy_kwh job) (cpu_cores job) (gpu_count job) |});
   ("select"%string,
    {| Beckn.context := job_context s 1 "select";
       Beckn.message := Beckn.SelectOrder provider item |});
   ("init"%string,
    {| Beckn.context := job_context s 2 "init";
       Beckn.message := Beckn.InitOrder provider item (cpu_cores job) |});
   ("confirm"%string,
    {| Beckn.context := job_context s 3 "confirm";
       Beckn.message := Beckn.ConfirmOrder provider item (cpu_cores job) |})].

(** A counterparty that the transport reaches and that accepts the
    search and the confirmation; its answers to the selection and the
    initialisation are free, error answers included. *)
Definition accepts_orders : Prop :=
  forall n endpoint payload,
    match post n endpoint payload with
    | (Beckn.Http200 body, _) =>
        endpoint = "search"%string \/ endpoint = "confirm"%string -> Beckn.error body = None
    | (Beckn.HttpStatus _ _, _) => endpoint = "select"%string \/ endpoint = "init"%string
    | (Beckn.HttpFailure _, _) => False
    end.

End ExchangeDesign.

(** The selection and the initialisation are refused, the search and the
    confirmation accepted. *)
Definition grudging_post (n : unit) (endpoint : string) (p : Beckn.Payload)
    : Beckn.HttpOutcome * unit :=
  if String.eqb endpoint "select" then (Beckn.HttpStatus 409 "conflict", n)
  else if String.eqb endpoint "init"
       then (Beckn.Http200 {| Beckn.error := Some "no quote"%string |}, n)
  else (Beckn.Http200 {| Beckn.error := None |}, n).

(** ** The forecast on its way from the ingestor to the orchestrator *)



(** ** The ledger's lines and its regional totals *)

(** A printable ASCII character. *)
Definition printable (c : ascii) : bool :=
  let n := nat_of_ascii c in (32 <=? n)%nat && (n <=? 126)%nat.

Definition hex_char (c : ascii) : bool :=
  let n := nat_of_ascii c in
  ((48 <=? n)%nat && (n <=? 57)%nat) || ((97 <=? n)%nat && (n <=? 102)%nat).




(** A schedule entry lacks one of its two figures. *)
Definition lacks_figure (s : ScheduledJob) : Prop :=
  sj_cost s = None \/ sj_carbon s = None.

(** ** The carbon intensity client *)

(** A response with two entries, the second without a forecast. *)
Definition sample_response : Json.json :=
  Json.JDict
    [("data"%string,
      Json.JDict
        [("regionid"%string, Json.JInt 13);
         ("data"%string,
          Json.JList
            [Json.JDict [("intensity"%string,
                          Json.JDict [("forecast"%string, Json.JInt 180)])];
             Json.JDict [("intensity"%string, Json.JDict [])]])])].

Definition flat_mock_carbon (hours : Z) (region : string) : list Json.json :=
  repeat (Json.JInt 200) (Z.to_nat hours).

(** * Properties *)

(** ** The bid valuator *)

Section BidFacts.
Import P415.

Lemma eligible_multiplier job p m :
  eligible job p m <-> revenue_multiplier job p = Some m.
Proof.
  split.
  - intros [Hi | Hd Hf | Hd]; unfold revenue_multiplier; simpl.
    + by rewrite Hi.
    + rewrite Hd. simpl. by destruct (Z.ltb_spec (flexibility_minutes job) 5); [lia|].
    + by rewrite Hd.
  - unfold revenue_multiplier.
    destruct (String.eqb_spec p "DC") as [->|_].
    { destruct (can_interrupt job) eqn:Hi; simpl; [|done].
      intros [= <-]. by constructor. }
    destruct (String.eqb_spec p "DM") as [->|_].
    { destruct (can_defer job) eqn:Hd; simpl; [|done].
      destruct (Z.ltb_spec (flexibility_minutes job) 5); [done|].
      intros [= <-]. by constructor. }
    destruct (String.eqb_spec p "DR") as [->|_]; [|done].
    destruct (can_defer job) eqn:Hd; simpl; [|done].
    intros [= <-]. by constructor.
Qed.

Lemma eligible_in_products job p m :
  eligible job p m -> in_products (Some p) = true.
Proof. by intros [ | | ]. Qed.

Lemma value_ineligible self job tw ev :
  ev_product ev ≫= revenue_multiplier job = None ->
  calculate_flexibility_value self job tw ev = 0.
Proof.
  intros H. unfold calculate_flexibility_value. rewrite H.
  by destruct (negb _).
Qed.


(** C2, as amended: a job that cannot be interrupted gets no positive
    value for the fast-response product (DC), and a job that cannot be
    deferred gets no positive value for any product other than DC (the
    medium product DM and the slow product DR among them); for DC the
    valuator reads [can_interrupt] only. *)
Theorem ineligible_value_not_positive self job tw ev :
  (ev_product ev = Some "DC"%string /\ can_interrupt job = false) \/
  (ev_product ev <> Some "DC"%string /\ can_defer job = false) ->
  calculate_flexibility_value self job tw ev <= 0.
Proof.
  intros H. rewrite value_ineligible; [lra|].
  destruct H as [[-> Hi] | [Hp Hd]]; simpl.
  - unfold revenue_multiplier. simpl. by rewrite Hi.
  - destruct (ev_product ev) as [p|]; [simpl|done].
    unfold revenue_multiplier. rewrite Hd. simpl.
    destruct (String.eqb_spec p "DC") as [->|_]; [done|].
    by repeat destruct (String.eqb _ _).
Qed.

Lemma ineligible_value_not_positive_witness :
  calculate_flexibility_value (init None) (sample_job false false) 0
    (sample_event "DC" 150 30) <= 0 /\
  calculate_flexibility_value (init None) (sample_job false true) 0
    (sample_event "DR" 150 30) <= 0.
Proof.
  split.
  - apply ineligible_value_not_positive. left. split; reflexivity.
  - apply ineligible_value_not_positive. right. split; [discriminate | reflexivity].
Defined.

(** C2 as stated fails: a job with [can_defer = false] that can be
    interrupted is paid for the fast-response product. *)
Lemma non_deferrable_job_paid_for_fast_product :
  can_defer (sample_job false true) = false /\
  ev_product (sample_event "DC" 150 30) = Some "DC"%string /\
  calculate_flexibility_value (init None) (sample_job false true) 0
    (sample_event "DC" 150 30) == 108 /\
  ~ calculate_flexibility_value (init None) (sample_job false true) 0
      (sample_event "DC" 150 30) <= 0.
Proof.
  repeat split; vm_compute; congruence.
Qed.

(** C3: for an eligible job and event the valuator returns the revenue
    [clearing_price * power_mw * (duration_minutes / 60) * multiplier]
    less the platform's share of it, which with the default share of 10%
    is nine tenths of the revenue; the fast-response event at price 150
    for 30 minutes against a 2 MW interruptible job is worth 108. *)
Theorem value_of_eligible_bid self job tw ev p m :
  ev_product ev = Some p ->
  eligible job p m ->
  let revenue :=
    default 0 (ev_clearing_price ev) * power_mw job * (duration_of ev / 60) * m in
  calculate_flexibility_value self job tw ev = revenue - revenue * revenue_share self /\
  (revenue_share self == revenue_share (init None) ->
   calculate_flexibility_value self job tw ev == (9 # 10) * revenue) /\
  (let job2 := sample_job true true in
   let event := sample_event "DC" 150 30 in
   power_mw job2 == 2 /\ can_interrupt job2 = true /\
   default 0 (ev_clearing_price event) * power_mw job2 * (duration_of event / 60) * (8 # 10)
     == 120 /\
   calculate_flexibility_value (init None) job2 0 event == 108).
Proof.
  intros Hp He revenue.
  assert (Hv : calculate_flexibility_value self job tw ev
               = revenue - revenue * revenue_share self).
  { unfold calculate_flexibility_value. rewrite Hp.
    rewrite (eligible_in_products _ _ _ He). simpl.
    apply eligible_multiplier in He. by rewrite He. }
  split; [exact Hv|]. split.
  - intros Hs. rewrite Hv, Hs. simpl. ring.
  - repeat split; reflexivity.
Qed.

Lemma value_of_eligible_bid_witness :
  let job := sample_job true true in
  let event := sample_event "DC" 150 30 in
  let revenue := 150 * power_mw job * (30 / 60) * (8 # 10) in
  ev_product event = Some "DC"%string /\
  eligible job "DC" (8 # 10) /\
  calculate_flexibility_value (init None) job 0 event
    = revenue - revenue * revenue_share (init None).
Proof.
  split; [reflexivity|]. split; [by constructor|].
  apply (value_of_eligible_bid (init None) (sample_job true true) 0
           (sample_event "DC" 150 30) "DC" (8 # 10) eq_refl
           (eligible_fast (sample_job true true) eq_refl)).
Defined.

(** ** Bid creation *)




End BidFacts.

(** ** The FIFO fall-back of the orchestrator *)

Section FallbackFacts.
Import Orchestrator.

Lemma region_or_south_cases j :
  region_or_south j = default "south"%string (preferred_region j) \/
  (preferred_region j = Some ""%string /\ region_or_south j = "south"%string).
Proof.
  unfold region_or_south. destruct (preferred_region j) as [r|]; [|by left].
  destruct (String.eqb_spec r "") as [->|]; [by right | by left].
Qed.

Lemma hour0_lookup series region dflt x xs :
  series !! region = Some (x :: xs) -> hour0 series region dflt = x.
Proof. intros H. unfold hour0. by rewrite H. Qed.

Lemma fallback_entry_ok fc prices carbon j clock :
  fc_price fc = Some prices -> fc_carbon fc = Some carbon ->
  exists a clock', fallback_entry fc j clock = Ok (a, clock') /\
    sj_job a = j /\ fifo_assignment prices carbon j a.
Proof.
  intros Hp Hc. unfold fallback_entry. rewrite Hp, Hc. simpl.
  eexists _, _. split; [reflexivity|]. split; [reflexivity|].
  unfold fifo_assignment. simpl.
  repeat split; try done.
  - apply region_or_south_cases.
  - intros p ps H. by rewrite (hour0_lookup _ _ _ _ _ H).
  - intros c cs H. by rewrite (hour0_lookup _ _ _ _ _ H).
Qed.

Lemma fallback_schedule_ok fc prices carbon jobs clock :
  fc_price fc = Some prices -> fc_carbon fc = Some carbon ->
  exists schedule clock', _fallback_schedule jobs fc clock = Ok (schedule, clock') /\
    map sj_job schedule = jobs /\
    Forall2 (fifo_assignment prices carbon) jobs schedule.
Proof.
  intros Hp Hc. revert clock. induction jobs as [|j jobs IH]; intros clock.
  - exists [], clock. by repeat split.
  - destruct (fallback_entry_ok fc prices carbon j clock Hp Hc)
      as (a & clock1 & Ha & Hj & Hspec).
    destruct (IH clock1) as (schedule & clock2 & Hs & Hjobs & Hall).
    exists (a :: schedule), clock2. simpl. rewrite Ha. simpl. rewrite Hs. simpl.
    split; [done|]. split; [by rewrite Hj, Hjobs | by constructor].
Qed.

Lemma fallback_entry_figures fc j c1 c2 :
  (figures ∘ fst) <$> fallback_entry fc j c1 = (figures ∘ fst) <$> fallback_entry fc j c2.
Proof.
  unfold fallback_entry.
  destruct (fc_price fc); [|done]. destruct (fc_carbon fc); done.
Qed.

Section OptimizeFacts.
Variable Capacity : Type.
Variable forecast_optimal_windows :
  ComputeJob -> GridForecast -> Z -> result (list Window).
Variable get_capacity : Capacity.
Variable scheduler_optimize :
  list ComputeJob -> GridForecast -> Capacity -> result (list ScheduledJob).

Lemma enrich_keeps horizon fc j :
  let j' := enrich forecast_optimal_windows horizon fc j in
  job_id j' = job_id j /\ energy_kwh j' = energy_kwh j /\
  preferred_region j' = preferred_region j.
Proof.
  unfold enrich. destruct (is_flexible j); [|done].
  by destruct (forecast_optimal_windows j fc horizon).
Qed.

Lemma fifo_assignment_enrich prices carbon horizon fc j a :
  fifo_assignment prices carbon (enrich forecast_optimal_windows horizon fc j) a ->
  fifo_assignment prices carbon j a.
Proof.
  destruct (enrich_keeps horizon fc j) as (Hid & He & Hr).
  unfold fifo_assignment, region_or_south. rewrite Hid, He, Hr. done.
Qed.

End OptimizeFacts.
End FallbackFacts.

(** C4: when the scheduler raises, [optimize] returns the FIFO fall-back
    schedule.  It has one assignment per input job, in the order of the
    jobs; the assignment of a job starts at hour 0 in the job's preferred
    region (or ['south']), costs the job's energy times the hour-0 price
    of that region and emits its energy times the hour-0 carbon intensity
    of that region (the reference values 0.15 and 200 standing in for a
    region the forecast has no data for), has no market revenue, and has
    the baselines energy times 0.15 and energy times 250. *)
Theorem optimize_falls_back_to_fifo (Capacity : Type)
    (forecaster : ComputeJob -> GridForecast -> Z -> result (list Window))
    (capacity : Capacity)
    (scheduler : list ComputeJob -> GridForecast -> Capacity -> result (list ScheduledJob))
    (horizon : Z) (jobs : list ComputeJob) (fc : GridForecast) (clock : Clock)
    (prices carbon : gmap string (list Q)) (e : exn) :
  fc_price fc = Some prices ->
  fc_carbon fc = Some carbon ->
  scheduler (map (Orchestrator.enrich forecaster horizon fc) jobs) fc capacity = Raise e ->
  exists schedule clock',
    Orchestrator.optimize Capacity forecaster capacity scheduler horizon jobs fc clock
      = Ok (schedule, clock') /\
    Orchestrator._fallback_schedule
      (map (Orchestrator.enrich forecaster horizon fc) jobs) fc clock
      = Ok (schedule, clock') /\
    length schedule = length jobs /\
    map (fun a => job_id (sj_job a)) schedule = map job_id jobs /\
    Forall2 (fifo_assignment prices carbon) jobs schedule.
Proof.
  intros Hp Hc Hraise.
  destruct (fallback_schedule_ok fc prices carbon
              (map (Orchestrator.enrich forecaster horizon fc) jobs) clock Hp Hc)
    as (schedule & clock' & Hs & Hjobs & Hall).
  exists schedule, clock'.
  assert (Hlen : length schedule = length jobs).
  { by rewrite <- (length_map sj_job), Hjobs, length_map. }
  split; [|split; [done|split; [done|split]]].
  - unfold Orchestrator.optimize. destruct jobs as [|j jobs]; [done|].
    rewrite Hraise. simpl. exact Hs.
  - rewrite <- (map_map sj_job job_id), Hjobs, map_map.
    apply map_ext. intros j. apply enrich_keeps.
  - change (Forall2 (fifo_assignment prices carbon)
              (Orchestrator.enrich forecaster horizon fc <$> jobs) schedule) in Hall.
    rewrite Forall2_fmap_l in Hall.
    eapply Forall2_impl; [exact Hall|].
    intros j a. apply fifo_assignment_enrich.
Qed.

Lemma optimize_falls_back_to_fifo_witness :
  let jobs := [sample_job true true; sample_job false false] in
  exists schedule clock',
    Orchestrator.optimize unit no_windows () failing_scheduler 24 jobs
      sample_forecast sample_clock = Ok (schedule, clock') /\
    length schedule = 2%nat /\
    map sj_cost schedule = [Some (150 * (12 # 100)); Some (150 * (12 # 100))].
Proof.
  destruct (optimize_falls_back_to_fifo unit no_windows () failing_scheduler 24
              [sample_job true true; sample_job false false]
              sample_forecast sample_clock _ _ (ValueError "infeasible")
              eq_refl eq_refl eq_refl)
    as (schedule & clock' & Hopt & Hfb & Hlen & _ & _).
  exists schedule, clock'. split; [exact Hopt|]. split; [exact Hlen|].
  vm_compute in Hfb. injection Hfb as <- _. reflexivity.
Defined.

(** C8: the FIFO fall-back is a function of the job list and the
    forecast: two runs, whatever the clock reads in each, raise the same
    exception or return schedules with the same jobs in the same order
    and, for each job, the same region, start hour, cost, carbon, market
    revenue and baselines. *)
Theorem fallback_schedule_deterministic (jobs : list ComputeJob) (fc : GridForecast)
    (clock1 clock2 : Clock) :
  (map figures ∘ fst) <$> Orchestrator._fallback_schedule jobs fc clock1
  = (map figures ∘ fst) <$> Orchestrator._fallback_schedule jobs fc clock2.
Proof.
  revert clock1 clock2. induction jobs as [|j jobs IH]; intros clock1 clock2; [done|].
  simpl. pose proof (fallback_entry_figures fc j clock1 clock2) as He.
  destruct (Orchestrator.fallback_entry fc j clock1) as [[a1 c1]|e1],
           (Orchestrator.fallback_entry fc j clock2) as [[a2 c2]|e2];
    try discriminate; [|simpl in *; congruence].
  assert (Ha : figures a1 = figures a2) by (simpl in He; congruence).
  specialize (IH c1 c2). simpl.
  destruct (Orchestrator._fallback_schedule jobs fc c1) as [[s1 c1']|e1],
           (Orchestrator._fallback_schedule jobs fc c2) as [[s2 c2']|e2];
    try discriminate; [|simpl in *; congruence].
  assert (Hs : map figures s1 = map figures s2) by (simpl in IH; congruence).
  simpl. by rewrite Ha, Hs.
Qed.

(** ** The window forecaster *)

Section ForecasterFacts.
Import Forecaster.

Lemma elem_of_py_range h n : h ∈ py_range n <-> (0 <= h < n)%Z.
Proof.
  unfold py_range. rewrite list_elem_of_In, in_map_iff. split.
  - intros (k & <- & Hk). apply in_seq in Hk. lia.
  - intros Hh. exists (Z.to_nat h). split; [lia|]. apply in_seq. lia.
Qed.

(** The loops of the heuristic visit exactly the start hours [h] with
    [h + int(duration) < horizon]. *)
Lemma elem_of_candidates job horizon region hour :
  (region, hour) ∈ candidates job horizon <->
  region ∈ regions /\ (0 <= hour)%Z /\ (hour + py_int (duration_hours job) < horizon)%Z.
Proof.
  unfold candidates. rewrite list_elem_of_bind. split.
  - intros (r & Hin & Hr). apply list_elem_of_bind in Hin as (h & Hin & Hh).
    apply list_elem_of_singleton in Hin as [= -> ->].
    apply elem_of_py_range in Hh. split; [done|lia].
  - intros (Hr & H0 & Hh). exists region. split; [|done].
    apply list_elem_of_bind. exists hour. split; [by apply list_elem_of_singleton|].
    apply elem_of_py_range. lia.
Qed.

Lemma window_at_key job prices carbon region hour noise w :
  window_at job prices carbon region hour noise = Ok w ->
  window_key w = (region, hour) /\
  score w = (avg_price w / (15 # 100)) * (5 # 10) + (avg_carbon w / 200) * (5 # 10).
Proof.
  unfold window_at. destruct (prices !! region); [simpl|done].
  destruct (py_div _ _); [simpl|done].
  destruct (carbon !! region); [simpl|done].
  destruct (py_div _ _); [simpl|done].
  by intros [= <-].
Qed.

Lemma build_windows_keys job prices carbon uniform k cands ws :
  build_windows job prices carbon uniform k cands = Ok ws ->
  map window_key ws = cands.
Proof.
  revert k ws. induction cands as [|[region hour] cands IH]; intros k ws; simpl.
  - by intros [= <-].
  - destruct (window_at _ _ _ _ _ _) as [w|] eqn:Hw; [simpl|done].
    destruct (build_windows _ _ _ _ _ _) as [ws'|] eqn:Hws; [simpl|done].
    intros [= <-]. simpl. apply window_at_key in Hw as [-> _].
    by rewrite (IH _ _ Hws).
Qed.

Lemma insert_by_score_perm w l : insert_by_score w l ≡ₚ w :: l.
Proof.
  induction l as [|y l IH]; [done|]. simpl.
  destruct (Qle_bool _ _); [done|]. rewrite IH. apply Permutation_swap.
Qed.

Lemma sort_by_score_perm l : sort_by_score l ≡ₚ l.
Proof.
  induction l as [|w l IH]; [done|]. simpl.
  rewrite insert_by_score_perm. by rewrite IH.
Qed.

Lemma insert_by_score_sorted w l :
  Sorted score_le l -> Sorted score_le (insert_by_score w l).
Proof.
  induction 1 as [|y l Hs IH Hhd]; simpl.
  - by repeat constructor.
  - destruct (Qle_bool (score w) (score y)) eqn:Hle.
    + apply Qle_bool_iff in Hle. constructor; [by constructor|by constructor].
    + assert (score y <= score w).
      { destruct (Qlt_le_dec (score y) (score w)) as [?|Hn]; [lra|].
        apply Qle_bool_iff in Hn. congruence. }
      constructor; [done|].
      destruct Hhd as [|z l' Hyz]; simpl.
      * by constructor.
      * destruct (Qle_bool (score w) (score z)); by constructor.
Qed.

Lemma sort_by_score_sorted l : Sorted score_le (sort_by_score l).
Proof.
  induction l; simpl; [constructor | by apply insert_by_score_sorted].
Qed.

Lemma py_slice_prefix {A} (l : list A) (n : nat) :
  py_slice l 0 (Z.of_nat n) = take n l.
Proof.
  unfold py_slice, slice_index. simpl.
  replace (Z.to_nat (Z.min 0 (Z.of_nat (length l)))) with 0%nat by lia.
  rewrite drop_0, Nat.sub_0_r.
  destruct (Z.ltb_spec (Z.of_nat n) 0); [lia|].
  destruct (Z.min_spec (Z.of_nat n) (Z.of_nat (length l))) as [[? ->]|[? ->]].
  - by rewrite Nat2Z.id.
  - rewrite Nat2Z.id. rewrite take_ge by lia. by rewrite take_ge by lia.
Qed.

Lemma Sorted_take {A} (R : A -> A -> Prop) (l : list A) n :
  Sorted R l -> Sorted R (take n l).
Proof.
  intros Hs. revert n. induction Hs as [|x l Hs IH Hhd]; intros [|n]; simpl;
    try constructor; [apply IH|].
  destruct Hhd; destruct n; simpl; by constructor.
Qed.

(** What the heuristic does return: at most three windows, in ascending
    order of score, all drawn from the start hours [h] with
    [h + int(duration) < horizon]. *)
Lemma heuristic_forecast_windows uniform job fc horizon ws :
  _heuristic_forecast uniform job fc horizon = Ok ws ->
  (length ws <= 3)%nat /\
  Sorted score_le ws /\
  Forall (fun w => w_region w ∈ regions /\ (0 <= start_hour w)%Z /\
                   (start_hour w + py_int (duration_hours job) < horizon)%Z) ws.
Proof.
  unfold _heuristic_forecast.
  destruct (fc_price fc) as [prices|]; [simpl|done].
  destruct (fc_carbon fc) as [carbon|]; [simpl|done].
  destruct (build_windows _ _ _ _ _ _) as [windows|] eqn:Hb; [simpl|done].
  intros [= <-]. rewrite (py_slice_prefix _ 3).
  split; [rewrite length_take; lia|].
  split; [apply Sorted_take, sort_by_score_sorted|].
  apply Forall_forall. intros w Hw.
  apply elem_of_take in Hw as (i & Hw & _).
  apply list_elem_of_lookup_2 in Hw. rewrite sort_by_score_perm in Hw.
  apply build_windows_keys in Hb.
  assert (Hk : window_key w ∈ candidates job horizon).
  { rewrite <- Hb. apply list_elem_of_In, in_map. by apply list_elem_of_In. }
  by apply elem_of_candidates in Hk.
Qed.

End ForecasterFacts.

(** What holds of the heuristic on every input: when it returns, it
    returns at most three windows in ascending order of score, each of
    one of the three regions and with a start hour [h >= 0] such that
    [h + int(duration) < horizon]. *)
Theorem heuristic_forecast_shape (uniform : nat -> Q) (job : ComputeJob)
    (fc : GridForecast) (horizon : Z) :
  match Forecaster._heuristic_forecast uniform job fc horizon with
  | Ok ws =>
      (length ws <= 3)%nat /\
      Sorted score_le ws /\
      Forall (fun w => w_region w ∈ Forecaster.regions /\ (0 <= start_hour w)%Z /\
                (start_hour w + Forecaster.py_int (duration_hours job) < horizon)%Z) ws
  | Raise _ => True
  end.
Proof.
  destruct (Forecaster._heuristic_forecast uniform job fc horizon) as [ws|] eqn:H;
    [|done].
  by apply heuristic_forecast_windows in H.
Qed.

(** C5, on the code: for the two-hour job, the horizon of 4 hours and a
    forecast whose cheapest and cleanest hours are the last two, the
    window that starts at hour 2 fits the horizon (2 + 2 <= 4) and the
    design ranks it first in every region; the heuristic never builds it
    (its loop stops at [horizon - duration - 1]) and returns the three
    windows that start at hour 1. *)
Theorem heuristic_forecast_misses_last_window :
  (2 + Forecaster.py_int (duration_hours two_hour_job) <= 4)%Z /\
  2%Z ∈ design_start_hours two_hour_job 4 /\
  ~ ("north"%string, 2%Z) ∈ Forecaster.candidates two_hour_job 4 /\
  window_keys (Forecaster._heuristic_forecast no_noise two_hour_job evening_forecast 4)
    = Ok [("north"%string, 1%Z); ("south"%string, 1%Z); ("scotland"%string, 1%Z)] /\
  window_keys (design_rank_windows no_noise two_hour_job evening_forecast 4)
    = Ok [("north"%string, 2%Z); ("scotland"%string, 2%Z); ("south"%string, 2%Z)].
Proof.
  split; [vm_compute; congruence|].
  split; [apply elem_of_py_range; vm_compute; split; congruence|].
  split; [rewrite elem_of_candidates; vm_compute; intros (_ & _ & ?); done|].
  split; reflexivity.
Qed.

(** ** The compute monitor *)

Section MonitorFacts.
Import Monitor.

Lemma find_job_elem objs id queue a :
  find_job objs id queue = Some a -> a ∈ queue.
Proof.
  induction queue as [|b queue IH]; simpl; [done|].
  destruct (objs !! b) as [j|].
  - destruct (String.eqb (job_id j) id).
    + intros [= ->]. left.
    + intros H. right. auto.
  - intros H. right. auto.
Qed.

Lemma list_remove_perm x queue queue' :
  list_remove x queue = Ok queue' -> queue ≡ₚ x :: queue'.
Proof.
  revert queue'. induction queue as [|y queue IH]; intros queue'; simpl; [done|].
  destruct (decide (y = x)) as [->|Hne].
  - by intros [= ->].
  - destruct (list_remove x queue) as [q|]; [simpl|done].
    intros [= <-]. rewrite (IH q eq_refl). apply Permutation_swap.
Qed.

Lemma list_remove_elem x queue :
  x ∈ queue -> exists queue', list_remove x queue = Ok queue'.
Proof.
  induction queue as [|y queue IH]; [by intros ?%elem_of_nil|].
  intros Hin. simpl. destruct (decide (y = x)) as [->|Hne]; [eauto|].
  apply elem_of_cons in Hin as [->|Hin]; [done|].
  destruct (IH Hin) as [q ->]. simpl. eauto.
Qed.

(** A queue move keeps every reference queued, once each. *)
Lemma move_between_queues_perm m a old new m' :
  a ∈ pending_jobs m ++ scheduled_jobs m ++ running_jobs m ->
  move_between_queues m a old new = Ok m' ->
  all_queues m' ≡ₚ all_queues m /\ objects m' = objects m.
Proof.
  intros Hin. unfold move_between_queues, all_queues.
  repeat match goal with
  | |- context [if ?b then _ else _] => destruct b eqn:?
  | |- context [list_remove ?x ?q] =>
      let H := fresh "Hrm" in
      destruct (list_remove x q) as [?|?] eqn:H; simpl;
      [apply list_remove_perm in H|]
  end;
  try (intros [= <-]; simpl; split; [|done]); try done.
  all: try (rewrite Hrm; clear Hrm).
  all: try solve_Permutation.
  rewrite !elem_of_app in Hin.
  repeat match goal with
  | H : bool_decide _ = false |- _ => apply bool_decide_eq_false in H
  end.
  tauto.
Qed.

(** Whatever status is asked for, and also when it raises,
    [update_job_status] drops no job from the queues and queues none
    twice: the five queues together stay a rearrangement of what they
    were. *)
Theorem update_job_status_queues m id st :
  all_queues (fst (update_job_status m id st)) ≡ₚ all_queues m.
Proof.
  unfold update_job_status.
  destruct (find_job (objects m) id (pending_jobs m)) as [a|] eqn:Hp.
  - apply find_job_elem in Hp.
    destruct (objects m !! a) as [j|]; [|done].
    match goal with |- context [move_between_queues ?m1 a ?o st] =>
      destruct (move_between_queues m1 a o st) as [m2|e] eqn:Hm; simpl; [|done];
      apply move_between_queues_perm in Hm as [Hm _]; [done|]
    end.
    simpl. apply elem_of_app. by left.
  - destruct (find_job (objects m) id (scheduled_jobs m ++ running_jobs m)) as [a|] eqn:Hs;
      [|done].
    apply find_job_elem in Hs.
    destruct (objects m !! a) as [j|]; [|done].
    match goal with |- context [move_between_queues ?m1 a ?o st] =>
      destruct (move_between_queues m1 a o st) as [m2|e] eqn:Hm; simpl; [|done];
      apply move_between_queues_perm in Hm as [Hm _]; [done|]
    end.
    simpl. apply elem_of_app. by right.
Qed.

End MonitorFacts.

(** C6, on the code: [update_job_status] writes any status it is given
    before it looks at the transition.  A pending job asked to be
    ['completed'] gets that status and stays in the pending queue; a
    scheduled job asked to be ['pending'] goes back to that status; and
    after pending -> running the request ['completed'] raises from
    [running_jobs.remove] with the status already changed.  None of
    these is a step of the lifecycle. *)
Theorem update_job_status_skips_lifecycle :
  let id := "job_00001"%string in
  (* pending -> completed *)
  (status_of one_pending 1 = Some "pending"%string /\
   let m := fst (Monitor.update_job_status one_pending id "completed") in
   status_of m 1 = Some "completed"%string /\
   Monitor.pending_jobs m = [1%nat] /\ Monitor.completed_jobs m = [] /\
   lifecycle_step "pending" "completed" = false) /\
  (* scheduled -> pending *)
  (let m1 := fst (Monitor.update_job_status one_pending id "scheduled") in
   status_of m1 1 = Some "scheduled"%string /\ Monitor.scheduled_jobs m1 = [1%nat] /\
   let m2 := fst (Monitor.update_job_status m1 id "pending") in
   status_of m2 1 = Some "pending"%string /\
   Monitor.scheduled_jobs m2 = [1%nat] /\ Monitor.pending_jobs m2 = [] /\
   lifecycle_step "scheduled" "pending" = false) /\
  (* pending -> running -> completed *)
  (let m1 := fst (Monitor.update_job_status one_pending id "running") in
   let r := Monitor.update_job_status m1 id "completed" in
   snd r = Some (ValueError "list.remove(x): x not in list") /\
   status_of (fst r) 1 = Some "completed"%string /\
   Monitor.pending_jobs (fst r) = [1%nat]).
Proof.
  vm_compute. repeat split.
Qed.

(** ** The transaction orchestrator *)

Section ProtocolFacts.
Import Beckn.

Variable Net : Type.
Variable post : Net -> string -> Payload -> HttpOutcome * Net.
Variable uuid4 : nat -> string.

Abbreviation M := (Beckn.M Net).
Abbreviation State := (Beckn.State Net).

Lemma started_app evs1 evs2 : started (evs1 ++ evs2) = started evs1 ++ started evs2.
Proof. apply omap_app. Qed.

Lemma started_cons id evs : started (JobStarted id :: evs) = id :: started evs.
Proof. done. Qed.

Lemma quiet_ret {A} (a : A) : quiet (ret Net a).
Proof. intros s. exists []. by rewrite app_nil_r. Qed.

Lemma quiet_raise {A} e : quiet (raise Net (A:=A) e).
Proof. intros s. exists []. by rewrite app_nil_r. Qed.

Lemma quiet_lift {A} (r : result A) : quiet (lift Net r).
Proof. intros s. exists []. by rewrite app_nil_r. Qed.

Lemma quiet_bind {A B} (m : M A) (k : A -> M B) :
  quiet m -> (forall a, quiet (k a)) -> quiet (bind Net m k).
Proof.
  intros Hm Hk s. unfold bind. destruct (Hm s) as (evs & Hevs & Hq).
  destruct (m s) as [[a|e] s1]; simpl in *.
  - destruct (Hk a s1) as (evs' & Hevs' & Hq').
    exists (evs ++ evs'). rewrite Hevs', Hevs, <- app_assoc. split; [done|].
    by rewrite started_app, Hq, Hq'.
  - by exists evs.
Qed.

Lemma quiet_try_except {A} (m : M A) (h : exn -> M A) :
  quiet m -> (forall e, quiet (h e)) -> quiet (try_except Net m h).
Proof.
  intros Hm Hh s. unfold try_except. destruct (Hm s) as (evs & Hevs & Hq).
  destruct (m s) as [[a|e] s1]; simpl in *.
  - by exists evs.
  - destruct (Hh e s1) as (evs' & Hevs' & Hq').
    exists (evs ++ evs'). rewrite Hevs', Hevs, <- app_assoc. split; [done|].
    by rewrite started_app, Hq, Hq'.
Qed.

Lemma quiet_print e :
  started [e] = [] -> quiet (print Net e).
Proof. intros He s. by exists [e]. Qed.

Lemma quiet_new_uuid : quiet (new_uuid Net uuid4).
Proof. intros s. exists []. by rewrite app_nil_r. Qed.

Lemma quiet_read_clock : quiet (read_clock Net).
Proof.
  intros s. exists []. unfold read_clock. destruct (now _). by rewrite app_nil_r.
Qed.

Lemma quiet_http_post endpoint payload : quiet (http_post Net post endpoint payload).
Proof.
  intros s. exists []. unfold http_post. destruct (post _ _ _). by rewrite app_nil_r.
Qed.

Lemma quiet_record_transaction order_id t : quiet (record_transaction Net order_id t).
Proof. intros s. exists []. by rewrite app_nil_r. Qed.

Create HintDb quiet.
#[local] Hint Resolve quiet_ret quiet_raise quiet_lift quiet_new_uuid quiet_read_clock
  quiet_http_post quiet_record_transaction : quiet.

Ltac quiet_step :=
  lazymatch goal with
  | |- quiet (bind _ _ _) => apply quiet_bind; [|intros ?]
  | |- quiet (print _ _) => apply quiet_print; reflexivity
  | |- quiet (match ?x with _ => _ end) => destruct x
  | |- quiet _ => solve [auto with quiet]
  end.

Lemma quiet_request act msg tid : quiet (request Net post uuid4 act msg tid).
Proof.
  unfold request, _build_context, _make_request. repeat quiet_step.
Qed.

#[local] Hint Resolve quiet_request : quiet.

(** The exchange of one job after its opening line. *)
Lemma execute_single_job_started sj (s : State) :
  exists evs,
    stdout Net (snd (_execute_single_job Net post uuid4 sj s))
      = stdout Net s ++ JobStarted (job_id (sj_job sj)) :: evs /\
    started evs = [].
Proof.
  unfold _execute_single_job.
  match goal with |- context [bind Net (new_uuid Net uuid4) ?k] => set (body := k) end.
  unfold bind at 1. simpl.
  match goal with |- context [body ?t ?s'] => set (tid := t); set (s1 := s') end.
  subst body. cbv beta. unfold bind at 1. simpl.
  match goal with |- context [snd (?rest ?s')] =>
    assert (Hq : quiet rest); [|destruct (Hq s') as (evs & Hevs & Hst)]
  end.
  { unfold search, select, init_order, confirm.
    repeat quiet_step. }
  exists evs. rewrite Hevs. simpl. by rewrite <- app_assoc.
Qed.

Lemma execute_guarded_started sj (s : State) :
  fst (execute_guarded Net post uuid4 sj s) = Ok () /\
  started (stdout Net (snd (execute_guarded Net post uuid4 sj s)))
    = started (stdout Net s) ++ [job_id (sj_job sj)].
Proof.
  unfold execute_guarded, try_except.
  destruct (execute_single_job_started sj s) as (evs & Hevs & Hq).
  destruct (_execute_single_job Net post uuid4 sj s) as [[[]|e] s1]; simpl in *.
  - split; [done|]. by rewrite Hevs, started_app, started_cons, Hq.
  - split; [done|].
    rewrite Hevs, !started_app, started_cons, Hq. simpl. by rewrite app_nil_r.
Qed.

(** The loop over the schedule is a fold: the jobs after a prefix are run
    from whatever state the prefix left. *)
Lemma execute_schedule_app done rest (s : State) :
  execute_schedule Net post uuid4 (done ++ rest) s
  = execute_schedule Net post uuid4 rest
      (snd (execute_schedule Net post uuid4 done s)).
Proof.
  revert s. induction done as [|sj done IH]; intros s; [done|].
  simpl. unfold bind.
  destruct (execute_guarded_started sj s) as [Hok _].
  destruct (execute_guarded Net post uuid4 sj s) as [[[]|e] s1]; [|done].
  apply IH.
Qed.

(** C7: whatever the counterparty and the network do (error answers and
    broken connections on any request of any job), [execute_schedule]
    does not raise and begins the transaction of every job of the
    schedule, once each and in order; after any prefix of the schedule,
    failed or not, the next job is run ([execute_guarded]: its own
    exchange with its own exception handler) and then the rest. *)
Theorem execute_schedule_isolates_failures (schedule : list ScheduledJob) (s : State) :
  fst (execute_schedule Net post uuid4 schedule s) = Ok () /\
  started (stdout Net (snd (execute_schedule Net post uuid4 schedule s)))
    = started (stdout Net s) ++ map (fun sj => job_id (sj_job sj)) schedule /\
  (forall done sj rest, schedule = done ++ sj :: rest ->
     let s1 := snd (execute_schedule Net post uuid4 done s) in
     let s2 := snd (execute_guarded Net post uuid4 sj s1) in
     fst (execute_guarded Net post uuid4 sj s1) = Ok () /\
     execute_schedule Net post uuid4 schedule s
       = execute_schedule Net post uuid4 rest s2).
Proof.
  split; [|split].
  - revert s. induction schedule as [|sj schedule IH]; intros s; [done|].
    simpl. unfold bind.
    destruct (execute_guarded_started sj s) as [Hok _].
    destruct (execute_guarded Net post uuid4 sj s) as [[[]|e] s1]; [|done].
    apply IH.
  - revert s. induction schedule as [|sj schedule IH]; intros s.
    { simpl. by rewrite app_nil_r. }
    simpl. unfold bind.
    destruct (execute_guarded_started sj s) as [Hok Hst].
    destruct (execute_guarded Net post uuid4 sj s) as [[[]|e] s1]; [|done].
    rewrite IH. simpl in Hst. rewrite Hst. by rewrite <- app_assoc.
  - intros done sj rest -> s1 s2.
    destruct (execute_guarded_started sj s1) as [Hok _].
    split; [done|].
    rewrite execute_schedule_app. fold s1. simpl. unfold bind.
    fold s2. destruct (execute_guarded Net post uuid4 sj s1) as [[[]|e] s2'] eqn:He;
      [|done].
    done.
Qed.

End ProtocolFacts.

(** ** The forecast cache of the grid data ingestor *)



Section IngestorFacts.
Import Ingestor.

Variable carbon_source : nat -> Z -> result (gmap string (list Q)).
Variable price_source : nat -> Z -> result (gmap string (list Q)).
Variable p415_source : nat -> Z -> result (list GridEvent).
Variable mock_carbon : nat -> Z -> gmap string (list Q).
Variable mock_prices : nat -> Z -> gmap string (list Q).
Variable isoformat : Z -> string.

Abbreviation fetch := (fetch_forecast carbon_source price_source p415_source
                         mock_carbon mock_prices isoformat).
Abbreviation build := (build_forecast carbon_source price_source p415_source
                         mock_carbon mock_prices isoformat).




End IngestorFacts.


(** The cache at work: a first call at 0:00 builds a forecast for 24
    hours; a call at 0:04 for 48 hours gets the same forecast and makes
    no request; a call at 0:06 builds another. *)
Example fetch_forecast_sample :
  let clock_at (m : Z) := {| ticks := 7; reading := fun _ => (m * 60)%Z |} in
  let '(f1, self1, _) := sample_fetch 24 (Ingestor.init None) sample_clock in
  let '(f2, self2, _) := sample_fetch 48 self1 (clock_at 4%Z) in
  let '(f3, self3, _) := sample_fetch 48 self2 (clock_at 6%Z) in
  (f1 ≫= fc_horizon_hours) = Some 24%Z /\
  f2 = f1 /\ self2 = self1 /\
  (f3 ≫= fc_horizon_hours) = Some 48%Z /\ f3 <> f1.
Proof.
  vm_compute. repeat split; congruence.
Qed.

(** ** The serialization determines the value *)

Section JsonFacts.
Import Json.

(** *** Strings: reading one escaped character back *)

Lemma unescape_escape c rest :
  unescape_char (escape_char c ++ rest) = Some (c, rest).
Proof.
  destruct c as [[] [] [] [] [] [] [] []]; reflexivity.
Qed.

Lemma escape_body_cons c s : escape_body (c :: s) = escape_char c ++ escape_body s.
Proof. reflexivity. Qed.

Lemma escape_body_inj s1 s2 r1 r2 :
  escape_body s1 ++ quote :: r1 = escape_body s2 ++ quote :: r2 ->
  s1 = s2 /\ r1 = r2.
Proof.
  revert s2. induction s1 as [|c1 s1 IH]; intros [|c2 s2] H.
  - by injection H.
  - rewrite escape_body_cons, <- app_assoc in H.
    apply (f_equal unescape_char) in H. by rewrite unescape_escape in H.
  - rewrite escape_body_cons, <- app_assoc in H.
    apply (f_equal unescape_char) in H. by rewrite unescape_escape in H.
  - rewrite !escape_body_cons, <- !app_assoc in H.
    apply (f_equal unescape_char) in H. rewrite !unescape_escape in H.
    injection H as -> H. by destruct (IH _ H) as [-> ->].
Qed.

Lemma dumps_string_inj s1 s2 r1 r2 :
  dumps_string s1 ++ r1 = dumps_string s2 ++ r2 -> s1 = s2 /\ r1 = r2.
Proof.
  unfold dumps_string. simpl. rewrite <- !app_assoc. simpl. intros [= H].
  apply escape_body_inj in H as [H ->]. split; [|done].
  by rewrite <- (string_of_list_ascii_of_string s1), H, string_of_list_ascii_of_string.
Qed.

#[local] Arguments dumps_string : simpl never.

(** *** Values *)

Lemma dumps_list x rest :
  dumps_plain (JList (x :: rest)) = text "[" ++ dumps_plain x ++ more_elements rest.
Proof. reflexivity. Qed.

Lemma dumps_dict k x rest :
  dumps_plain (JDict ((k, x) :: rest))
  = text "{" ++ dumps_string k ++ text ": " ++ dumps_plain x ++ more_items rest.
Proof. reflexivity. Qed.

Lemma more_elements_cons y l :
  more_elements (y :: l) = text ", " ++ dumps_plain y ++ more_elements l.
Proof. reflexivity. Qed.

Lemma more_items_cons k y l :
  more_items ((k, y) :: l)
  = text ", " ++ dumps_string k ++ text ": " ++ dumps_plain y ++ more_items l.
Proof. reflexivity. Qed.

(** Induction on a value with the hypothesis for every element and every
    item. *)
Lemma json_ind' (P : json -> Prop) :
  P JNull -> (forall b, P (JBool b)) -> (forall l, P (JNum l)) -> (forall s, P (JStr s)) ->
  (forall l, Forall P l -> P (JList l)) ->
  (forall d, Forall (fun kv => P (snd kv)) d -> P (JDict d)) ->
  forall v, P v.
Proof.
  intros Hnull Hbool Hnum Hstr Hlist Hdict.
  fix IH 1. intros [|b|l|s|l|d]; [done..| |].
  - apply Hlist. induction l as [|x l IHl]; constructor; [apply IH | exact IHl].
  - apply Hdict. induction d as [|[k x] d IHd]; constructor; [apply IH | exact IHd].
Qed.

Lemma delimiter_not_number c : number_char c = true -> delimiter c = false.
Proof. destruct c as [[] [] [] [] [] [] [] []]; by vm_compute. Qed.

Lemma number_start_char c : number_start c = true -> number_char c = true.
Proof. destruct c as [[] [] [] [] [] [] [] []]; by vm_compute. Qed.

(** Two texts without delimiters, each followed by nothing or by a
    delimiter, are equal when the whole texts are. *)
Lemma literal_inj (l1 l2 r1 r2 : list ascii) :
  forallb number_char l1 = true -> forallb number_char l2 = true ->
  terminated r1 = true -> terminated r2 = true ->
  l1 ++ r1 = l2 ++ r2 -> l1 = l2 /\ r1 = r2.
Proof.
  revert l2. induction l1 as [|c1 l1 IH]; intros [|c2 l2] H1 H2 T1 T2 H; simpl in *.
  - done.
  - subst r1. apply andb_prop in H2 as [H2 _]. apply delimiter_not_number in H2.
    simpl in T1. congruence.
  - subst r2. apply andb_prop in H1 as [H1 _]. apply delimiter_not_number in H1.
    simpl in T2. congruence.
  - injection H as -> H. apply andb_prop in H1 as [_ H1]. apply andb_prop in H2 as [_ H2].
    by destruct (IH l2 H1 H2 T1 T2 H) as [-> ->].
Qed.

Lemma number_literal_chars literal :
  number_literal literal = true ->
  exists c cs, list_ascii_of_string literal = c :: cs /\ number_start c = true /\
    forallb number_char (c :: cs) = true.
Proof.
  unfold number_literal. destruct (list_ascii_of_string literal) as [|c cs]; [done|].
  intros [Hc Hcs]%andb_prop. exists c, cs. split; [done|]. split; [done|].
  simpl. by rewrite (number_start_char c Hc).
Qed.

Lemma dumps_opening v :
  well_formed v = true -> exists c rest, dumps_plain v = c :: rest /\ opening v c.
Proof.
  destruct v as [|[]|l|s|[|x xs]|[|[k x] d]]; simpl; intros Hwf; try by eexists _, _.
  apply number_literal_chars in Hwf as (c & cs & Hl & Hc & _).
  exists c, cs. unfold text. by rewrite Hl.
Qed.

Lemma opening_not_delimiter v c : opening v c -> delimiter c = false.
Proof.
  destruct v as [|[]|l|s|?|?]; simpl; try by intros ->.
  intros H. apply delimiter_not_number. by apply number_start_char.
Qed.

Lemma terminated_more_elements l r : terminated (more_elements l ++ r) = true.
Proof. by destruct l. Qed.

Lemma terminated_more_items d r : terminated (more_items d ++ r) = true.
Proof. by destruct d as [|[]]. Qed.

Lemma more_elements_inj l1 :
  Forall decodes l1 -> forall l2 r1 r2,
  forallb well_formed l1 = true -> forallb well_formed l2 = true ->
  more_elements l1 ++ r1 = more_elements l2 ++ r2 -> l1 = l2 /\ r1 = r2.
Proof.
  induction 1 as [|y1 l1 Hy _ IH]; intros [|y2 l2] r1 r2 W1 W2 H;
    try discriminate.
  - by injection H.
  - rewrite !more_elements_cons, <- !app_assoc in H. apply app_inv_head in H.
    simpl in W1, W2.
    apply andb_prop in W1 as [Wy1 W1]. apply andb_prop in W2 as [Wy2 W2].
    apply Hy in H as [-> H]; [|done|done|apply terminated_more_elements..].
    by destruct (IH _ _ _ W1 W2 H) as [-> ->].
Qed.

Lemma more_items_inj d1 :
  Forall (fun kv => decodes (snd kv)) d1 -> forall d2 r1 r2,
  forallb (fun kv => well_formed (snd kv)) d1 = true ->
  forallb (fun kv => well_formed (snd kv)) d2 = true ->
  more_items d1 ++ r1 = more_items d2 ++ r2 -> d1 = d2 /\ r1 = r2.
Proof.
  induction 1 as [|[k1 y1] d1 Hy _ IH]; intros [|[k2 y2] d2] r1 r2 W1 W2 H;
    try discriminate.
  - by injection H.
  - rewrite !more_items_cons, <- !app_assoc in H. apply app_inv_head in H.
    apply dumps_string_inj in H as [-> H]. apply app_inv_head in H.
    simpl in W1, W2, Hy.
    apply andb_prop in W1 as [Wy1 W1]. apply andb_prop in W2 as [Wy2 W2].
    apply Hy in H as [-> H]; [|done|done|apply terminated_more_items..].
    by destruct (IH _ _ _ W1 W2 H) as [-> ->].
Qed.

Lemma opening_agree v1 v2 r1 r2 :
  well_formed v1 = true -> well_formed v2 = true ->
  dumps_plain v1 ++ r1 = dumps_plain v2 ++ r2 ->
  exists c, opening v1 c /\ opening v2 c.
Proof.
  intros W1 W2 H.
  destruct (dumps_opening v1 W1) as (c1 & t1 & E1 & O1).
  destruct (dumps_opening v2 W2) as (c2 & t2 & E2 & O2).
  rewrite E1, E2 in H. injection H as -> _. eauto.
Qed.

Ltac kinds_differ :=
  match goal with
  | H : dumps_plain ?v1 ++ _ = dumps_plain ?v2 ++ _,
    W1 : well_formed ?v1 = true, W2 : well_formed ?v2 = true |- _ =>
      let c := fresh "c" in let O1 := fresh "O" in let O2 := fresh "O" in
      destruct (opening_agree _ _ _ _ W1 W2 H) as (c & O1 & O2);
      simpl in O1, O2; subst; try discriminate;
      try (vm_compute in O1; discriminate); try (vm_compute in O2; discriminate)
  end.

Lemma dumps_plain_decodes v : decodes v.
Proof.
  induction v as [|b1|l1|s1|l1 IH|d1 IH] using json_ind';
    intros v2 r1 r2 W1 W2 T1 T2 H.
  - destruct v2 as [|[]| | | |]; try kinds_differ.
    simpl in H. by injection H.
  - destruct b1, v2 as [|[]| | | |]; try kinds_differ; simpl in H; by injection H.
  - destruct v2 as [|[]|l2| | |]; try kinds_differ.
    simpl in W1, W2. apply number_literal_chars in W1 as (c1 & cs1 & E1 & _ & N1).
    apply number_literal_chars in W2 as (c2 & cs2 & E2 & _ & N2).
    simpl in H. unfold text in H. rewrite E1, E2 in H.
    apply literal_inj in H as [H ->]; [|done..]. split; [|done]. f_equal.
    by rewrite <- (string_of_list_ascii_of_string l1),
      <- (string_of_list_ascii_of_string l2), E1, E2, H.
  - destruct v2 as [|[]| |s2| |]; try kinds_differ.
    simpl in H. by apply dumps_string_inj in H as [-> ->].
  - destruct v2 as [|[]| | |l2|]; try kinds_differ.
    destruct l1 as [|x1 l1], l2 as [|x2 l2].
    + simpl in H. by injection H.
    + rewrite dumps_list in H. simpl in H, W2. injection H as H.
      apply andb_prop in W2 as [W2 _].
      destruct (dumps_opening x2 W2) as (c & t & E & O). rewrite E in H.
      injection H as <- _. by apply opening_not_delimiter in O.
    + rewrite dumps_list in H. simpl in H, W1. injection H as H.
      apply andb_prop in W1 as [W1 _].
      destruct (dumps_opening x1 W1) as (c & t & E & O). rewrite E in H.
      injection H as -> _. by apply opening_not_delimiter in O.
    + rewrite !dumps_list, <- !app_assoc in H. apply app_inv_head in H.
      simpl in W1, W2.
      apply andb_prop in W1 as [Wx1 W1]. apply andb_prop in W2 as [Wx2 W2].
      apply Forall_cons in IH as [Hx IH].
      apply Hx in H as [-> H]; [|done|done|apply terminated_more_elements..].
      by destruct (more_elements_inj _ IH _ _ _ W1 W2 H) as [-> ->].
  - destruct v2 as [|[]| | | |d2]; try kinds_differ.
    destruct d1 as [|[k1 x1] d1], d2 as [|[k2 x2] d2].
    + simpl in H. by injection H.
    + rewrite dumps_dict in H. by injection H.
    + rewrite dumps_dict in H. by injection H.
    + rewrite !dumps_dict, <- !app_assoc in H. apply app_inv_head in H.
      apply dumps_string_inj in H as [-> H]. apply app_inv_head in H.
      simpl in W1, W2.
      apply andb_prop in W1 as [Wx1 W1]. apply andb_prop in W2 as [Wx2 W2].
      apply Forall_cons in IH as [Hx IH]. simpl in Hx.
      apply Hx in H as [-> H]; [|done|done|apply terminated_more_items..].
      by destruct (more_items_inj _ IH _ _ _ W1 W2 H) as [-> ->].
Qed.

(** Two well-formed values with the same text are the same value. *)
Lemma dumps_plain_inj v1 v2 :
  well_formed v1 = true -> well_formed v2 = true ->
  dumps_plain v1 = dumps_plain v2 -> v1 = v2.
Proof.
  intros W1 W2 H.
  destruct (dumps_plain_decodes v1 v2 [] [] W1 W2 eq_refl eq_refl) as [-> _];
    [by rewrite !app_nil_r | done].
Qed.

(** *** Sorted keys *)

Lemma forallb_insert_item p kv d :
  forallb p (insert_item kv d) = p kv && forallb p d.
Proof.
  induction d as [|kv' d IH]; simpl; [done|].
  destruct (String.leb _ _); simpl; [done|].
  rewrite IH. by destruct (p kv), (p kv').
Qed.

Lemma forallb_sort_items p d : forallb p (sort_items d) = forallb p d.
Proof.
  induction d as [|kv d IH]; simpl; [done|].
  by rewrite forallb_insert_item, IH.
Qed.

Lemma canonical_well_formed v :
  well_formed v = true -> well_formed (canonical v) = true.
Proof.
  induction v as [| | | |l IH|d IH] using json_ind'; simpl; try done.
  - induction IH as [|x l Hx _ IHl]; simpl; [done|].
    intros [Wx Wl]%andb_prop. by rewrite Hx, IHl.
  - rewrite forallb_sort_items.
    induction IH as [|[k x] d Hx _ IHd]; simpl; [done|].
    intros [Wx Wd]%andb_prop. simpl in Hx. by rewrite Hx, IHd.
Qed.

(** Under [sort_keys] two well-formed values have the same text only if
    they are the same up to the order of the items of their dicts. *)
Lemma dumps_sorted_inj v1 v2 :
  well_formed v1 = true -> well_formed v2 = true ->
  dumps true v1 = dumps true v2 -> canonical v1 = canonical v2.
Proof.
  intros W1 W2 H. apply dumps_plain_inj; [by apply canonical_well_formed..|done].
Qed.

(** *** Integer literals *)

Lemma hex_digit_digit n : (n < 10)%nat -> digit (hex_digit n) = true.
Proof. intros H. do 10 (destruct n as [|n]; [done|]). lia. Qed.

Lemma digits_of_digits fuel n acc :
  forallb digit acc = true -> acc <> [] \/ fuel <> O ->
  forallb digit (digits_of fuel n acc) = true /\ digits_of fuel n acc <> [].
Proof.
  revert n acc. induction fuel as [|fuel IH]; intros n acc Hacc Hne; simpl.
  - split; [done|]. by destruct Hne.
  - assert (Hd : digit (hex_digit (N.to_nat (n mod 10))) = true).
    { apply hex_digit_digit. pose proof (N.mod_lt n 10). lia. }
    destruct (n <? 10)%N.
    + simpl. by rewrite Hd.
    + apply IH; [simpl; by rewrite Hd | by left].
Qed.

Lemma digit_number c : digit c = true -> number_start c = true /\ number_char c = true.
Proof. unfold number_start, number_char. by intros ->. Qed.

Lemma forallb_digit_number cs :
  forallb digit cs = true -> forallb number_char cs = true.
Proof.
  induction cs as [|c cs IH]; simpl; [done|].
  intros [Hc Hcs]%andb_prop. by rewrite (proj2 (digit_number c Hc)), IH.
Qed.

Lemma int_literal_chars z :
  exists c cs, list_ascii_of_string (int_literal z) = c :: cs /\
    number_start c = true /\ forallb digit cs = true.
Proof.
  unfold int_literal.
  match goal with |- context [digits_of ?f ?n []] =>
    destruct (digits_of_digits f n [] eq_refl) as [Hds Hne]; [by right|];
    destruct (digits_of f n []) as [|d ds] eqn:E; [done|]
  end.
  simpl in Hds. apply andb_prop in Hds as [Hd Hds].
  destruct (z <? 0)%Z; simpl; rewrite list_ascii_of_string_of_list_ascii.
  - exists "-"%char, (d :: ds). simpl. by rewrite Hd, Hds.
  - exists d, ds. by rewrite (proj1 (digit_number d Hd)).
Qed.

Lemma int_literal_number z : number_literal (int_literal z) = true.
Proof.
  destruct (int_literal_chars z) as (c & cs & E & Hc & Hcs).
  unfold number_literal. rewrite E, Hc. by apply forallb_digit_number.
Qed.

End JsonFacts.

(** ** The decision ledger *)

Section DictFacts.
Import Json.

Lemma dict_get_set key value items :
  dict_get key (dict_set key value items) = Some value.
Proof.
  induction items as [|[k v] items IH]; simpl.
  - by rewrite String.eqb_refl.
  - destruct (String.eqb k key) eqn:E; simpl; rewrite E; [done | exact IH].
Qed.

Lemma dict_without_set_fresh key value items :
  dict_get key items = None ->
  dict_without key (dict_set key value items) = items.
Proof.
  unfold dict_without. induction items as [|[k v] items IH]; simpl.
  - intros _. rewrite filter_cons_False; [done|]. simpl. by intros [].
  - destruct (String.eqb_spec k key) as [->|Hne]; [done|]. intros Hget.
    rewrite filter_cons_True by done. by rewrite IH.
Qed.

Lemma well_formed_dict_without key items :
  well_formed (JDict items) = true ->
  well_formed (JDict (dict_without key items)) = true.
Proof.
  unfold dict_without. simpl. induction items as [|kv items IH]; simpl; [done|].
  intros [Hkv Hitems]%andb_prop.
  destruct (decide (fst kv ≠ key)).
  - rewrite filter_cons_True by done. simpl. by rewrite Hkv, IH.
  - rewrite filter_cons_False by done. by apply IH.
Qed.

Lemma well_formed_dict_set key value items :
  well_formed (JDict items) = true -> well_formed value = true ->
  well_formed (JDict (dict_set key value items)) = true.
Proof.
  simpl. intros Hitems Hvalue.
  induction items as [|[k v] items IH]; simpl in *; [by rewrite Hvalue|].
  apply andb_prop in Hitems as [Hv Hitems].
  destruct (String.eqb k key); simpl; [by rewrite Hvalue | by rewrite Hv, IH].
Qed.

Lemma dict_get_without key key' items :
  key <> key' -> dict_get key (dict_without key' items) = dict_get key items.
Proof.
  intros Hne. unfold dict_without.
  induction items as [|[k v] items IH]; simpl; [done|].
  destruct (decide (k = key')) as [->|Hk].
  - rewrite filter_cons_False by (simpl; tauto).
    destruct (String.eqb_spec key' key); [congruence | exact IH].
  - rewrite filter_cons_True by done. simpl. by rewrite IH.
Qed.

Lemma leb_refl k : String.leb k k = true.
Proof.
  unfold String.leb. induction k as [|c k IH]; simpl; [done|].
  unfold Ascii.compare. by rewrite N.compare_refl.
Qed.

Lemma leb_false_ne k k' : String.leb k k' = false -> k' <> k.
Proof. intros H ->. by rewrite leb_refl in H. Qed.

(** Sorting is stable: it does not change what a key is bound to. *)
Lemma dict_get_insert_item key kv items :
  dict_get key (insert_item kv items)
  = if String.eqb (fst kv) key then Some (snd kv) else dict_get key items.
Proof.
  destruct kv as [k v]. induction items as [|[k' v'] items IH]; simpl; [done|].
  destruct (String.leb k k') eqn:Hle; simpl; [done|].
  rewrite IH. apply leb_false_ne in Hle. simpl.
  destruct (String.eqb_spec k key) as [->|]; [|reflexivity].
  destruct (String.eqb_spec k' key); [congruence|reflexivity].
Qed.

Lemma dict_get_sort_items key items :
  dict_get key (sort_items items) = dict_get key items.
Proof.
  induction items as [|[k v] items IH]; simpl; [done|].
  by rewrite dict_get_insert_item, IH.
Qed.

Lemma dict_get_canonical key items :
  match canonical (JDict items) with
  | JDict items' => dict_get key items'
  | _ => None
  end = canonical <$> dict_get key items.
Proof.
  simpl. rewrite dict_get_sort_items.
  induction items as [|[k v] items IH]; simpl; [done|].
  by destruct (String.eqb k key).
Qed.

(** Two dicts with the same canonical form bind every key to values with
    the same canonical form. *)
Lemma canonical_dict_get key items1 items2 :
  canonical (JDict items1) = canonical (JDict items2) ->
  canonical <$> dict_get key items1 = canonical <$> dict_get key items2.
Proof.
  intros H. rewrite <- !dict_get_canonical. by rewrite H.
Qed.

End DictFacts.

Section LedgerFacts.
Import Json Audit.

Variable float_repr : Q -> string.
Variable isoformat : Z -> string.
Variable strftime : Z -> string.

(** [repr] prints a float as a number literal. *)
Hypothesis float_repr_literal : forall q, number_literal (float_repr q) = true.

Lemma well_formed_JInt z : well_formed (JInt z) = true.
Proof. apply int_literal_number. Qed.

Lemma well_formed_JFloat q : well_formed (JFloat float_repr q) = true.
Proof. apply float_repr_literal. Qed.

Lemma well_formed_float_or_zero v : well_formed (float_or_zero float_repr v) = true.
Proof. destruct v; [apply well_formed_JFloat | apply well_formed_JInt]. Qed.

Lemma well_formed_percent x total : well_formed (percent float_repr x total) = true.
Proof.
  unfold percent. destruct (Qlt_le_dec 0 total);
    [apply well_formed_JFloat | apply well_formed_JInt].
Qed.

Ltac well_formed_fields :=
  cbn [well_formed forallb snd JInt JFloat];
  rewrite ?int_literal_number, ?float_repr_literal, ?well_formed_float_or_zero,
    ?well_formed_percent; cbn [andb]; try reflexivity.

Lemma well_formed_job_summary j : well_formed (job_summary float_repr isoformat j) = true.
Proof. unfold job_summary. well_formed_fields. Qed.

Lemma well_formed_totals_json t : well_formed (totals_json float_repr t) = true.
Proof. unfold totals_json. well_formed_fields. Qed.

Lemma well_formed_schedule_summary s clock x clock' :
  schedule_summary float_repr isoformat s clock = Ok (x, clock') ->
  well_formed x = true.
Proof.
  unfold schedule_summary. destruct (now clock) as [? c1]. destruct (now c1) as [? c2].
  destruct (sj_cost s); [simpl|done]. destruct (sj_carbon s); [simpl|done].
  intros [= <- _]. well_formed_fields.
Qed.

Lemma well_formed_schedule_summaries schedule clock xs clock' :
  schedule_summaries float_repr isoformat schedule clock = Ok (xs, clock') ->
  forallb well_formed xs = true.
Proof.
  revert clock xs clock'. induction schedule as [|s schedule IH]; intros clock xs clock'; simpl.
  - by intros [= <- _].
  - destruct (schedule_summary _ _ s clock) as [[x c1]|] eqn:Hx; [simpl|done].
    destruct (schedule_summaries _ _ schedule c1) as [[xs' c2]|] eqn:Hxs; [simpl|done].
    intros [= <- _]. simpl.
    by rewrite (well_formed_schedule_summary _ _ _ _ Hx), (IH _ _ _ Hxs).
Qed.

Lemma forallb_map_true {A B} (p : B -> bool) (f : A -> B) (l : list A) :
  (forall a, p (f a) = true) -> forallb p (map f l) = true.
Proof. intros H. induction l; simpl; [done|]. by rewrite H. Qed.

(** The entry that [log_decision] builds is well formed and has no key
    ['hash'] yet. *)
Lemma decision_entry_fields self jobs schedule grid_state clock entry clock' :
  decision_entry float_repr isoformat strftime self jobs schedule grid_state clock
    = Ok (entry, clock') ->
  well_formed (JDict entry) = true /\ dict_get "hash" entry = None.
Proof.
  unfold decision_entry.
  destruct (now clock) as [t1 c1]. destruct (now c1) as [t2 c2].
  destruct (schedule_summaries _ _ schedule c2) as [[xs c3]|] eqn:Hxs; [simpl|done].
  destruct (_calculate_regional_distribution schedule []) as [dist|]; [simpl|done].
  intros [= <- _]. split; [|reflexivity].
  well_formed_fields.
  rewrite (forallb_map_true _ _ jobs well_formed_job_summary).
  rewrite (well_formed_schedule_summaries _ _ _ _ Hxs). simpl.
  rewrite (forallb_map_true (fun kv => well_formed (snd kv))
             (fun rt => (fst rt, totals_json float_repr (snd rt))) dist
             (fun rt => well_formed_totals_json (snd rt))).
  reflexivity.
Qed.

End LedgerFacts.

(** The sample printer prints number literals. *)
Lemma forallb_digit_drop_zeros ds :
  forallb digit ds = true -> forallb digit (drop_zeros ds) = true.
Proof.
  induction ds as [|c ds IH]; simpl; [done|].
  intros H. destruct (Ascii.eqb c "0"); [|done].
  apply andb_prop in H as [_ H]. by apply IH.
Qed.

Lemma forallb_digit_rev ds : forallb digit (rev ds) = forallb digit ds.
Proof.
  induction ds as [|c ds IH]; simpl; [done|].
  rewrite forallb_app, IH. simpl. by destruct (digit c), (forallb digit ds).
Qed.

Lemma decimal_repr_literal q : number_literal (decimal_repr q) = true.
Proof.
  unfold decimal_repr, number_literal.
  rewrite list_ascii_of_string_of_list_ascii.
  set (n := Qfloor (Qabs q * 1000000)).
  destruct (int_literal_chars (n / 1000000)) as (c & cs & -> & Hc & Hcs).
  destruct (int_literal_chars (1000000 + n mod 1000000)) as (c' & cs' & -> & _ & Hcs').
  simpl drop.
  assert (Hplaces : forall ds, forallb digit ds = true ->
            forallb number_char (cs ++ "."%char :: ds) = true).
  { intros ds Hds. rewrite forallb_app. simpl.
    by rewrite !forallb_digit_number. }
  assert (Hds : forallb digit
            match rev (drop_zeros (rev cs')) with [] => ["0"%char] | ds => ds end = true).
  { pose proof (forallb_digit_drop_zeros (rev cs')) as H.
    rewrite forallb_digit_rev in H. specialize (H Hcs').
    rewrite <- forallb_digit_rev in H.
    by destruct (rev (drop_zeros (rev cs'))). }
  destruct (Qlt_le_dec q 0); simpl.
  - rewrite (number_start_char c Hc). simpl. by apply Hplaces.
  - rewrite Hc. simpl. by apply Hplaces.
Qed.

(** C1: the record that [log_decision] writes carries, under ['hash'],
    the SHA-256 of the serialization with sorted keys of its other
    fields: a reader who drops the hash field, serializes with sorted
    keys and hashes gets the stored hash back.  A record that differs in
    any other field (up to the order of its keys) has another
    serialization, so its recomputed hash is the stored one only if
    SHA-256 collides on the two serializations. *)
Theorem ledger_record_self_certifying
    (float_repr : Q -> string) (isoformat strftime : Z -> string)
    (self : Audit.AuditLogger) (jobs : list ComputeJob) (schedule : list ScheduledJob)
    (grid_state : GridForecast) (clock : Clock) (record : Json.json) :
  (forall q, number_literal (float_repr q) = true) ->
  let logged := Audit.log_decision float_repr isoformat strftime self jobs schedule
                  grid_state clock in
  Audit.written logged = Some record ->
  exists items h,
    record = Json.JDict items /\
    Json.dict_get "hash" items = Some (Json.JStr h) /\
    h = Sha256.sha256_hex (Json.dumps true (Json.JDict (Json.dict_without "hash" items))) /\
    recomputed_hash items = h /\
    verify record = true /\
    Audit.decision_log (Audit.logger logged)
      = Audit.decision_log self ++ [Json.dumps false record ++ [ascii_of_nat 10]] /\
    (forall items',
       well_formed (Json.JDict items') = true ->
       Json.canonical (Json.JDict (Json.dict_without "hash" items'))
         <> Json.canonical (Json.JDict (Json.dict_without "hash" items)) ->
       Json.dumps true (Json.JDict (Json.dict_without "hash" items'))
         <> Json.dumps true (Json.JDict (Json.dict_without "hash" items)) /\
       (recomputed_hash items' = h ->
        sha256_collision
          (Json.dumps true (Json.JDict (Json.dict_without "hash" items')))
          (Json.dumps true (Json.JDict (Json.dict_without "hash" items))))) /\
    (forall key value',
       key <> "hash"%string -> well_formed value' = true ->
       Json.canonical <$> Json.dict_get key items <> Some (Json.canonical value') ->
       let items' := Json.dict_set key value' items in
       Json.dumps true (Json.JDict (Json.dict_without "hash" items'))
         <> Json.dumps true (Json.JDict (Json.dict_without "hash" items)) /\
       (recomputed_hash items' = h ->
        sha256_collision
          (Json.dumps true (Json.JDict (Json.dict_without "hash" items')))
          (Json.dumps true (Json.JDict (Json.dict_without "hash" items))))).
Proof.
  intros Hrepr logged Hwritten. subst logged. unfold Audit.log_decision in *.
  destruct (Audit.decision_entry _ _ _ self jobs schedule grid_state clock)
    as [[entry clock']|e] eqn:Hentry; [|done].
  simpl in Hwritten. injection Hwritten as <-.
  destruct (decision_entry_fields _ _ _ Hrepr _ _ _ _ _ _ _ Hentry) as [Hwf Hfresh].
  set (h := Audit._calculate_hash (Json.JDict entry)).
  exists (Json.dict_set "hash" (Json.JStr h) entry), h.
  assert (Hrest : Json.dict_without "hash" (Json.dict_set "hash" (Json.JStr h) entry)
                  = entry) by by apply dict_without_set_fresh.
  assert (Hrecomputed : recomputed_hash (Json.dict_set "hash" (Json.JStr h) entry) = h).
  { unfold recomputed_hash. by rewrite Hrest. }
  split; [done|]. split; [apply dict_get_set|]. split; [by rewrite Hrest|].
  split; [done|]. split.
  { unfold verify. rewrite dict_get_set, Hrecomputed. apply String.eqb_refl. }
  split; [done|].
  assert (Htamper : forall items',
    well_formed (Json.JDict items') = true ->
    Json.canonical (Json.JDict (Json.dict_without "hash" items'))
      <> Json.canonical (Json.JDict entry) ->
    Json.dumps true (Json.JDict (Json.dict_without "hash" items'))
      <> Json.dumps true (Json.JDict entry) /\
    (recomputed_hash items' = h ->
     sha256_collision (Json.dumps true (Json.JDict (Json.dict_without "hash" items')))
       (Json.dumps true (Json.JDict entry)))).
  { intros items' Hwf' Hdiffer.
    assert (Hne : Json.dumps true (Json.JDict (Json.dict_without "hash" items'))
                  <> Json.dumps true (Json.JDict entry)).
    { intros Heq. apply Hdiffer.
      apply dumps_sorted_inj; [by apply well_formed_dict_without|done|done]. }
    split; [done|]. intros Hsame. split; [done|]. exact Hsame. }
  rewrite Hrest. split; [exact Htamper|].
  intros key value' Hkey Hvalue Hchange. apply Htamper.
  - apply well_formed_dict_set; [|done].
    apply well_formed_dict_set; [done|reflexivity].
  - intros Hcanon. apply Hchange.
    apply (canonical_dict_get key) in Hcanon.
    rewrite dict_get_without in Hcanon by done.
    rewrite dict_get_set in Hcanon.
    rewrite <- (dict_get_without key "hash") by done.
    rewrite Hrest. by rewrite <- Hcanon.
Qed.

Lemma ledger_record_self_certifying_witness :
  exists items h,
    Audit.written ledger_logged = Some (Json.JDict items) /\
    Json.dict_get "hash" items = Some (Json.JStr h) /\
    recomputed_hash items = h /\
    h = "e2b751ad038dbc0867ed36e790d0b479107e8fe2d4cab4be23a17189dc04025e"%string /\
    recomputed_hash tampered_record
      = "0c46207323c8a02f460e619f51141ab7d9f34fa15c4a02511490fc67aa6cff07"%string.
Proof.
  destruct (ledger_record_self_certifying decimal_repr seconds_stamp seconds_stamp
              Audit.init [ledger_job] ledger_schedule ledger_grid_state sample_clock
              (default Json.JNull (Audit.written ledger_logged))
              decimal_repr_literal)
    as (items & h & Hrecord & Hget & _ & Hhash & _).
  { by vm_compute. }
  exists items, h. split; [by rewrite <- Hrecord; vm_compute|].
  split; [exact Hget|]. split; [exact Hhash|].
  split; [|by vm_compute].
  assert (Hitems : Json.dict_get "hash" items
                   = Json.dict_get "hash"
                       match Audit.written ledger_logged with
                       | Some (Json.JDict i) => i
                       | _ => []
                       end).
  { revert Hrecord. vm_compute. by intros [= <-]. }
  rewrite Hget in Hitems. vm_compute in Hitems. by injection Hitems.
Defined.

(** ** Checks of the model against known values *)

(** The digests of the standard test messages. *)
Example sha256_of_abc :
  Sha256.sha256_hex (list_ascii_of_string "abc")
  = "ba7816bf8f01cfea414140de5dae2223b00361a396177a9cb410ff61f20015ad"%string.
Proof. by vm_compute. Qed.

Example sha256_of_nothing :
  Sha256.sha256_hex []
  = "e3b0c44298fc1c149afbf4c8996fb92427ae41e4649b934ca495991b7852b855"%string.
Proof. by vm_compute. Qed.

(** A message longer than one block. *)
Example sha256_of_two_blocks :
  Sha256.sha256_hex (repeat "a"%char 100)
  = "2816597888e4a0d3a36b82b83316ab32680eb8f00f8cd3b904d681246d285a0e"%string.
Proof. by vm_compute. Qed.

(** A schedule of three jobs against a counterparty that refuses the
    first and drops the connection on the second: the third is
    confirmed. *)
Example execute_schedule_sample :
  let '(r, s) := Beckn.execute_schedule unit moody_post sample_uuid4
                   sample_schedule fresh_state in
  r = Ok () /\
  Beckn.stdout unit s
  = [Beckn.JobStarted "job_a"; Beckn.SearchFailed "unavailable";
     Beckn.JobStarted "job_b"; Beckn.JobFailed "job_b" (NameError "asyncio");
     Beckn.JobStarted "job_c"; Beckn.SearchComplete; Beckn.SelectComplete;
     Beckn.InitComplete; Beckn.Confirmed "order_e3f2c1de-000"] /\
  (Beckn.tx_job <$> Beckn.active_transactions unit s !! "order_e3f2c1de-000"%string)
  = Some (sj_job (sample_entry "job_c" "south")).
Proof. by vm_compute. Qed.

(** The record of the ledger's self-test passes the reader's check, and
    the record with its metrics replaced does not. *)
Example verify_sample :
  (verify <$> Audit.written ledger_logged) = Some true /\
  verify (Json.JDict tampered_record) = false.
Proof. by vm_compute. Qed.

(** * Further properties *)

(** ** The bid valuator and the bid book *)

Section BidBookFacts.
Import P415.

Lemma Qle_bool_false x y : Qle_bool x y = false -> y < x.
Proof.
  intros H. destruct (Qlt_le_dec y x) as [|Hn]; [done|].
  apply Qle_bool_iff in Hn. congruence.
Qed.

Lemma create_bid_some self job ev stamp bid self' :
  create_bid self job ev stamp = Ok (Some bid, self') ->
  let value := calculate_flexibility_value self job 0 ev in
  0 < value /\ ~ bid_divisor job ev == 0 /\
  bid = {| bid_stamp := stamp; bid_job_id := job_id job;
           bid_product := default ""%string (ev_product ev);
           bid_power_mw := power_mw job; bid_duration_minutes := duration_of ev;
           bid_price := value / bid_divisor job ev; bid_expected_revenue := value |} /\
  self' = {| revenue_share := revenue_share self; active_bids := active_bids self ++ [bid] |}.
Proof.
  intros H value. unfold create_bid in H. fold value in H.
  destruct (Qle_bool value 0) eqn:Hle; [done|].
  apply Qle_bool_false in Hle.
  destruct (ev_product ev) as [p|]; [simpl in H|done].
  unfold py_div in H. destruct (Qeq_bool (bid_divisor job ev) 0) eqn:Hz; [done|].
  simpl in H. injection H as <- <-.
  split; [done|]. split; [|done].
  intros Hq. apply Qeq_bool_iff in Hq. congruence.
Qed.


Lemma fold_values_acc self job events acc :
  fold_left (fun total event => total + calculate_flexibility_value self job 0 event)
    events acc ==
  acc + fold_left (fun total event => total + calculate_flexibility_value self job 0 event)
          events 0.
Proof.
  revert acc. induction events as [|ev events IH]; intros acc; simpl; [ring|].
  rewrite IH. rewrite (IH (0 + _)). ring.
Qed.

Lemma fold_jobs_acc self jobs events acc :
  fold_left (fun total job =>
    fold_left (fun total event => total + calculate_flexibility_value self job 0 event)
      events total) jobs acc ==
  acc + get_total_p415_potential self jobs events.
Proof.
  unfold get_total_p415_potential. revert acc.
  induction jobs as [|job jobs IH]; intros acc; simpl; [ring|].
  rewrite IH. rewrite (IH (fold_left _ events 0)).
  rewrite fold_values_acc. ring.
Qed.

Lemma value_nonneg self job ev :
  0 <= revenue_share self <= 1 -> 0 <= power_mw job ->
  0 <= default 0 (ev_clearing_price ev) -> 0 <= duration_of ev ->
  0 <= calculate_flexibility_value self job 0 ev.
Proof.
  intros Hs Hj Hp Hd. unfold calculate_flexibility_value.
  destruct (negb _); [lra|].
  destruct (ev_product ev ≫= revenue_multiplier job) as [m|] eqn:Hm; [|lra].
  assert (0 <= m).
  { destruct (ev_product ev) as [p|]; [simpl in Hm|done].
    revert Hm. unfold revenue_multiplier.
    repeat match goal with |- context [if ?b then _ else _] => destruct b end;
      intros Hm'; try discriminate; injection Hm' as <-; lra. }
  cbv zeta.
  set (c := default 0 (ev_clearing_price ev)) in *.
  set (d := duration_of ev) in *.
  assert (Hr : 0 <= c * power_mw job * (d / 60) * m).
  { repeat apply Qmult_le_0_compat; try done; lra. }
  assert (0 <= c * power_mw job * (d / 60) * m * (1 - revenue_share self)).
  { apply Qmult_le_0_compat; [done|lra]. }
  lra.
Qed.

Lemma potential_app self jobs1 jobs2 events :
  get_total_p415_potential self (jobs1 ++ jobs2) events
    == get_total_p415_potential self jobs1 events
       + get_total_p415_potential self jobs2 events.
Proof.
  unfold get_total_p415_potential at 1. rewrite fold_left_app.
  rewrite fold_jobs_acc. reflexivity.
Qed.

End BidBookFacts.



(** The bid book only grows, and only by bids worth placing: a call of
    [create_bid] leaves the bids already in [active_bids] in place and
    appends at most one, the bid it returns; if every bid of the book had
    a positive expected revenue before the call, every bid has one after
    it.  The platform share is not touched. *)
Theorem create_bid_extends_book self job ev stamp r self' :
  Forall (fun b => 0 < P415.bid_expected_revenue b) (P415.active_bids self) ->
  P415.create_bid self job ev stamp = Ok (r, self') ->
  P415.revenue_share self' = P415.revenue_share self /\
  P415.active_bids self' = P415.active_bids self ++ option_list r /\
  Forall (fun b => 0 < P415.bid_expected_revenue b) (P415.active_bids self').
Proof.
  intros Hall H. destruct r as [bid|].
  - destruct (create_bid_some _ _ _ _ _ _ H) as (Hpos & _ & Hb & ->). simpl.
    split; [done|]. split; [done|].
    apply Forall_app. split; [done|]. constructor; [|done]. by rewrite Hb.
  - assert (self' = self) as ->.
    { revert H. unfold P415.create_bid. destruct (Qle_bool _ _); [congruence|].
      destruct (ev_product ev); [simpl|done]. by destruct (py_div _ _). }
    simpl. by rewrite app_nil_r.
Qed.

Lemma create_bid_extends_book_witness :
  exists r self',
    P415.create_bid (P415.init None) (sample_job true true) (sample_event "DC" 150 30) 7
      = Ok (r, self') /\
    length (P415.active_bids self') = 1%nat /\
    Forall (fun b => 0 < P415.bid_expected_revenue b) (P415.active_bids self').
Proof.
  eexists _, _. split; [reflexivity|].
  destruct (create_bid_extends_book (P415.init None) (sample_job true true)
              (sample_event "DC" 150 30) 7 _ _ (Forall_nil_2 _) eq_refl)
    as (_ & Hbook & Hall).
  split; [by rewrite Hbook | exact Hall].
Defined.


(** With a platform share between 0 and 1, jobs that draw power and
    events with a price and a duration that are not negative, the
    potential is not negative.  (The sum takes every job against every
    event, the pairs [create_bid] would decline included; only a negative
    price, power or duration can pull it below zero.) *)
Theorem total_p415_potential_nonneg self jobs events :
  0 <= P415.revenue_share self <= 1 ->
  Forall (fun j => 0 <= power_mw j) jobs ->
  Forall (fun ev => 0 <= default 0 (ev_clearing_price ev) /\ 0 <= P415.duration_of ev)
    events ->
  0 <= P415.get_total_p415_potential self jobs events.
Proof.
  intros Hs Hjobs Hevs.
  induction Hjobs as [|j jobs Hj Hjobs IH]; [by vm_compute|].
  change (j :: jobs) with ([j] ++ jobs).
  rewrite potential_app.
  assert (0 <= P415.get_total_p415_potential self [j] events); [|lra].
  unfold P415.get_total_p415_potential. simpl.
  clear IH Hjobs.
  assert (Hacc : forall acc, 0 <= acc ->
            0 <= fold_left (fun total event =>
                   total + P415.calculate_flexibility_value self j 0 event) events acc).
  { induction Hevs as [|ev events [Hp Hd] Hevs IH]; intros acc Hacc; simpl; [done|].
    apply IH. pose proof (value_nonneg self j ev Hs Hj Hp Hd). lra. }
  apply Hacc. lra.
Qed.

Lemma total_p415_potential_nonneg_witness :
  0 <= P415.get_total_p415_potential (P415.init None)
         [sample_job true true; sample_job false false]
         [sample_event "DC" 150 30; sample_event "DR" 40 120].
Proof.
  apply total_p415_potential_nonneg.
  - vm_compute. split; congruence.
  - repeat constructor; vm_compute; congruence.
  - repeat constructor; vm_compute; congruence.
Defined.

(** ** The orchestrator: the schedule summary and the fall-back *)

Section SummaryFacts.
Import Orchestrator.

Lemma mapM_getitem {A} key (f : ScheduledJob -> option A) schedule :
  match mapM (fun s => getitem key (f s)) schedule with
  | Ok xs => map f schedule = map Some xs
  | Raise e => e = KeyError key /\ Exists (fun s => f s = None) schedule
  end.
Proof.
  induction schedule as [|s schedule IH]; simpl; [done|].
  destruct (f s) as [x|] eqn:Hx; simpl.
  - destruct (mapM _ schedule) as [xs|e]; simpl.
    + by rewrite IH.
    + destruct IH as [-> IH]. split; [done|]. by right.
  - split; [done|]. by left.
Qed.

Lemma py_sum_ext xs ys : xs = ys -> py_sum xs = py_sum ys.
Proof. by intros ->. Qed.

Lemma baseline_with_figures {A} (f g : ScheduledJob -> option A) (dflt : A) schedule xs :
  map f schedule = map Some xs ->
  zip_with (fun s c => default c (g s)) schedule xs
  = map (fun s => default (default dflt (f s)) (g s)) schedule.
Proof.
  revert xs. induction schedule as [|s schedule IH]; intros [|x xs]; simpl; try done.
  intros [= Hs Hrest]. rewrite Hs. simpl. by rewrite (IH xs).
Qed.

(** The summary raises exactly when an entry lacks a figure or a baseline
    total is zero. *)
Lemma summary_ok_iff schedule :
  _print_schedule_summary schedule = Ok () <->
  Forall has_figures schedule /\
  ~ Audit.t_baseline_cost (Audit.totals schedule) == 0 /\
  ~ Audit.t_baseline_carbon (Audit.totals schedule) == 0.
Proof.
  unfold _print_schedule_summary.
  pose proof (mapM_getitem "cost" sj_cost schedule) as Hcost.
  destruct (mapM (fun s => getitem "cost" (sj_cost s)) schedule) as [costs|e]; simpl.
  2:{ split; [done|]. intros (Hall & _). destruct Hcost as [_ Hex].
      apply Exists_exists in Hex as (s & Hs & Hnone).
      rewrite Forall_forall in Hall. destruct (Hall s Hs) as [[? ?] _]. congruence. }
  pose proof (mapM_getitem "carbon" sj_carbon schedule) as Hcarbon.
  destruct (mapM (fun s => getitem "carbon" (sj_carbon s)) schedule) as [carbons|e]; simpl.
  2:{ split; [done|]. intros (Hall & _). destruct Hcarbon as [_ Hex].
      apply Exists_exists in Hex as (s & Hs & Hnone).
      rewrite Forall_forall in Hall. destruct (Hall s Hs) as [_ [? ?]]. congruence. }
  rewrite (baseline_with_figures sj_cost sj_baseline_cost 0 schedule costs Hcost).
  rewrite (baseline_with_figures sj_carbon sj_baseline_carbon 0 schedule carbons Hcarbon).
  assert (Hall : Forall has_figures schedule).
  { apply Forall_forall. intros s Hs.
    apply list_elem_of_In in Hs.
    split.
    - apply (in_map sj_cost) in Hs. rewrite Hcost in Hs.
      apply in_map_iff in Hs as (x & <- & _). eauto.
    - apply (in_map sj_carbon) in Hs. rewrite Hcarbon in Hs.
      apply in_map_iff in Hs as (x & <- & _). eauto. }
  unfold Audit.totals. simpl. unfold py_div.
  set (bcost := py_sum (map (fun s => default (default 0 (sj_cost s)) (sj_baseline_cost s))
                          schedule)).
  set (bcarbon := py_sum (map (fun s => default (default 0 (sj_carbon s))
                                          (sj_baseline_carbon s)) schedule)).
  destruct (Qeq_bool bcost 0) eqn:Hb1; simpl.
  { apply Qeq_bool_iff in Hb1. split; [done|]. tauto. }
  destruct (Qeq_bool bcarbon 0) eqn:Hb2; simpl.
  { apply Qeq_bool_iff in Hb2. split; [done|]. tauto. }
  split; [|done]. intros _. split; [done|].
  split; intros Hq; apply Qeq_bool_iff in Hq; congruence.
Qed.

Lemma fallback_schedule_ticks jobs fc clock schedule clock' :
  _fallback_schedule jobs fc clock = Ok (schedule, clock') ->
  ticks clock' = (ticks clock + 2 * length jobs)%nat.
Proof.
  revert clock schedule. induction jobs as [|j jobs IH]; intros clock schedule; simpl.
  - intros [= _ <-]. lia.
  - unfold fallback_entry. destruct (fc_price fc); [simpl|done].
    destruct (fc_carbon fc); [simpl|done]. unfold now. simpl.
    destruct (_fallback_schedule jobs fc _) as [[s c]|] eqn:Hs; [simpl|done].
    intros [= _ <-]. apply IH in Hs. simpl in Hs. lia.
Qed.

End SummaryFacts.

(** [optimize] hands out the scheduler's schedule only if the summary it
    prints goes through: every entry has its cost and its carbon, and the
    two baseline totals are not zero.  Otherwise the schedule is dropped
    and the FIFO fall-back is returned in its place; so it is when the
    scheduler places no job at all, the percentages of the summary
    dividing zero by zero. *)
Theorem optimize_keeps_or_replaces_schedule (Capacity : Type)
    (forecaster : ComputeJob -> GridForecast -> Z -> result (list Window))
    (capacity : Capacity)
    (scheduler : list ComputeJob -> GridForecast -> Capacity -> result (list ScheduledJob))
    (horizon : Z) (jobs : list ComputeJob) (fc : GridForecast) (clock : Clock)
    (schedule : list ScheduledJob) :
  jobs <> [] ->
  scheduler (map (Orchestrator.enrich forecaster horizon fc) jobs) fc capacity = Ok schedule ->
  let optimized :=
    Orchestrator.optimize Capacity forecaster capacity scheduler horizon jobs fc clock in
  let fallback :=
    Orchestrator._fallback_schedule
      (map (Orchestrator.enrich forecaster horizon fc) jobs) fc clock in
  let sound :=
    Forall has_figures schedule /\
    ~ Audit.t_baseline_cost (Audit.totals schedule) == 0 /\
    ~ Audit.t_baseline_carbon (Audit.totals schedule) == 0 in
  (sound -> optimized = Ok (schedule, clock)) /\
  (~ sound -> optimized = fallback) /\
  (schedule = [] -> optimized = fallback).
Proof.
  intros Hjobs Hs optimized fallback sound.
  assert (Hopt : optimized = match Orchestrator._print_schedule_summary schedule with
                             | Ok _ => Ok (schedule, clock)
                             | Raise _ => fallback
                             end).
  { unfold optimized, Orchestrator.optimize. destruct jobs as [|j jobs]; [done|].
    rewrite Hs. simpl. by destruct (Orchestrator._print_schedule_summary schedule). }
  pose proof (summary_ok_iff schedule) as Hiff. fold sound in Hiff.
  split; [|split].
  - intros Hsound. apply Hiff in Hsound. by rewrite Hopt, Hsound.
  - intros Hn. rewrite Hopt.
    destruct (Orchestrator._print_schedule_summary schedule) as [[]|e]; [|done].
    destruct Hn. by apply Hiff.
  - intros ->. by rewrite Hopt.
Qed.

Lemma optimize_keeps_or_replaces_schedule_witness :
  exists entry1 entry2 clock',
    Orchestrator.optimize unit no_windows () idle_scheduler 24
      [sample_job true true; sample_job false false] sample_forecast sample_clock
    = Ok ([entry1; entry2], clock').
Proof.
  destruct (optimize_keeps_or_replaces_schedule unit no_windows () idle_scheduler 24
              [sample_job true true; sample_job false false] sample_forecast sample_clock
              [] ltac:(discriminate) eq_refl) as (_ & _ & Hempty).
  rewrite (Hempty eq_refl). by eexists _, _, _.
Defined.

(** The fall-back needs the two tables of the forecast.  For no job it
    returns the empty schedule whatever the forecast; for a job it raises
    [KeyError] on a forecast without ['price'] or without ['carbon'];
    with both tables it returns one entry per job and reads the clock
    twice per job.  So when the scheduler fails on a forecast without a
    price table, [optimize] has no schedule to return and raises. *)
Theorem fallback_needs_forecast_tables (Capacity : Type)
    (forecaster : ComputeJob -> GridForecast -> Z -> result (list Window))
    (capacity : Capacity)
    (scheduler : list ComputeJob -> GridForecast -> Capacity -> result (list ScheduledJob))
    (horizon : Z) (j : ComputeJob) (jobs : list ComputeJob) (fc : GridForecast)
    (clock : Clock) :
  Orchestrator._fallback_schedule [] fc clock = Ok ([], clock) /\
  (fc_price fc = None ->
   Orchestrator._fallback_schedule (j :: jobs) fc clock = Raise (KeyError "price") /\
   forall e, scheduler (map (Orchestrator.enrich forecaster horizon fc) (j :: jobs))
               fc capacity = Raise e ->
     Orchestrator.optimize Capacity forecaster capacity scheduler horizon (j :: jobs) fc clock
     = Raise (KeyError "price")) /\
  (is_Some (fc_price fc) -> fc_carbon fc = None ->
   Orchestrator._fallback_schedule (j :: jobs) fc clock = Raise (KeyError "carbon")) /\
  (is_Some (fc_price fc) -> is_Some (fc_carbon fc) ->
   exists schedule clock',
     Orchestrator._fallback_schedule (j :: jobs) fc clock = Ok (schedule, clock') /\
     map sj_job schedule = j :: jobs /\
     ticks clock' = (ticks clock + 2 * length (j :: jobs))%nat).
Proof.
  split; [done|]. split; [|split].
  - intros Hp. split.
    + simpl. unfold Orchestrator.fallback_entry. by rewrite Hp.
    + intros e He. unfold Orchestrator.optimize.
      change (map ?f (j :: jobs)) with (f j :: map f jobs) in *.
      rewrite He. simpl. unfold Orchestrator.fallback_entry. by rewrite Hp.
  - intros [prices Hp] Hc. simpl. unfold Orchestrator.fallback_entry.
    by rewrite Hp, Hc.
  - intros [prices Hp] [carbon Hc].
    destruct (fallback_schedule_ok fc prices carbon (j :: jobs) clock Hp Hc)
      as (schedule & clock' & Hs & Hjobs & _).
    exists schedule, clock'. split; [done|]. split; [done|].
    by apply fallback_schedule_ticks in Hs.
Qed.

(** ** The window forecaster: what it returns, and when *)

Section WindowFacts.
Import Forecaster.

(** A slice with bounds that are not negative. *)
Lemma py_slice_take_drop {A} (l : list A) (a b : Z) :
  (0 <= a <= b)%Z ->
  py_slice l a b = take (Z.to_nat (b - a)) (drop (Z.to_nat a) l).
Proof.
  intros Hab. unfold py_slice, slice_index.
  destruct (Z.ltb_spec a 0); [lia|]. destruct (Z.ltb_spec b 0); [lia|].
  destruct (Z_le_gt_dec (Z.of_nat (length l)) a).
  - rewrite !drop_ge by lia. by rewrite !take_nil.
  - replace (Z.to_nat (Z.min a (Z.of_nat (length l)))) with (Z.to_nat a) by lia.
    destruct (Z_le_gt_dec b (Z.of_nat (length l))).
    + f_equal. lia.
    + rewrite !take_ge; [done| |]; rewrite length_drop; lia.
Qed.

Lemma py_div_nonzero a b : ~ b == 0 -> py_div a b = Ok (a / b).
Proof.
  intros Hb. unfold py_div. destruct (Qeq_bool b 0) eqn:Hq; [|done].
  by apply Qeq_bool_iff in Hq.
Qed.

Lemma py_div_zero a b : b == 0 -> py_div a b = Raise ZeroDivisionError.
Proof.
  intros Hb. unfold py_div. apply Qeq_bool_iff in Hb. by rewrite Hb.
Qed.

Lemma window_at_ok job prices carbon region hour noise ps cs :
  prices !! region = Some ps -> carbon !! region = Some cs ->
  ~ duration_hours job == 0 ->
  exists w, window_at job prices carbon region hour noise = Ok w /\
    avg_price w
    = py_sum (py_slice ps hour (hour + py_int (duration_hours job))) / duration_hours job /\
    avg_carbon w
    = py_sum (py_slice cs hour (hour + py_int (duration_hours job))) / duration_hours job /\
    score w = (avg_price w / (15 # 100)) * (5 # 10) + (avg_carbon w / 200) * (5 # 10).
Proof.
  intros Hp Hc Hd. unfold window_at. rewrite Hp, Hc. simpl.
  rewrite !py_div_nonzero by done. simpl. eauto.
Qed.

Lemma build_windows_ok job prices carbon uniform k cands :
  (forall r, r ∈ regions -> is_Some (prices !! r) /\ is_Some (carbon !! r)) ->
  ~ duration_hours job == 0 ->
  Forall (fun c => c.1 ∈ regions) cands ->
  exists ws, build_windows job prices carbon uniform k cands = Ok ws.
Proof.
  intros Hr Hd Hall. revert k.
  induction Hall as [|[region hour] cands Hin Hall IH]; intros k; simpl; [eauto|].
  destruct (Hr region Hin) as [[ps Hp] [cs Hc]].
  destruct (window_at_ok job prices carbon region hour (uniform k) ps cs Hp Hc Hd)
    as (w & -> & _).
  simpl. destruct (IH (S k)) as [ws ->]. simpl. eauto.
Qed.

Lemma build_windows_length job prices carbon uniform k cands ws :
  build_windows job prices carbon uniform k cands = Ok ws -> length ws = length cands.
Proof.
  intros H. apply build_windows_keys in H. by rewrite <- H, length_map.
Qed.

Lemma candidates_length job horizon :
  length (candidates job horizon)
  = (3 * Z.to_nat (horizon - py_int (duration_hours job)))%nat.
Proof.
  unfold candidates, regions, py_range. simpl.
  rewrite !length_app. simpl.
  assert (Hl : forall (r : string) (l : list Z),
            length (l ≫= (fun hour => [(r, hour)])) = length l).
  { intros r l. induction l as [|h l IH]; [done|]. simpl. by rewrite <- IH. }
  rewrite !Hl, !length_map, !length_seq. lia.
Qed.

Lemma candidates_regions job horizon :
  Forall (fun c => c.1 ∈ regions) (candidates job horizon).
Proof.
  apply Forall_forall. intros [r h] Hin. by apply elem_of_candidates in Hin as [? _].
Qed.

Lemma score_le_trans : Transitive score_le.
Proof. intros a b c. unfold score_le. lra. Qed.

Lemma StronglySorted_take_drop {A} (R : A -> A -> Prop) l n x y :
  StronglySorted R l -> x ∈ take n l -> y ∈ drop n l -> R x y.
Proof.
  intros Hs. revert n. induction Hs as [|z l Hs IH Hall]; intros n Hx Hy.
  { rewrite take_nil in Hx. by apply elem_of_nil in Hx. }
  destruct n as [|n]; simpl in *; [by apply elem_of_nil in Hx|].
  apply elem_of_cons in Hx as [->|Hx].
  - rewrite Forall_forall in Hall. apply Hall.
    apply list_elem_of_lookup_1 in Hy as [i Hi]. rewrite lookup_drop in Hi.
    by apply list_elem_of_lookup_2 in Hi.
  - by apply (IH n).
Qed.

End WindowFacts.

(** The heuristic does return when the forecast has its two tables with
    the three regions in both and the job's duration is not zero: it
    returns three windows when at least one start hour is tried, and no
    window when the horizon does not exceed [int(duration)]. *)
Theorem heuristic_forecast_returns (uniform : nat -> Q) (job : ComputeJob)
    (fc : GridForecast) (horizon : Z) (prices carbon : gmap string (list Q)) :
  fc_price fc = Some prices ->
  fc_carbon fc = Some carbon ->
  (forall r, r ∈ Forecaster.regions -> is_Some (prices !! r) /\ is_Some (carbon !! r)) ->
  ~ duration_hours job == 0 ->
  exists ws,
    Forecaster._heuristic_forecast uniform job fc horizon = Ok ws /\
    length ws
    = Nat.min 3 (3 * Z.to_nat (horizon - Forecaster.py_int (duration_hours job))).
Proof.
  intros Hp Hc Hr Hd. unfold Forecaster._heuristic_forecast. rewrite Hp, Hc. simpl.
  destruct (build_windows_ok job prices carbon uniform 0
              (Forecaster.candidates job horizon) Hr Hd (candidates_regions job horizon))
    as [ws Hws].
  rewrite Hws. simpl. eexists. split; [done|].
  rewrite (py_slice_prefix _ 3), length_take.
  rewrite (Permutation_length (sort_by_score_perm ws)).
  by rewrite (build_windows_length _ _ _ _ _ _ _ Hws), candidates_length.
Qed.

Lemma heuristic_forecast_returns_witness :
  exists ws,
    Forecaster._heuristic_forecast no_noise two_hour_job evening_forecast 4 = Ok ws /\
    length ws = 3%nat.
Proof.
  destruct (heuristic_forecast_returns no_noise two_hour_job evening_forecast 4
              evening_prices evening_carbon eq_refl eq_refl) as (ws & Hws & Hlen).
  - intros r Hr. unfold Forecaster.regions in Hr.
    repeat (apply elem_of_cons in Hr as [->|Hr]; [by split; eexists|]).
    by apply elem_of_nil in Hr.
  - by vm_compute.
  - exists ws. split; [exact Hws | exact Hlen].
Defined.

(** How the heuristic fails.  Without the table ['price'] (or
    ['carbon']) it raises [KeyError] at once; with the tables and a
    horizon that does not exceed [int(duration)] it tries no start hour
    and returns no window, whatever the tables hold; when it does try a
    start hour, a table without the region ['north'] raises [KeyError],
    and a job of duration zero raises [ZeroDivisionError]. *)
Theorem heuristic_forecast_failures (uniform : nat -> Q) (job : ComputeJob)
    (fc : GridForecast) (horizon : Z) :
  let tried := (0 < horizon - Forecaster.py_int (duration_hours job))%Z in
  (fc_price fc = None ->
   Forecaster._heuristic_forecast uniform job fc horizon = Raise (KeyError "price")) /\
  (is_Some (fc_price fc) -> fc_carbon fc = None ->
   Forecaster._heuristic_forecast uniform job fc horizon = Raise (KeyError "carbon")) /\
  (is_Some (fc_price fc) -> is_Some (fc_carbon fc) -> ~ tried ->
   Forecaster._heuristic_forecast uniform job fc horizon = Ok []) /\
  (forall prices, fc_price fc = Some prices -> is_Some (fc_carbon fc) -> tried ->
   prices !! "north"%string = None ->
   Forecaster._heuristic_forecast uniform job fc horizon = Raise (KeyError "north")) /\
  (forall prices, fc_price fc = Some prices -> is_Some (fc_carbon fc) -> tried ->
   is_Some (prices !! "north"%string) -> duration_hours job == 0 ->
   Forecaster._heuristic_forecast uniform job fc horizon = Raise ZeroDivisionError).
Proof.
  intros tried. unfold Forecaster._heuristic_forecast.
  split; [by intros ->|]. split; [by intros [? ->] ->|].
  assert (Hfirst : tried -> exists rest,
            Forecaster.candidates job horizon = ("north"%string, 0%Z) :: rest).
  { unfold tried, Forecaster.candidates, Forecaster.regions, Forecaster.py_range.
    intros Ht.
    destruct (Z.to_nat (horizon - Forecaster.py_int (duration_hours job))) as [|n] eqn:Hn;
      [lia|].
    simpl. eauto. }
  split; [|split].
  - intros [prices ->] [carbon ->] Hn. simpl.
    assert (Forecaster.candidates job horizon = []) as ->.
    { apply length_zero_iff_nil. rewrite candidates_length. unfold tried in Hn. lia. }
    done.
  - intros prices -> [carbon ->] Ht Hnorth. simpl.
    destruct (Hfirst Ht) as [rest ->]. simpl.
    unfold Forecaster.window_at. by rewrite Hnorth.
  - intros prices -> [carbon ->] Ht [ps Hnorth] Hd. simpl.
    destruct (Hfirst Ht) as [rest ->]. simpl.
    unfold Forecaster.window_at. rewrite Hnorth. simpl.
    by rewrite py_div_zero.
Qed.

(** The three windows returned are the best of those built: the windows
    built for the start hours tried are a rearrangement of the windows
    returned and the windows left out, and no window left out has a lower
    score than a window returned. *)
Theorem heuristic_forecast_best_three (uniform : nat -> Q) (job : ComputeJob)
    (fc : GridForecast) (horizon : Z) (ws : list Window) :
  Forecaster._heuristic_forecast uniform job fc horizon = Ok ws ->
  exists prices carbon built left_out,
    fc_price fc = Some prices /\ fc_carbon fc = Some carbon /\
    Forecaster.build_windows job prices carbon uniform 0
      (Forecaster.candidates job horizon) = Ok built /\
    built ≡ₚ ws ++ left_out /\
    forall w w', w ∈ ws -> w' ∈ left_out -> score w <= score w'.
Proof.
  unfold Forecaster._heuristic_forecast.
  destruct (fc_price fc) as [prices|]; [simpl|done].
  destruct (fc_carbon fc) as [carbon|]; [simpl|done].
  destruct (Forecaster.build_windows _ _ _ _ _ _) as [built|] eqn:Hb; [simpl|done].
  intros [= <-]. rewrite (py_slice_prefix _ 3).
  exists prices, carbon, built, (drop 3 (Forecaster.sort_by_score built)).
  split; [done|]. split; [done|]. split; [done|]. split.
  - by rewrite take_drop, sort_by_score_perm.
  - intros w w' Hw Hw'.
    apply (StronglySorted_take_drop score_le (Forecaster.sort_by_score built) 3);
      [|done|done].
    apply Sorted_StronglySorted; [apply score_le_trans|]. apply sort_by_score_sorted.
Qed.

Lemma heuristic_forecast_best_three_witness :
  exists ws built left_out,
    Forecaster._heuristic_forecast no_noise two_hour_job evening_forecast 4 = Ok ws /\
    built ≡ₚ ws ++ left_out /\ length built = 6%nat /\
    forall w w', w ∈ ws -> w' ∈ left_out -> score w <= score w'.
Proof.
  destruct (heuristic_forecast_best_three no_noise two_hour_job evening_forecast 4 _ eq_refl)
    as (prices & carbon & built & left_out & Hp & Hc & Hb & Hperm & Hbest).
  injection Hp as <-. injection Hc as <-.
  eexists _, built, left_out. split; [reflexivity|]. split; [exact Hperm|].
  split; [|exact Hbest].
  by rewrite (build_windows_length _ _ _ _ _ _ _ Hb).
Defined.

(** A window's price and carbon are means over its hours.  For a job
    whose duration is a whole number [d > 0] of hours and a start hour
    [h >= 0] with the [d] hours from [h] inside the region's series, the
    window's average price is the sum of the [d] prices from hour [h]
    divided by [d], its average carbon likewise, and its score is half
    the price relative to 0.15 plus half the carbon relative to 200. *)
Theorem window_at_averages (job : ComputeJob) (prices carbon : gmap string (list Q))
    (region : string) (hour : Z) (noise : Q) (ps cs : list Q) (d : nat) :
  prices !! region = Some ps ->
  carbon !! region = Some cs ->
  duration_hours job == inject_Z (Z.of_nat d) ->
  (0 < d)%nat ->
  (0 <= hour)%Z ->
  (Z.to_nat hour + d <= length ps)%nat ->
  (Z.to_nat hour + d <= length cs)%nat ->
  exists w,
    Forecaster.window_at job prices carbon region hour noise = Ok w /\
    start_hour w = hour /\ w_region w = region /\
    length (take d (drop (Z.to_nat hour) ps)) = d /\
    length (take d (drop (Z.to_nat hour) cs)) = d /\
    avg_price w == py_sum (take d (drop (Z.to_nat hour) ps)) / inject_Z (Z.of_nat d) /\
    avg_carbon w == py_sum (take d (drop (Z.to_nat hour) cs)) / inject_Z (Z.of_nat d) /\
    score w == avg_price w / (15 # 100) / 2 + avg_carbon w / 200 / 2.
Proof.
  intros Hp Hc Hd Hpos Hh Hps Hcs.
  assert (Hnz : ~ duration_hours job == 0).
  { rewrite Hd. intros Hz. apply (inject_Z_injective (Z.of_nat d) 0) in Hz. lia. }
  assert (Hint : Forecaster.py_int (duration_hours job) = Z.of_nat d).
  { unfold Forecaster.py_int.
    assert (Qle_bool 0 (duration_hours job) = true) as ->.
    { apply Qle_bool_iff. rewrite Hd. change 0 with (inject_Z 0).
      rewrite <- Zle_Qle. lia. }
    rewrite Hd. apply Qfloor_Z. }
  destruct (window_at_ok job prices carbon region hour noise ps cs Hp Hc Hnz)
    as (w & Hw & Hprice & Hcarbon & Hscore).
  exists w. split; [done|].
  destruct (window_at_key _ _ _ _ _ _ _ Hw) as [[= Hr Hs] _].
  split; [done|]. split; [done|].
  rewrite !length_take, !length_drop.
  split; [lia|]. split; [lia|].
  rewrite Hint in Hprice, Hcarbon.
  rewrite !py_slice_take_drop in Hprice, Hcarbon by lia.
  replace (Z.to_nat (hour + Z.of_nat d - hour)) with d in * by lia.
  rewrite Hscore, Hprice, Hcarbon, Hd.
  split; [reflexivity|]. split; [reflexivity|]. field. by rewrite <- Hd.
Qed.

Lemma window_at_averages_witness :
  exists w,
    Forecaster.window_at two_hour_job evening_prices evening_carbon "north" 1 0 = Ok w /\
    avg_price w == ((30 # 100) + (6 # 100)) / 2 /\
    avg_carbon w == (300 + 100) / 2.
Proof.
  destruct (window_at_averages two_hour_job evening_prices evening_carbon "north" 1 0
              [30 # 100; 30 # 100; 6 # 100; 6 # 100] [300; 300; 100; 100] 2
              eq_refl eq_refl)
    as (w & Hw & _ & _ & _ & _ & Hprice & Hcarbon & _);
    [by vm_compute | lia | lia | simpl; lia | simpl; lia |].
  exists w. split; [exact Hw|]. split.
  - rewrite Hprice. by vm_compute.
  - rewrite Hcarbon. by vm_compute.
Defined.

(** A window that starts at or beyond the end of the region's series is
    not refused: its slices are empty, so for a job whose duration is
    not zero its average price, its average carbon and its score are
    zero. *)
Theorem window_beyond_series_scores_zero (job : ComputeJob)
    (prices carbon : gmap string (list Q)) (region : string) (hour : Z) (noise : Q)
    (ps cs : list Q) :
  prices !! region = Some ps ->
  carbon !! region = Some cs ->
  ~ duration_hours job == 0 ->
  (0 <= Forecaster.py_int (duration_hours job))%Z ->
  (Z.of_nat (length ps) <= hour)%Z ->
  (Z.of_nat (length cs) <= hour)%Z ->
  exists w,
    Forecaster.window_at job prices carbon region hour noise = Ok w /\
    avg_price w == 0 /\ avg_carbon w == 0 /\ score w == 0.
Proof.
  intros Hp Hc Hnz Hd Hps Hcs.
  destruct (window_at_ok job prices carbon region hour noise ps cs Hp Hc Hnz)
    as (w & Hw & Hprice & Hcarbon & Hscore).
  exists w. split; [done|].
  rewrite !py_slice_take_drop in Hprice, Hcarbon by lia.
  rewrite !drop_ge, !take_nil in Hprice, Hcarbon by lia.
  assert (H0 : avg_price w == 0) by (rewrite Hprice; unfold py_sum; simpl; by field).
  assert (H1 : avg_carbon w == 0) by (rewrite Hcarbon; unfold py_sum; simpl; by field).
  split; [done|]. split; [done|]. rewrite Hscore, H0, H1. by vm_compute.
Qed.

Lemma window_beyond_series_scores_zero_witness :
  exists w,
    Forecaster.window_at two_hour_job evening_prices evening_carbon "south" 9 0 = Ok w /\
    score w == 0.
Proof.
  destruct (window_beyond_series_scores_zero two_hour_job evening_prices evening_carbon
              "south" 9 0 [30 # 100; 30 # 100; 9 # 100; 9 # 100] [300; 280; 120; 120]
              eq_refl eq_refl)
    as (w & Hw & _ & _ & Hscore);
    [by vm_compute | by vm_compute | simpl; lia | simpl; lia |].
  exists w. split; [exact Hw | exact Hscore].
Defined.

(** ** The compute monitor: look-up, status updates, capacity *)

Section QueueFacts.
Import Monitor.

Lemma find_job_app objs id q1 q2 :
  find_job objs id (q1 ++ q2)
  = match find_job objs id q1 with
    | Some a => Some a
    | None => find_job objs id q2
    end.
Proof.
  induction q1 as [|a q1 IH]; simpl; [done|].
  destruct (objs !! a) as [j|]; [|done]. by destruct (String.eqb _ _).
Qed.

Lemma find_job_some objs id q a :
  find_job objs id q = Some a ->
  a ∈ q /\ exists j, objs !! a = Some j /\ job_id j = id.
Proof.
  induction q as [|b q IH]; simpl; [done|].
  destruct (objs !! b) as [j|] eqn:Hb.
  - destruct (String.eqb_spec (job_id j) id) as [Hid|].
    + intros [= <-]. split; [left|eauto].
    + intros H. destruct (IH H) as [? ?]. split; [by right|done].
  - intros H. destruct (IH H) as [? ?]. split; [by right|done].
Qed.

Lemma find_job_none objs id q :
  find_job objs id q = None <->
  forall a j, a ∈ q -> objs !! a = Some j -> job_id j <> id.
Proof.
  induction q as [|b q IH]; simpl.
  - split; [|done]. intros _ a j Ha. by apply elem_of_nil in Ha.
  - destruct (objs !! b) as [j|] eqn:Hb.
    + destruct (String.eqb_spec (job_id j) id) as [Hid|Hid].
      * split; [done|]. intros H. destruct (H b j); [left|done|done].
      * rewrite IH. split.
        -- intros H a j' Ha Hj. apply elem_of_cons in Ha as [->|Ha]; [congruence|eauto].
        -- intros H a j' Ha. apply H. by right.
    + rewrite IH. split.
      * intros H a j' Ha Hj. apply elem_of_cons in Ha as [->|Ha]; [congruence|eauto].
      * intros H a j' Ha. apply H. by right.
Qed.

(** A search sees only the objects behind the queue it walks. *)
Lemma find_job_ext objs objs' id q :
  (forall a, a ∈ q -> objs' !! a = objs !! a) ->
  find_job objs' id q = find_job objs id q.
Proof.
  induction q as [|b q IH]; intros H; simpl; [done|].
  rewrite (H b) by left. rewrite IH; [done|]. intros a Ha. apply H. by right.
Qed.

Lemma list_remove_last a q : a ∉ q -> list_remove a (q ++ [a]) = Ok q.
Proof.
  induction q as [|b q IH]; intros Hn; simpl.
  - by rewrite decide_True.
  - apply not_elem_of_cons in Hn as [Hne Hn].
    rewrite decide_False by done. by rewrite IH.
Qed.

Lemma fresh_unused objs : objs !! fresh objs = None.
Proof.
  destruct (objs !! fresh objs) as [j|] eqn:Hj; [|done].
  apply elem_of_map_to_list in Hj.
  assert (Hle : forall (l : list (nat * ComputeJob)) k x,
            (k, x) ∈ l -> (k <= foldr Nat.max 0 (map fst l))%nat).
  { induction l as [|[k' x'] l IH]; intros k x Hin; [by apply elem_of_nil in Hin|].
    simpl. apply elem_of_cons in Hin as [[= -> ->]|Hin]; [lia|].
    specialize (IH k x Hin). lia. }
  apply Hle in Hj. unfold fresh in Hj. lia.
Qed.

Lemma fresh_not_queued (m : ComputeMonitor) :
  no_dangling m -> fresh (objects m) ∉ all_queues m.
Proof.
  intros Hwf Hin. destruct (Hwf _ Hin) as [j Hj]. by rewrite fresh_unused in Hj.
Qed.

(** The store after a status update. *)
Lemma update_job_status_objects m id st a j :
  match find_job (objects m) id (pending_jobs m) with
  | Some a => Some a
  | None => find_job (objects m) id (scheduled_jobs m ++ running_jobs m)
  end = Some a ->
  objects m !! a = Some j ->
  objects (fst (update_job_status m id st)) = <[a := set_status j st]> (objects m).
Proof.
  intros Hfind Hj. unfold update_job_status. rewrite Hfind, Hj.
  match goal with |- context [move_between_queues ?m1 a ?o st] =>
    destruct (move_between_queues m1 a o st) as [m2|e] eqn:Hm; [|done]
  end.
  simpl. revert Hm. unfold move_between_queues, set_queues. simpl.
  repeat match goal with
  | |- context [if ?b then _ else _] => destruct b
  | |- context [list_remove ?x ?q] => destruct (list_remove x q); simpl
  end; intros Hm; try discriminate; by inversion Hm.
Qed.

Lemma searched_find m id :
  match find_job (objects m) id (pending_jobs m) with
  | Some a => Some a
  | None => find_job (objects m) id (scheduled_jobs m ++ running_jobs m)
  end = find_job (objects m) id (live_queues m).
Proof. unfold live_queues. by rewrite (find_job_app _ _ (pending_jobs m)). Qed.

End QueueFacts.

(** A status update touches live jobs only.  When no job in the pending,
    scheduled or running queue has the identifier (the identifier is
    unknown, or its job is completed or failed), [update_job_status]
    changes nothing and raises nothing: completed and failed are final. *)
Theorem update_job_status_needs_live_job (m : Monitor.ComputeMonitor) (id st : string) :
  id_absent m id (live_queues m) ->
  Monitor.update_job_status m id st = (m, None).
Proof.
  intros Habs. apply find_job_none in Habs.
  unfold Monitor.update_job_status. rewrite searched_find. by rewrite Habs.
Qed.

Lemma update_job_status_needs_live_job_witness :
  Monitor.completed_jobs one_completed = [1%nat] /\
  status_of one_completed 1 = Some "completed"%string /\
  Monitor.update_job_status one_completed "job_00001" "failed" = (one_completed, None).
Proof.
  split; [by vm_compute|]. split; [by vm_compute|].
  apply update_job_status_needs_live_job.
  intros a j Ha. vm_compute in Ha. by apply elem_of_nil in Ha.
Defined.

(** The status of a live job is always written.  If some job in the
    pending, scheduled or running queue has the identifier, then after
    [update_job_status], whatever status was asked for and whether or
    not the call raised, one such job has the status asked for, and that
    one field of that one job is all that changed in the store. *)
Theorem update_job_status_writes_status (m : Monitor.ComputeMonitor) (id st : string)
    (a : nat) (j : ComputeJob) :
  a ∈ live_queues m ->
  Monitor.objects m !! a = Some j ->
  job_id j = id ->
  let m' := fst (Monitor.update_job_status m id st) in
  exists b j',
    b ∈ live_queues m /\ Monitor.objects m !! b = Some j' /\ job_id j' = id /\
    Monitor.objects m' = <[b := set_status j' st]> (Monitor.objects m) /\
    status_of m' b = Some st /\
    forall c, c <> b -> Monitor.objects m' !! c = Monitor.objects m !! c.
Proof.
  intros Ha Hj Hid m'.
  destruct (Monitor.find_job (Monitor.objects m) id (live_queues m)) as [b|] eqn:Hfind.
  2:{ rewrite find_job_none in Hfind. by destruct (Hfind a j Ha Hj). }
  destruct (find_job_some _ _ _ _ Hfind) as (Hb & j' & Hj' & Hid').
  exists b, j'. split; [done|]. split; [done|]. split; [done|].
  assert (Hobj : Monitor.objects m' = <[b := set_status j' st]> (Monitor.objects m)).
  { apply update_job_status_objects; [|done]. by rewrite searched_find. }
  split; [done|]. unfold status_of. rewrite Hobj. split.
  - by rewrite lookup_insert_eq.
  - intros c Hc. by rewrite lookup_insert_ne.
Qed.

Lemma update_job_status_writes_status_witness :
  exists b,
    status_of (fst (Monitor.update_job_status one_pending "job_00001" "completed")) b
    = Some "completed"%string.
Proof.
  destruct (update_job_status_writes_status one_pending "job_00001" "completed" 1
              (sample_job true true)) as (b & j' & _ & _ & _ & _ & Hst & _).
  - by vm_compute; left.
  - by vm_compute.
  - reflexivity.
  - exists b. exact Hst.
Defined.

Section SubmitFacts.
Import Monitor.

Lemma extend_pending_cons m j new_jobs :
  extend_pending m (j :: new_jobs) = extend_pending (submit m j) new_jobs.
Proof. done. Qed.

Lemma submit_objects_old m j b :
  no_dangling m -> b ∈ all_queues m -> objects (submit m j) !! b = objects m !! b.
Proof.
  intros Hwf Hb. simpl. apply lookup_insert_ne. intros <-.
  by apply (fresh_not_queued m Hwf).
Qed.

Lemma all_queues_submit m j :
  all_queues (submit m j)
  = pending_jobs m ++ fresh (objects m) :: scheduled_jobs m ++ running_jobs m ++
    completed_jobs m ++ failed_jobs m.
Proof. unfold all_queues. simpl. by rewrite <- app_assoc. Qed.

Lemma elem_of_all_queues_submit m j b :
  b ∈ all_queues (submit m j) <-> b ∈ all_queues m \/ b = fresh (objects m).
Proof.
  rewrite all_queues_submit. unfold all_queues.
  rewrite !elem_of_app, elem_of_cons, !elem_of_app. tauto.
Qed.

Lemma submit_no_dangling m j : no_dangling m -> no_dangling (submit m j).
Proof.
  intros Hwf b Hb. apply elem_of_all_queues_submit in Hb as [Hb| ->].
  - rewrite submit_objects_old by done. by apply Hwf.
  - simpl. rewrite lookup_insert_eq. eauto.
Qed.

Lemma find_job_first objs id q1 q2 a j :
  (forall b j', b ∈ q1 -> objs !! b = Some j' -> job_id j' <> id) ->
  objs !! a = Some j -> job_id j = id ->
  find_job objs id (q1 ++ a :: q2) = Some a.
Proof.
  intros Hq1 Ha Hid. rewrite find_job_app.
  apply find_job_none in Hq1. rewrite Hq1. simpl. rewrite Ha.
  by destruct (String.eqb_spec (job_id j) id).
Qed.

Lemma get_job_by_id_submit_new m j :
  no_dangling m -> id_absent m (job_id j) (all_queues m) ->
  get_job_by_id (submit m j) (job_id j) = Some j.
Proof.
  intros Hwf Habs. unfold get_job_by_id. fold (all_queues (submit m j)).
  rewrite all_queues_submit.
  rewrite (find_job_first _ _ _ _ _ j); simpl.
  - by rewrite lookup_insert_eq.
  - intros b j' Hb Hj'. apply (Habs b j').
    + unfold all_queues. apply elem_of_app. by left.
    + rewrite <- Hj'. symmetry. apply (submit_objects_old m j b Hwf).
      unfold all_queues. apply elem_of_app. by left.
  - by rewrite lookup_insert_eq.
  - done.
Qed.

Lemma get_job_by_id_submit_other m j id :
  no_dangling m -> id <> job_id j ->
  get_job_by_id (submit m j) id = get_job_by_id m id.
Proof.
  intros Hwf Hne. unfold get_job_by_id. fold (all_queues (submit m j)) (all_queues m).
  rewrite all_queues_submit.
  assert (Hfind : find_job (objects (submit m j)) id
                    (pending_jobs m ++ fresh (objects m) :: scheduled_jobs m ++
                     running_jobs m ++ completed_jobs m ++ failed_jobs m)
                  = find_job (objects m) id (all_queues m)).
  { unfold all_queues. rewrite !(find_job_app _ _ (pending_jobs m)).
    rewrite (find_job_ext (objects m) (objects (submit m j)) id (pending_jobs m)).
    2:{ intros b Hb. apply submit_objects_old; [done|].
        unfold all_queues. apply elem_of_app. by left. }
    destruct (find_job (objects m) id (pending_jobs m)); [done|].
    simpl. rewrite lookup_insert_eq.
    destruct (String.eqb_spec (job_id j) id); [congruence|].
    apply find_job_ext. intros b Hb. apply (submit_objects_old m j b Hwf).
    unfold all_queues. apply elem_of_app. by right. }
  rewrite Hfind.
  destruct (find_job (objects m) id (all_queues m)) as [b|] eqn:Hb; [|done].
  simpl. apply find_job_some in Hb as [Hb _]. apply lookup_insert_ne.
  intros <-. by apply (fresh_not_queued m Hwf).
Qed.

Lemma id_absent_submit m j id :
  no_dangling m -> id <> job_id j ->
  id_absent m id (all_queues m) ->
  id_absent (submit m j) id (all_queues (submit m j)).
Proof.
  intros Hwf Hne Habs b j' Hb Hj'.
  apply elem_of_all_queues_submit in Hb as [Hb| ->].
  - rewrite submit_objects_old in Hj' by done. by apply (Habs b j').
  - simpl in Hj'. rewrite lookup_insert_eq in Hj'. congruence.
Qed.

Lemma extend_pending_lookup m new_jobs :
  no_dangling m ->
  NoDup (map job_id new_jobs) ->
  (forall j, j ∈ new_jobs -> id_absent m (job_id j) (all_queues m)) ->
  let m' := extend_pending m new_jobs in
  length (pending_jobs m') = (length (pending_jobs m) + length new_jobs)%nat /\
  (forall j, j ∈ new_jobs -> get_job_by_id m' (job_id j) = Some j) /\
  (forall id, id ∉ map job_id new_jobs -> get_job_by_id m' id = get_job_by_id m id).
Proof.
  revert m. induction new_jobs as [|j new_jobs IH]; intros m Hwf Hnd Habs; simpl.
  { split; [lia|]. split; [|done]. intros j Hj. by apply elem_of_nil in Hj. }
  apply NoDup_cons in Hnd as [Hj Hnd].
  destruct (IH (submit m j)) as (Hlen & Hnew & Hold).
  - by apply submit_no_dangling.
  - done.
  - intros j' Hj'. apply id_absent_submit; [done| |apply Habs; by right].
    intros Heq. apply Hj. rewrite <- Heq. apply list_elem_of_In, in_map.
    by apply list_elem_of_In.
  - split; [|split].
    + fold (submit m j). rewrite Hlen. simpl. rewrite length_app. simpl. lia.
    + intros j' Hj'. fold (submit m j).
      apply elem_of_cons in Hj' as [->|Hj']; [|by apply Hnew].
      rewrite Hold by done. apply get_job_by_id_submit_new; [done|].
      apply Habs. left.
    + intros id Hid. fold (submit m j). apply not_elem_of_cons in Hid as [Hne Hid].
      rewrite Hold by done. by apply get_job_by_id_submit_other.
Qed.

End SubmitFacts.

(** Jobs that arrive can be looked up.  When jobs with pairwise distinct
    identifiers that no queued job has yet arrive in [get_pending_jobs],
    the pending list returned grows by their number, [get_job_by_id]
    finds each of them under its identifier, and the look-up of every
    other identifier is what it was before. *)
Theorem get_job_by_id_finds_arrivals (m : Monitor.ComputeMonitor)
    (new_jobs : list ComputeJob) :
  no_dangling m ->
  NoDup (map job_id new_jobs) ->
  (forall j, j ∈ new_jobs -> id_absent m (job_id j) (all_queues m)) ->
  let pending := fst (Monitor.get_pending_jobs m new_jobs) in
  let m' := snd (Monitor.get_pending_jobs m new_jobs) in
  length pending = (length (Monitor.pending_jobs m) + length new_jobs)%nat /\
  (forall j, j ∈ new_jobs -> Monitor.get_job_by_id m' (job_id j) = Some j) /\
  (forall id, id ∉ map job_id new_jobs ->
     Monitor.get_job_by_id m' id = Monitor.get_job_by_id m id).
Proof.
  intros Hwf Hnd Habs. by apply extend_pending_lookup.
Qed.

Lemma get_job_by_id_finds_arrivals_witness :
  let m' := snd (Monitor.get_pending_jobs one_completed [two_hour_job]) in
  Monitor.get_job_by_id m' "job_00002" = Some two_hour_job /\
  (status <$> Monitor.get_job_by_id m' "job_00001") = Some "completed"%string.
Proof.
  destruct (get_job_by_id_finds_arrivals one_completed [two_hour_job])
    as (_ & Hnew & Hold).
  - intros a Ha. vm_compute in Ha.
    apply elem_of_cons in Ha as [->|Ha]; [vm_compute; eauto|]. by apply elem_of_nil in Ha.
  - repeat constructor. by intros ?%elem_of_nil.
  - intros j Hj. apply list_elem_of_singleton in Hj as ->.
    intros a j' Ha. vm_compute in Ha.
    apply elem_of_cons in Ha as [->|Ha]; [|by apply elem_of_nil in Ha].
    vm_compute. by intros [= <-].
  - split.
    + apply (Hnew two_hour_job). left.
    + rewrite (Hold "job_00001"%string); [by vm_compute|].
      simpl. intros Hin. apply list_elem_of_singleton in Hin. discriminate.
Defined.

Section LifecycleFacts.
Import Monitor.

(** A step of the lifecycle for the job behind a reference [a] that is
    queued last in one live queue and nowhere else, while no other live
    job has its identifier. *)
Lemma update_job_status_found m id st a j :
  find_job (objects m) id (live_queues m) = Some a ->
  objects m !! a = Some j ->
  update_job_status m id st
  = let m1 := {| objects := <[a := set_status j st]> (objects m);
                 pending_jobs := pending_jobs m;
                 scheduled_jobs := scheduled_jobs m;
                 running_jobs := running_jobs m;
                 completed_jobs := completed_jobs m;
                 failed_jobs := failed_jobs m |} in
    match move_between_queues m1 a (status j) st with
    | Ok m2 => (m2, None)
    | Raise e => (m1, Some e)
    end.
Proof.
  intros Hfind Hj. unfold update_job_status. rewrite searched_find, Hfind, Hj. done.
Qed.

Lemma placed_find m m' a j p s r c q1 q2 :
  no_dangling m -> id_absent m (job_id j) (live_queues m) ->
  a = fresh (objects m) ->
  placed m m' a j p s r c ->
  live_queues m' = q1 ++ a :: q2 ->
  (forall b, b ∈ q1 -> b ∈ live_queues m) ->
  find_job (objects m') (job_id j) (live_queues m') = Some a /\
  objects m' !! a = Some j.
Proof.
  intros Hwf Habs -> (Hobj & _) -> Hq1. rewrite Hobj. split.
  - apply (find_job_first _ _ _ _ _ j); [|by rewrite lookup_insert_eq|done].
    intros b j' Hb Hj'. apply (Habs b j'); [by apply Hq1|].
    rewrite lookup_insert_ne in Hj'; [done|]. intros <-.
    apply (fresh_not_queued m Hwf). specialize (Hq1 _ Hb).
    unfold live_queues in Hq1. unfold all_queues.
    rewrite !elem_of_app in *. tauto.
  - by rewrite lookup_insert_eq.
Qed.

End LifecycleFacts.

(** A job walks the lifecycle.  Let a pending job arrive whose
    identifier no live job has.  Then ['scheduled'], ['running'] and
    ['completed'], asked for in this order, each move the job to the
    queue of that name and leave it that status, none raises, and at the
    end the job is the last of the completed queue while all other
    queues and all other jobs are what they were before it arrived. *)
Theorem arrived_job_walks_lifecycle (m : Monitor.ComputeMonitor) (j : ComputeJob) :
  no_dangling m ->
  id_absent m (job_id j) (live_queues m) ->
  status j = "pending"%string ->
  let id := job_id j in
  let a := Monitor.fresh (Monitor.objects m) in
  let m0 := snd (Monitor.get_pending_jobs m [j]) in
  let r1 := Monitor.update_job_status m0 id "scheduled" in
  let r2 := Monitor.update_job_status (fst r1) id "running" in
  let r3 := Monitor.update_job_status (fst r2) id "completed" in
  placed m m0 a j [a] [] [] [] /\
  snd r1 = None /\ placed m (fst r1) a (set_status j "scheduled") [] [a] [] [] /\
  snd r2 = None /\ placed m (fst r2) a (set_status j "running") [] [] [a] [] /\
  snd r3 = None /\ placed m (fst r3) a (set_status j "completed") [] [] [] [a].
Proof.
  intros Hwf Habs Hst id a m0 r1 r2 r3.
  assert (Hnew : a ∉ all_queues m) by by apply fresh_not_queued.
  assert (Hp : (a ∉ Monitor.pending_jobs m) /\ (a ∉ Monitor.scheduled_jobs m) /\
               (a ∉ Monitor.running_jobs m)).
  { unfold all_queues in Hnew. rewrite !elem_of_app in Hnew. tauto. }
  destruct Hp as (Hp & Hs & Hr).
  assert (H0 : placed m m0 a j [a] [] [] []).
  { unfold placed, m0. simpl. by rewrite !app_nil_r. }
  assert (Ha : a = Monitor.fresh (Monitor.objects m)) by done.
  clearbody m0 a. split; [done|].
  (* pending -> scheduled *)
  destruct (placed_find m m0 a j _ _ _ _ (Monitor.pending_jobs m)
              (Monitor.scheduled_jobs m ++ Monitor.running_jobs m) Hwf Habs Ha H0)
    as [Hf0 Hj0].
  { destruct H0 as (_ & Hq1 & Hq2 & Hq3 & _). unfold live_queues.
    rewrite Hq1, Hq2, Hq3, !app_nil_r, <- !app_assoc. done. }
  { intros b Hb. unfold live_queues. apply elem_of_app. by left. }
  assert (H1 : snd r1 = None /\ placed m (fst r1) a (set_status j "scheduled") [] [a] [] []).
  { unfold r1. rewrite (update_job_status_found m0 id _ a j Hf0 Hj0).
    destruct H0 as (Ho & Hq1 & Hq2 & Hq3 & Hq4 & Hq5).
    cbv zeta. unfold Monitor.move_between_queues. rewrite Hst. simpl. rewrite Hq1.
    rewrite (list_remove_last a _ Hp). simpl. split; [done|].
    unfold placed. simpl. rewrite Ho, insert_insert_eq, Hq2, Hq3, Hq4, Hq5, !app_nil_r.
    done. }
  destruct H1 as [He1 H1]. split; [done|]. split; [done|].
  (* scheduled -> running *)
  destruct (placed_find m (fst r1) a (set_status j "scheduled") _ _ _ _
              (Monitor.pending_jobs m ++ Monitor.scheduled_jobs m)
              (Monitor.running_jobs m) Hwf Habs Ha H1)
    as [Hf1 Hj1].
  { destruct H1 as (_ & Hq1 & Hq2 & Hq3 & _). unfold live_queues.
    rewrite Hq1, Hq2, Hq3, !app_nil_r, <- !app_assoc. done. }
  { intros b Hb. unfold live_queues. rewrite !elem_of_app in *. tauto. }
  assert (H2 : snd r2 = None /\ placed m (fst r2) a (set_status j "running") [] [] [a] []).
  { unfold r2. rewrite (update_job_status_found (fst r1) id _ a _ Hf1 Hj1).
    destruct H1 as (Ho & Hq1 & Hq2 & Hq3 & Hq4 & Hq5).
    cbv zeta. unfold Monitor.move_between_queues. simpl. rewrite Hq2.
    rewrite (list_remove_last a _ Hs). simpl. split; [done|].
    unfold placed. simpl. rewrite Ho, insert_insert_eq, Hq1, Hq3, Hq4, Hq5, !app_nil_r.
    done. }
  destruct H2 as [He2 H2]. split; [done|]. split; [done|].
  (* running -> completed *)
  destruct (placed_find m (fst r2) a (set_status j "running") _ _ _ _
              (Monitor.pending_jobs m ++ Monitor.scheduled_jobs m ++ Monitor.running_jobs m)
              [] Hwf Habs Ha H2)
    as [Hf2 Hj2].
  { destruct H2 as (_ & Hq1 & Hq2 & Hq3 & _). unfold live_queues.
    rewrite Hq1, Hq2, Hq3, !app_nil_r, <- !app_assoc. done. }
  { intros b Hb. done. }
  unfold r3. rewrite (update_job_status_found (fst r2) id _ a _ Hf2 Hj2).
  destruct H2 as (Ho & Hq1 & Hq2 & Hq3 & Hq4 & Hq5).
  cbv zeta. unfold Monitor.move_between_queues. simpl. rewrite Hq3.
  rewrite (list_remove_last a _ Hr). simpl. split; [done|].
  unfold placed. simpl. rewrite Ho, insert_insert_eq, Hq1, Hq2, Hq4, Hq5, !app_nil_r.
  done.
Qed.

Lemma arrived_job_walks_lifecycle_witness :
  let m0 := snd (Monitor.get_pending_jobs one_completed [two_hour_job]) in
  let r1 := Monitor.update_job_status m0 "job_00002" "scheduled" in
  let r2 := Monitor.update_job_status (fst r1) "job_00002" "running" in
  let r3 := Monitor.update_job_status (fst r2) "job_00002" "completed" in
  snd r3 = None /\ Monitor.completed_jobs (fst r3) = [1%nat; 2%nat] /\
  status_of (fst r3) 2 = Some "completed"%string.
Proof.
  destruct (arrived_job_walks_lifecycle one_completed two_hour_job)
    as (_ & _ & _ & _ & _ & He & Ho & _ & _ & _ & Hc & _).
  - intros a Ha. vm_compute in Ha.
    apply elem_of_cons in Ha as [->|Ha]; [vm_compute; eauto|]. by apply elem_of_nil in Ha.
  - intros a j' Ha. vm_compute in Ha. by apply elem_of_nil in Ha.
  - reflexivity.
  - split; [exact He|]. split; [exact Hc|]. by vm_compute.
Defined.

Section CapacityFacts.
Import Monitor.

Lemma py_int_between (t : Z) (x : Q) :
  (0 <= t)%Z -> inject_Z t * (1 # 2) <= x -> x <= inject_Z t ->
  (t / 2 <= Forecaster.py_int x <= t)%Z.
Proof.
  intros Ht Hlo Hhi. unfold Forecaster.py_int.
  assert (H0 : 0 <= x).
  { assert (0 <= inject_Z t) by (change 0 with (inject_Z 0); rewrite <- Zle_Qle; lia).
    lra. }
  apply Qle_bool_iff in H0. rewrite H0. split.
  - rewrite <- (Qfloor_Z (t / 2)). apply Qfloor_resp_le.
    assert (inject_Z (t / 2) * 2 <= inject_Z t); [|lra].
    change 2 with (inject_Z 2). rewrite <- inject_Z_mult, <- Zle_Qle.
    pose proof (Z.mul_div_le t 2). lia.
  - etransitivity; [apply (Qfloor_resp_le _ _ Hhi)|]. by rewrite Qfloor_Z.
Qed.

Lemma refresh_region_within u c :
  0 <= u <= 1 # 2 ->
  (0 <= rc_cpu_cores c)%Z -> (0 <= rc_gpu_count c)%Z -> 0 <= rc_memory_gb c ->
  let c' := refresh_region u c in
  (rc_cpu_cores c / 2 <= available_cpu c' <= rc_cpu_cores c)%Z /\
  (rc_gpu_count c / 2 <= available_gpu c' <= rc_gpu_count c)%Z /\
  rc_memory_gb c * (1 # 2) <= available_memory_gb c' <= rc_memory_gb c /\
  0 <= utilization_percent c' <= 50.
Proof.
  intros Hu Hcpu Hgpu Hmem. simpl.
  assert (Hz : forall t, (0 <= t)%Z ->
            inject_Z t * (1 # 2) <= inject_Z t * (1 - u) <= inject_Z t).
  { intros t Ht.
    assert (0 <= inject_Z t) by (change 0 with (inject_Z 0); rewrite <- Zle_Qle; lia).
    split; nra. }
  split; [apply py_int_between; [done|apply Hz|apply Hz]; done|].
  split; [apply py_int_between; [done|apply Hz|apply Hz]; done|].
  split; [split; nra|]. split; lra.
Qed.

End CapacityFacts.

(** Capacity stays within the totals.  With utilization draws between 0
    and one half, as [random.uniform(0, 0.5)] gives them, [get_capacity]
    keeps the regions and their totals, and reports for every region
    available CPUs, GPUs and memory between half the total (rounded down
    for the two counts) and the total, and a utilization between 0 and
    50 percent. *)
Theorem get_capacity_within_totals (uniform : nat -> Q) (k : nat)
    (capacity : list (string * Monitor.RegionCapacity)) :
  (forall i, 0 <= uniform i <= 1 # 2) ->
  Forall (fun rc => (0 <= Monitor.rc_cpu_cores rc.2)%Z /\
                    (0 <= Monitor.rc_gpu_count rc.2)%Z /\
                    0 <= Monitor.rc_memory_gb rc.2) capacity ->
  Forall2 (fun old new =>
    new.1 = old.1 /\
    Monitor.rc_cpu_cores new.2 = Monitor.rc_cpu_cores old.2 /\
    Monitor.rc_gpu_count new.2 = Monitor.rc_gpu_count old.2 /\
    Monitor.rc_memory_gb new.2 = Monitor.rc_memory_gb old.2 /\
    (Monitor.rc_cpu_cores old.2 / 2 <= Monitor.available_cpu new.2
       <= Monitor.rc_cpu_cores old.2)%Z /\
    (Monitor.rc_gpu_count old.2 / 2 <= Monitor.available_gpu new.2
       <= Monitor.rc_gpu_count old.2)%Z /\
    Monitor.rc_memory_gb old.2 * (1 # 2) <= Monitor.available_memory_gb new.2
       <= Monitor.rc_memory_gb old.2 /\
    0 <= Monitor.utilization_percent new.2 <= 50)
    capacity (Monitor.get_capacity uniform k capacity).
Proof.
  intros Hu Hall. revert k.
  induction Hall as [|[region c] capacity (Hcpu & Hgpu & Hmem) Hall IH]; intros k; simpl.
  - constructor.
  - constructor; [|apply IH]. simpl.
    split; [done|]. split; [done|]. split; [done|]. split; [done|].
    by apply refresh_region_within.
Qed.

Lemma get_capacity_within_totals_witness :
  map (fun rc => Monitor.available_cpu rc.2)
    (Monitor.get_capacity sample_utilization 0 Monitor.datacenter_capacity)
  = [10000; 11250; 4000]%Z /\
  Forall2 (fun old new =>
    (Monitor.rc_cpu_cores old.2 / 2 <= Monitor.available_cpu new.2
       <= Monitor.rc_cpu_cores old.2)%Z)
    Monitor.datacenter_capacity
    (Monitor.get_capacity sample_utilization 0 Monitor.datacenter_capacity).
Proof.
  split; [by vm_compute|].
  eapply Forall2_impl.
  - apply (get_capacity_within_totals sample_utilization 0 Monitor.datacenter_capacity).
    + intros [|[|i]]; vm_compute; split; congruence.
    + repeat constructor; vm_compute; congruence.
  - intros old new H. apply H.
Defined.

(** ** The orchestrator agent: executing a schedule *)

Section MarkFacts.
Import Monitor.

Lemma status_of_lookup m a j :
  objects m !! a = Some j -> status_of m a = Some (status j).
Proof. intros H. unfold status_of. by rewrite H. Qed.

(** One status update to ['scheduled'] of a job that is pending or was
    marked before. *)
Lemma mark_one m id :
  pending_in_order m ->
  is_pending m id \/ marked m id ->
  exists m',
    update_job_status m id "scheduled" = (m', None) /\
    pending_in_order m' /\
    marked m' id /\
    (forall id', is_pending m id' \/ marked m id' -> is_pending m' id' \/ marked m' id') /\
    (forall id', marked m id' -> marked m' id').
Proof.
  intros (Hnd & Hpend & Hlive) Hid.
  destruct (find_job (objects m) id (pending_jobs m)) as [a|] eqn:Hfind.
  - (* the job waits in the pending queue: it moves *)
    destruct (find_job_some _ _ _ _ Hfind) as (Ha & j & Hj & Hidj).
    assert (Hst : status j = "pending"%string).
    { specialize (Hpend a Ha). rewrite (status_of_lookup m a j Hj) in Hpend. congruence. }
    destruct (list_remove_elem a (pending_jobs m) Ha) as [p' Hrm].
    pose proof (list_remove_perm _ _ _ Hrm) as Hperm.
    assert (Hnd' : NoDup (a :: p')) by by rewrite <- Hperm.
    apply NoDup_cons in Hnd' as [Hap' Hnd'].
    assert (Hsub : forall b, b ∈ p' -> b ∈ pending_jobs m /\ b <> a).
    { intros b Hb. split; [rewrite Hperm; by right|]. by intros ->. }
    eexists. split.
    { unfold update_job_status. rewrite Hfind, Hj.
      unfold move_between_queues. rewrite Hst. simpl. rewrite Hrm. simpl. reflexivity. }
    assert (Hmark : forall id', id' = id ->
              marked (set_queues
                {| objects := <[a := set_status j "scheduled"]> (objects m);
                   pending_jobs := pending_jobs m; scheduled_jobs := scheduled_jobs m;
                   running_jobs := running_jobs m; completed_jobs := completed_jobs m;
                   failed_jobs := failed_jobs m |}
                p' (scheduled_jobs m ++ [a]) (running_jobs m) (completed_jobs m)
                (failed_jobs m)) id').
    { intros id' ->. exists a, (set_status j "scheduled"). simpl.
      split; [apply elem_of_app; right; left|].
      by rewrite lookup_insert_eq. }
    assert (Hkeep : forall id', marked m id' ->
              marked (set_queues
                {| objects := <[a := set_status j "scheduled"]> (objects m);
                   pending_jobs := pending_jobs m; scheduled_jobs := scheduled_jobs m;
                   running_jobs := running_jobs m; completed_jobs := completed_jobs m;
                   failed_jobs := failed_jobs m |}
                p' (scheduled_jobs m ++ [a]) (running_jobs m) (completed_jobs m)
                (failed_jobs m)) id').
    { intros id' (b & j' & Hb & Hj' & Hid' & Hst').
      exists b, j'. simpl. split; [apply elem_of_app; by left|].
      split; [|done]. rewrite lookup_insert_ne; [done|].
      intros <-. congruence. }
    split; [|split; [by apply Hmark|split; [|done]]].
    + split; [done|]. simpl. split.
      * intros b Hb. destruct (Hsub b Hb) as [Hb' Hne].
        unfold status_of. simpl. rewrite lookup_insert_ne by done. by apply Hpend.
      * intros b Hb. unfold status_of. simpl.
        destruct (decide (b = a)) as [->|Hne].
        -- by rewrite lookup_insert_eq.
        -- rewrite lookup_insert_ne by done. apply Hlive.
           rewrite !elem_of_app, list_elem_of_singleton in Hb.
           rewrite elem_of_app. tauto.
    + intros id' [(b & j' & Hb & Hj' & Hid')|Hm]; [|right; by apply Hkeep].
      destruct (decide (b = a)) as [->|Hne].
      * right. apply Hmark. congruence.
      * left. exists b, j'. simpl. split.
        -- rewrite Hperm in Hb. apply elem_of_cons in Hb as [?|?]; done.
        -- by rewrite lookup_insert_ne.
  - (* no pending job has the identifier: it was marked before *)
    assert (Hmarked : marked m id).
    { destruct Hid as [(b & j' & Hb & Hj' & Hid')|?]; [|done].
      rewrite find_job_none in Hfind. by destruct (Hfind b j' Hb Hj'). }
    destruct Hmarked as (b0 & j0 & Hb0 & Hj0 & Hid0 & Hst0).
    destruct (find_job (objects m) id (scheduled_jobs m ++ running_jobs m)) as [b|] eqn:Hf2.
    2:{ rewrite find_job_none in Hf2. destruct (Hf2 b0 j0); [|done|done].
        apply elem_of_app. by left. }
    destruct (find_job_some _ _ _ _ Hf2) as (Hb & j & Hj & Hidj).
    assert (Hst : String.eqb (status j) "pending" = false).
    { apply String.eqb_neq. intros Heq. apply (Hlive b Hb).
      by rewrite (status_of_lookup m b j Hj), Heq. }
    assert (Hbp : b ∉ pending_jobs m).
    { intros Hin. apply (Hlive b Hb). by apply Hpend. }
    eexists. split.
    { unfold update_job_status. rewrite Hfind, Hf2, Hj.
      unfold move_between_queues. rewrite Hst. simpl. reflexivity. }
    assert (Hkeep : forall id', marked m id' ->
              marked {| objects := <[b := set_status j "scheduled"]> (objects m);
                        pending_jobs := pending_jobs m; scheduled_jobs := scheduled_jobs m;
                        running_jobs := running_jobs m;
                        completed_jobs := completed_jobs m;
                        failed_jobs := failed_jobs m |} id').
    { intros id' (c & j' & Hc & Hj' & Hid' & Hst').
      destruct (decide (c = b)) as [->|Hne].
      - exists b, (set_status j "scheduled"). simpl. split; [done|].
        rewrite lookup_insert_eq. split; [done|]. split; [congruence|done].
      - exists c, j'. simpl. split; [done|]. by rewrite lookup_insert_ne. }
    split; [|split; [|split; [|done]]].
    + split; [done|]. simpl. split.
      * intros c Hc. unfold status_of. simpl.
        rewrite lookup_insert_ne by (intros <-; done). by apply Hpend.
      * intros c Hc. unfold status_of. simpl.
        destruct (decide (c = b)) as [->|Hne].
        -- by rewrite lookup_insert_eq.
        -- rewrite lookup_insert_ne by done. by apply Hlive.
    + apply Hkeep. by exists b0, j0.
    + intros id' [(c & j' & Hc & Hj' & Hid')|Hm]; [|right; by apply Hkeep].
      left. exists c, j'. simpl. split; [done|].
      rewrite lookup_insert_ne by (intros <-; done). done.
Qed.

Lemma mark_scheduled_all m schedule :
  pending_in_order m ->
  (forall s, s ∈ schedule ->
     is_pending m (job_id (sj_job s)) \/ marked m (job_id (sj_job s))) ->
  snd (Agent.mark_scheduled m schedule) = None /\
  pending_in_order (fst (Agent.mark_scheduled m schedule)) /\
  (forall s, s ∈ schedule ->
     marked (fst (Agent.mark_scheduled m schedule)) (job_id (sj_job s))) /\
  (forall id, marked m id -> marked (fst (Agent.mark_scheduled m schedule)) id).
Proof.
  revert m. induction schedule as [|s schedule IH]; intros m Hinv Hall; simpl.
  { split; [done|]. split; [done|]. split; [|done].
    intros s Hs. by apply elem_of_nil in Hs. }
  destruct (mark_one m (job_id (sj_job s)) Hinv) as (m' & -> & Hinv' & Hm & Hmove & Hkeep).
  { apply Hall. left. }
  destruct (IH m' Hinv') as (Hnone & Hinv'' & Hmarked & Hkeep').
  { intros s' Hs'. apply Hmove, Hall. by right. }
  split; [done|]. split; [done|]. split.
  - intros s' Hs'. apply elem_of_cons in Hs' as [->|Hs']; [by apply Hkeep'|by apply Hmarked].
  - intros id Hid. by apply Hkeep', Hkeep.
Qed.

End MarkFacts.

Lemma beckn_execute_schedule_ok (Net : Type)
    (post : Net -> string -> Beckn.Payload -> Beckn.HttpOutcome * Net)
    (uuid4 : nat -> string) (schedule : list ScheduledJob) (s : Beckn.State Net) :
  fst (Beckn.execute_schedule Net post uuid4 schedule s) = Ok ().
Proof.
  revert s. induction schedule as [|sj schedule IH]; intros s; [done|].
  simpl. unfold Beckn.bind.
  destruct (execute_guarded_started Net post uuid4 sj s) as [Hok _].
  destruct (Beckn.execute_guarded Net post uuid4 sj s) as [[[]|e] s1]; [|done].
  apply IH.
Qed.

(** Executing a schedule marks its jobs scheduled, confirmed or not.
    Let the pending queue hold each job once and with the status
    ['pending'], no scheduled or running job have that status, and every
    job of the schedule wait in the pending queue.  Then, whatever the
    counterparty and the network answer (also when every transaction
    fails), [OrchestratorAgent.execute_schedule] raises nothing in its
    status updates and leaves every job of the schedule in the scheduled
    queue with the status ['scheduled']; the protocol side is left as
    [BecknOrchestrator.execute_schedule] leaves it. *)
Theorem execute_schedule_marks_jobs (Net : Type)
    (post : Net -> string -> Beckn.Payload -> Beckn.HttpOutcome * Net)
    (uuid4 : nat -> string) (self : Agent.OrchestratorAgent Net)
    (schedule : list ScheduledJob) :
  pending_in_order (Agent.compute_monitor Net self) ->
  (forall s, s ∈ schedule ->
     is_pending (Agent.compute_monitor Net self) (job_id (sj_job s))) ->
  let self' := Agent.execute_schedule Net post uuid4 self schedule in
  snd (Agent.mark_scheduled (Agent.compute_monitor Net self) schedule) = None /\
  Agent.compute_monitor Net self'
    = fst (Agent.mark_scheduled (Agent.compute_monitor Net self) schedule) /\
  Agent.beckn_orchestrator Net self'
    = match schedule with
      | [] => Agent.beckn_orchestrator Net self
      | _ => snd (Beckn.execute_schedule Net post uuid4 schedule
                    (Agent.beckn_orchestrator Net self))
      end /\
  (forall s, s ∈ schedule ->
     marked (Agent.compute_monitor Net self') (job_id (sj_job s))).
Proof.
  intros Hinv Hall self'.
  destruct (mark_scheduled_all (Agent.compute_monitor Net self) schedule Hinv)
    as (Hnone & _ & Hmarked & _).
  { intros s Hs. left. by apply Hall. }
  assert (Hm : Agent.compute_monitor Net self'
               = fst (Agent.mark_scheduled (Agent.compute_monitor Net self) schedule) /\
               Agent.beckn_orchestrator Net self'
               = match schedule with
                 | [] => Agent.beckn_orchestrator Net self
                 | _ => snd (Beckn.execute_schedule Net post uuid4 schedule
                               (Agent.beckn_orchestrator Net self))
                 end).
  { unfold self', Agent.execute_schedule. destruct schedule as [|s schedule]; [done|].
    pose proof (beckn_execute_schedule_ok Net post uuid4 (s :: schedule)
                  (Agent.beckn_orchestrator Net self)) as Hok.
    destruct (Beckn.execute_schedule Net post uuid4 (s :: schedule) _) as [[[]|e] s'];
      [done|discriminate]. }
  destruct Hm as [Hm Hb].
  split; [done|]. split; [done|]. split; [done|]. by rewrite Hm.
Qed.

Lemma execute_schedule_marks_jobs_witness :
  let self' := Agent.execute_schedule unit moody_post sample_uuid4 sample_agent
                 [sample_entry "job_00001" "scotland"] in
  Beckn.active_transactions unit (Agent.beckn_orchestrator unit self') = ∅ /\
  marked (Agent.compute_monitor unit self') "job_00001".
Proof.
  split; [by vm_compute|].
  destruct (execute_schedule_marks_jobs unit moody_post sample_uuid4 sample_agent
              [sample_entry "job_00001" "scotland"]) as (_ & _ & _ & Hmarked).
  - split; [|split].
    + vm_compute. repeat constructor. by intros ?%elem_of_nil.
    + intros a Ha. vm_compute in Ha.
      apply elem_of_cons in Ha as [->|Ha]; [by vm_compute|]. by apply elem_of_nil in Ha.
    + intros a Ha. vm_compute in Ha. by apply elem_of_nil in Ha.
  - intros s Hs. apply list_elem_of_singleton in Hs as ->.
    exists 1%nat, (sample_job true true). split; [vm_compute; left|].
    split; by vm_compute.
  - apply (Hmarked (sample_entry "job_00001" "scotland")). left.
Defined.

(** ** The exchange of one job with the counterparty *)

Section ExchangeFacts.
Import Beckn.

Variable Net : Type.
Variable post : Net -> string -> Payload -> HttpOutcome * Net.
Variable uuid4 : nat -> string.

Ltac exchange_start Hne :=
  apply String.eqb_neq in Hne;
  unfold _execute_single_job, search, select, init_order, confirm, request,
    _build_context, _make_request, bind, new_uuid, print, lift, read_clock, http_post,
    record_transaction, ret, raise, now; simpl.

Ltac exchange_step :=
  match goal with
  | |- context [post ?n ?e ?p] =>
      let o := fresh "o" in
      let n' := fresh "n" in
      let E := fresh "Hpost" in
      destruct (post n e p) as [o n'] eqn:E; destruct o as [[[?|]]| |]; simpl
  end.

(** What one exchange leaves in the list of requests sent. *)
Lemma single_job_sent sj (s : State Net) :
  uuid4 (uuids Net s) <> ""%string ->
  exists k, (k <= 4)%nat /\
    sent Net (snd (_execute_single_job Net post uuid4 sj s))
    = sent Net s ++ take k (job_requests Net uuid4 sj s) /\
    (k = 0%nat <-> sj_start_datetime sj = None \/ sj_end_datetime sj = None).
Proof.
  intros Hne. exchange_start Hne.
  destruct (sj_start_datetime sj) as [t0|] eqn:Ht0; simpl.
  2:{ exists 0%nat. rewrite app_nil_r. split; [lia|]. split; [done|]. tauto. }
  destruct (sj_end_datetime sj) as [t1|] eqn:Ht1; simpl.
  2:{ exists 0%nat. rewrite app_nil_r. split; [lia|]. split; [done|]. tauto. }
  rewrite Hne. simpl.
  assert (Hk : forall k : nat, (0 < k)%nat ->
            k = 0%nat <-> Some t0 = None \/ Some t1 = None (A:=Z)).
  { intros k Hk. split; [lia|]. by intros [|]. }
  set (requests := job_requests Net uuid4 sj s).
  assert (Hreqs : requests = job_requests Net uuid4 sj s) by done.
  unfold job_requests, job_context in Hreqs. rewrite Ht0, Ht1 in Hreqs.
  simpl in Hreqs.
  repeat exchange_step; rewrite <- ?app_assoc; simpl.
  all: first
    [ exists 1%nat; split; [lia|]; split; [by rewrite Hreqs|apply Hk; lia]
    | exists 2%nat; split; [lia|]; split; [by rewrite Hreqs|apply Hk; lia]
    | exists 3%nat; split; [lia|]; split; [by rewrite Hreqs|apply Hk; lia]
    | exists 4%nat; split; [lia|]; split; [by rewrite Hreqs|apply Hk; lia] ].
Qed.

(** The order book after one exchange. *)
Lemma single_job_record sj (s : State Net) :
  uuid4 (uuids Net s) <> ""%string ->
  let final := _execute_single_job Net post uuid4 sj s in
  let tid := uuid4 (uuids Net s) in
  active_transactions Net (snd final) = active_transactions Net s \/
  (exists n payload body n',
     job_requests Net uuid4 sj s !! 3%nat = Some ("confirm"%string, payload) /\
     post n "confirm" payload = (Http200 body, n') /\ error body = None) /\
  fst final = Ok () /\
  sent Net (snd final) = sent Net s ++ job_requests Net uuid4 sj s /\
  active_transactions Net (snd final)
  = <[("order_" ++ prefix 12 tid)%string :=
        {| tx_job := sj_job sj; tx_transaction_id := tid; tx_scheduled := sj;
           tx_status := "CONFIRMED";
           tx_confirmed_at := reading (clock Net s) (4 + ticks (clock Net s)) |}]>
      (active_transactions Net s).
Proof.
  intros Hne. exchange_start Hne.
  destruct (sj_start_datetime sj) as [t0|] eqn:Ht0; simpl; [|by left].
  destruct (sj_end_datetime sj) as [t1|] eqn:Ht1; simpl; [|by left].
  rewrite Hne. simpl.
  set (requests := job_requests Net uuid4 sj s).
  assert (Hreqs : requests = job_requests Net uuid4 sj s) by done.
  unfold job_requests, job_context in Hreqs. rewrite Ht0, Ht1 in Hreqs.
  simpl in Hreqs.
  repeat exchange_step; rewrite <- ?app_assoc; simpl.
  all: try (by left).
  all: right; rewrite Hreqs; (split; [|done]).
  all: eexists _, _, _, _; (split; [reflexivity|]); (split; [eassumption|done]).
Qed.

Ltac accepted_step Hacc :=
  match goal with
  | |- context [post ?n ?e ?p] =>
      let o := fresh "o" in
      let n' := fresh "n" in
      let E := fresh "Hpost" in
      let Ha := fresh "Ha" in
      pose proof (Hacc n e p) as Ha;
      destruct (post n e p) as [o n'] eqn:E; destruct o as [[[?|]]| |]; simpl in *;
      try done;
      try (destruct Ha as [Ha|Ha]; discriminate Ha);
      try (by (assert (Some _ = None (A:=string)) by (apply Ha; auto)));
      clear Ha
  end.

(** The exchange with a counterparty that accepts the search and the
    confirmation. *)
Lemma single_job_accepted sj (s : State Net) t0 t1 :
  accepts_orders Net post ->
  uuid4 (uuids Net s) <> ""%string ->
  sj_start_datetime sj = Some t0 -> sj_end_datetime sj = Some t1 ->
  let final := _execute_single_job Net post uuid4 sj s in
  let tid := uuid4 (uuids Net s) in
  fst final = Ok () /\
  sent Net (snd final) = sent Net s ++ job_requests Net uuid4 sj s /\
  active_transactions Net (snd final)
  = <[("order_" ++ prefix 12 tid)%string :=
        {| tx_job := sj_job sj; tx_transaction_id := tid; tx_scheduled := sj;
           tx_status := "CONFIRMED";
           tx_confirmed_at := reading (clock Net s) (4 + ticks (clock Net s)) |}]>
      (active_transactions Net s).
Proof.
  intros Hacc Hne Ht0 Ht1. exchange_start Hne.
  unfold job_requests, job_context. rewrite Ht0, Ht1. simpl. rewrite Hne. simpl.
  repeat accepted_step Hacc; rewrite <- ?app_assoc; simpl; done.
Qed.

End ExchangeFacts.

(** One job, one transaction identifier, at most four requests in the
    order of the protocol.  When the identifiers drawn are not empty,
    the requests that [_execute_single_job] sends are the first [k] of
    search, select, init and confirm for some [k]: each goes to the
    endpoint of its action, all carry the transaction identifier drawn
    when the job was begun, and each has the next fresh message
    identifier.  No request is sent exactly when the schedule entry has
    no start or no end time. *)
Theorem single_job_requests (Net : Type)
    (post : Net -> string -> Beckn.Payload -> Beckn.HttpOutcome * Net)
    (uuid4 : nat -> string) (sj : ScheduledJob) (s : Beckn.State Net) :
  uuid4 (Beckn.uuids Net s) <> ""%string ->
  let requests := job_requests Net uuid4 sj s in
  (exists k, (k <= 4)%nat /\
     Beckn.sent Net (snd (Beckn._execute_single_job Net post uuid4 sj s))
     = Beckn.sent Net s ++ take k requests /\
     (k = 0%nat <-> sj_start_datetime sj = None \/ sj_end_datetime sj = None)) /\
  map fst requests = ["search"; "select"; "init"; "confirm"]%string /\
  Forall (fun r => Beckn.action (Beckn.context r.2) = r.1 /\
                   Beckn.transaction_id (Beckn.context r.2) = uuid4 (Beckn.uuids Net s))
    requests /\
  map (fun r => Beckn.message_id (Beckn.context r.2)) requests
  = map (fun i : nat => uuid4 (i + Beckn.uuids Net s)%nat) [1; 2; 3; 4]%nat.
Proof.
  intros Hne requests. split; [by apply single_job_sent|].
  split; [done|]. split; [|done]. by repeat constructor.
Qed.

Lemma single_job_requests_witness :
  Beckn.sent unit (snd (Beckn._execute_single_job unit moody_post sample_uuid4
                          (sample_entry "job_a" "north") fresh_state))
  = take 1 (job_requests unit sample_uuid4 (sample_entry "job_a" "north") fresh_state) /\
  map fst (job_requests unit sample_uuid4 (sample_entry "job_a" "north") fresh_state)
  = ["search"; "select"; "init"; "confirm"]%string.
Proof.
  destruct (single_job_requests unit moody_post sample_uuid4
              (sample_entry "job_a" "north") fresh_state) as (_ & Hep & _).
  - by vm_compute.
  - split; [by vm_compute | exact Hep].
Defined.

(** An order is booked only on a confirmation.  After
    [_execute_single_job] the table of active transactions is what it
    was, or all four requests were sent, the counterparty answered the
    confirmation with status 200 and without an error, and the table
    has one entry more or renewed: the job's transaction, with the
    status ['CONFIRMED'], under the key [order_] followed by the first
    twelve characters of the transaction identifier.  Nothing is ever
    removed from the table. *)
Theorem transaction_booked_only_when_confirmed (Net : Type)
    (post : Net -> string -> Beckn.Payload -> Beckn.HttpOutcome * Net)
    (uuid4 : nat -> string) (sj : ScheduledJob) (s : Beckn.State Net) :
  uuid4 (Beckn.uuids Net s) <> ""%string ->
  let final := Beckn._execute_single_job Net post uuid4 sj s in
  let tid := uuid4 (Beckn.uuids Net s) in
  let booked := Beckn.active_transactions Net (snd final) in
  (booked = Beckn.active_transactions Net s \/
   (exists n payload body n',
      job_requests Net uuid4 sj s !! 3%nat = Some ("confirm"%string, payload) /\
      post n "confirm" payload = (Beckn.Http200 body, n') /\ Beckn.error body = None) /\
   fst final = Ok () /\
   Beckn.sent Net (snd final) = Beckn.sent Net s ++ job_requests Net uuid4 sj s /\
   exists t,
     booked
     = <[("order_" ++ Beckn.prefix 12 tid)%string :=
           {| Beckn.tx_job := sj_job sj; Beckn.tx_transaction_id := tid;
              Beckn.tx_scheduled := sj; Beckn.tx_status := "CONFIRMED";
              Beckn.tx_confirmed_at := t |}]>
         (Beckn.active_transactions Net s)) /\
  (forall order,
     is_Some (Beckn.active_transactions Net s !! order) -> is_Some (booked !! order)).
Proof.
  intros Hne final tid booked.
  pose proof (single_job_record Net post uuid4 sj s Hne) as Hrec.
  fold final tid booked in Hrec. cbv zeta in Hrec.
  assert (Hcases : booked = Beckn.active_transactions Net s \/
            exists tx, booked = <[("order_" ++ Beckn.prefix 12 tid)%string := tx]>
                                  (Beckn.active_transactions Net s)).
  { destruct Hrec as [?|(_ & _ & _ & Hb)]; [by left|right; eauto]. }
  split.
  - destruct Hrec as [?|(Hpost & Hok & Hsent & Hb)]; [by left|right].
    split; [done|]. split; [done|]. split; [done|]. eauto.
  - intros order Hsome. destruct Hcases as [->|[tx ->]]; [done|].
    destruct (decide (("order_" ++ Beckn.prefix 12 tid)%string = order)) as [<-|Hne'].
    + rewrite lookup_insert_eq. eauto.
    + by rewrite lookup_insert_ne.
Qed.

Lemma transaction_booked_only_when_confirmed_witness :
  let final := Beckn._execute_single_job unit moody_post sample_uuid4
                 (sample_entry "job_a" "north") fresh_state in
  Beckn.active_transactions unit (snd final) = ∅ /\
  (forall order,
     is_Some (Beckn.active_transactions unit fresh_state !! order) ->
     is_Some (Beckn.active_transactions unit (snd final) !! order)).
Proof.
  destruct (transaction_booked_only_when_confirmed unit moody_post sample_uuid4
              (sample_entry "job_a" "north") fresh_state) as [_ Hkeep].
  - by vm_compute.
  - split; [by vm_compute | exact Hkeep].
Defined.

(** Only the search and the confirmation can refuse an order.  If the
    transport reaches the counterparty and the counterparty accepts the
    search and the confirmation, then, whatever it answers to the
    selection and to the initialisation (an error status and an error
    body included), [_execute_single_job] returns, sends all four
    requests and books the order as ['CONFIRMED']. *)
Theorem order_confirmed_despite_select_and_init_errors (Net : Type)
    (post : Net -> string -> Beckn.Payload -> Beckn.HttpOutcome * Net)
    (uuid4 : nat -> string) (sj : ScheduledJob) (s : Beckn.State Net) (t0 t1 : Z) :
  accepts_orders Net post ->
  uuid4 (Beckn.uuids Net s) <> ""%string ->
  sj_start_datetime sj = Some t0 ->
  sj_end_datetime sj = Some t1 ->
  let final := Beckn._execute_single_job Net post uuid4 sj s in
  let tid := uuid4 (Beckn.uuids Net s) in
  fst final = Ok () /\
  Beckn.sent Net (snd final) = Beckn.sent Net s ++ job_requests Net uuid4 sj s /\
  (Beckn.tx_status <$>
     Beckn.active_transactions Net (snd final) !! ("order_" ++ Beckn.prefix 12 tid)%string)
  = Some "CONFIRMED"%string /\
  (Beckn.tx_job <$>
     Beckn.active_transactions Net (snd final) !! ("order_" ++ Beckn.prefix 12 tid)%string)
  = Some (sj_job sj).
Proof.
  intros Hacc Hne Ht0 Ht1 final tid.
  destruct (single_job_accepted Net post uuid4 sj s t0 t1 Hacc Hne Ht0 Ht1)
    as (Hok & Hsent & Hbook).
  fold final tid in Hok, Hsent, Hbook.
  split; [done|]. split; [done|]. rewrite Hbook, lookup_insert_eq. done.
Qed.

Lemma order_confirmed_despite_select_and_init_errors_witness :
  let final := Beckn._execute_single_job unit grudging_post sample_uuid4
                 (sample_entry "job_c" "south") fresh_state in
  fst final = Ok () /\
  map fst (Beckn.sent unit (snd final)) = ["search"; "select"; "init"; "confirm"]%string /\
  (Beckn.tx_status <$>
     Beckn.active_transactions unit (snd final) !! "order_a3f2c1de-000"%string)
  = Some "CONFIRMED"%string.
Proof.
  destruct (order_confirmed_despite_select_and_init_errors unit grudging_post sample_uuid4
              (sample_entry "job_c" "south") fresh_state 0 3600)
    as (Hok & Hsent & Hst & _).
  - intros [] endpoint payload. unfold grudging_post.
    destruct (String.eqb_spec endpoint "select") as [->|]; [by left|].
    destruct (String.eqb_spec endpoint "init") as [->|]; [|done].
    by intros [|].
  - by vm_compute.
  - reflexivity.
  - reflexivity.
  - split; [exact Hok|]. split; [by rewrite Hsent|]. exact Hst.
Defined.

(** ** The grid data ingestor: the summaries of a forecast *)

Section GridSummaryFacts.
Import Ingestor.

Lemma list_min_le x xs : list_min x xs <= x.
Proof.
  unfold list_min. revert x. induction xs as [|y xs IH]; intros x; simpl; [lra|].
  destruct (Qlt_le_dec y x) as [Hlt|Hle]; [|apply IH].
  specialize (IH y). lra.
Qed.

Lemma list_min_lower x xs v : v ∈ x :: xs -> list_min x xs <= v.
Proof.
  unfold list_min. revert x. induction xs as [|y xs IH]; intros x Hv; simpl.
  - apply list_elem_of_singleton in Hv as ->. lra.
  - apply elem_of_cons in Hv as [->|Hv].
    + destruct (Qlt_le_dec y x) as [Hlt|Hle].
      * pose proof (list_min_le y xs) as H. unfold list_min in H. lra.
      * apply IH. left.
    + destruct (Qlt_le_dec y x) as [Hlt|Hle].
      * apply IH. done.
      * apply elem_of_cons in Hv as [->|Hv].
        -- pose proof (list_min_le x xs) as H. unfold list_min in H. lra.
        -- apply IH. by right.
Qed.

Lemma list_min_elem x xs : list_min x xs ∈ x :: xs.
Proof.
  unfold list_min. revert x. induction xs as [|y xs IH]; intros x; simpl; [left|].
  destruct (Qlt_le_dec y x).
  - right. apply IH.
  - specialize (IH x). apply elem_of_cons in IH as [->|IH]; [left|right; by right].
Qed.

(** [values.index(v)] of a value that occurs: the first position that
    holds a number equal to [v]. *)
Lemma list_index_first v xs :
  (exists y, y ∈ xs /\ y == v) ->
  exists i y, list_index v xs = Z.of_nat i /\ xs !! i = Some y /\ y == v /\
    forall k z, (k < i)%nat -> xs !! k = Some z -> ~ z == v.
Proof.
  induction xs as [|x xs IH]; intros (y & Hy & Hyv); [by apply elem_of_nil in Hy|].
  simpl. destruct (Qeq_bool x v) eqn:Hx.
  - apply Qeq_bool_iff in Hx. exists 0%nat, x. repeat split; [done|]. intros k z Hk. lia.
  - assert (Hne : ~ x == v).
    { intros Hq. apply Qeq_bool_iff in Hq. congruence. }
    apply elem_of_cons in Hy as [->|Hy]; [done|].
    destruct IH as (i & y' & Hi & Hl & Hq & Hfirst); [eauto|].
    exists (S i), y'. rewrite Hi. split; [lia|]. split; [done|]. split; [done|].
    intros [|k] z Hk; simpl.
    + by intros [= <-].
    + apply Hfirst. lia.
Qed.




End GridSummaryFacts.

(** The best hour of a region.  For a region with values,
    [_find_min_hour] gives a value that no value of the region
    undercuts, and the first hour at which the region has that value;
    a region without values, like a region the data does not have, gets
    no entry. *)
Theorem find_min_hour_first_minimum (data : gmap string (list Q)) (region : string) :
  match data !! region with
  | Some (x :: xs) =>
      exists hour value at_hour,
        Ingestor._find_min_hour data !! region = Some (Z.of_nat hour, value) /\
        (x :: xs) !! hour = Some at_hour /\ at_hour == value /\
        (forall v, v ∈ x :: xs -> value <= v) /\
        (forall k v, (k < hour)%nat -> (x :: xs) !! k = Some v -> value < v)
  | _ => Ingestor._find_min_hour data !! region = None
  end.
Proof.
  unfold Ingestor._find_min_hour. rewrite lookup_omap.
  destruct (data !! region) as [[|x xs]|]; simpl; [done| |done].
  pose proof (list_min_elem x xs) as Helem.
  pose proof (list_min_lower x xs) as Hlow.
  destruct (list_index_first (Ingestor.list_min x xs) (x :: xs))
    as (i & y & Hi & Hl & Hq & Hfirst).
  { exists (Ingestor.list_min x xs). split; [done|reflexivity]. }
  exists i, (Ingestor.list_min x xs), y.
  change (if Qeq_bool x (Ingestor.list_min x xs) then 0%Z
          else (1 + Ingestor.list_index (Ingestor.list_min x xs) xs)%Z)
    with (Ingestor.list_index (Ingestor.list_min x xs) (x :: xs)).
  rewrite Hi. split; [done|]. split; [done|]. split; [done|]. split; [done|].
  intros k v Hk Hv.
  assert (Hle : Ingestor.list_min x xs <= v).
  { apply Hlow. by apply list_elem_of_lookup_2 in Hv. }
  assert (Hne : ~ v == Ingestor.list_min x xs) by by apply (Hfirst k).
  destruct (Qlt_le_dec (Ingestor.list_min x xs) v) as [|Hge]; [done|].
  destruct Hne. by apply Qle_antisym.
Qed.



(** ** From the ingestor to the orchestrator *)




(** ** The ledger: its lines, its outcome, its regional totals *)

Section LineFacts.
Import Json.

Lemma escape_char_printable c : forallb printable (escape_char c) = true.
Proof. destruct c as [[] [] [] [] [] [] [] []]; reflexivity. Qed.

Lemma number_char_printable c : number_char c = true -> printable c = true.
Proof. destruct c as [[] [] [] [] [] [] [] []]; by vm_compute. Qed.

Lemma dumps_string_printable s : forallb printable (dumps_string s) = true.
Proof.
  unfold dumps_string. cbn [forallb]. rewrite forallb_app.
  assert (forallb printable (escape_body (list_ascii_of_string s)) = true) as ->.
  { induction (list_ascii_of_string s) as [|c l IH]; [done|].
    rewrite escape_body_cons, forallb_app, escape_char_printable. exact IH. }
  reflexivity.
Qed.

#[local] Arguments dumps_string : simpl never.

Lemma dumps_plain_printable v :
  well_formed v = true -> forallb printable (dumps_plain v) = true.
Proof.
  induction v as [|b|l|s|l IH|d IH] using json_ind'; intros Hwf.
  - reflexivity.
  - by destruct b.
  - apply number_literal_chars in Hwf as (c & cs & Hl & _ & Hcs).
    simpl. unfold text. rewrite Hl.
    clear Hl. induction (c :: cs) as [|x xs IHx]; [done|]. simpl in *.
    apply andb_prop in Hcs as [Hx Hxs]. by rewrite (number_char_printable x Hx), IHx.
  - apply dumps_string_printable.
  - simpl in Hwf. destruct l as [|x rest]; [reflexivity|].
    rewrite dumps_list, !forallb_app. simpl in Hwf.
    apply andb_prop in Hwf as [Hx Hrest].
    apply Forall_cons in IH as [IHx IHrest]. rewrite (IHx Hx). simpl.
    clear IHx Hx. induction IHrest as [|y rest IHy _ IHr]; [reflexivity|].
    simpl in Hrest. apply andb_prop in Hrest as [Hy Hrest].
    rewrite more_elements_cons, !forallb_app, (IHy Hy), (IHr Hrest). reflexivity.
  - simpl in Hwf. destruct d as [|[k x] rest]; [reflexivity|].
    rewrite dumps_dict, !forallb_app. simpl in Hwf.
    apply andb_prop in Hwf as [Hx Hrest].
    apply Forall_cons in IH as [IHx IHrest]. simpl in IHx.
    rewrite (IHx Hx), dumps_string_printable. simpl.
    clear IHx Hx. induction IHrest as [|[k' y] rest IHy _ IHr]; [reflexivity|].
    simpl in Hrest, IHy. apply andb_prop in Hrest as [Hy Hrest].
    rewrite more_items_cons, !forallb_app, (IHy Hy), (IHr Hrest), dumps_string_printable.
    reflexivity.
Qed.

End LineFacts.

(** A record of the ledger is one line.  With a [float] printer that
    prints number literals, the text [log_decision] appends to the log
    is the serialization of the record it wrote followed by one newline;
    the serialization is printable ASCII throughout, so it has no
    newline of its own; and no other well-formed record has the same
    serialization, so the line gives the record back. *)
Theorem ledger_record_is_one_line
    (float_repr : Q -> string) (isoformat strftime : Z -> string)
    (self : Audit.AuditLogger) (jobs : list ComputeJob) (schedule : list ScheduledJob)
    (grid_state : GridForecast) (clock : Clock) (record : Json.json) :
  (forall q, number_literal (float_repr q) = true) ->
  let logged := Audit.log_decision float_repr isoformat strftime self jobs schedule
                  grid_state clock in
  Audit.written logged = Some record ->
  let line := Json.dumps false record in
  last (Audit.decision_log (Audit.logger logged)) = Some (line ++ [ascii_of_nat 10]) /\
  length (Audit.decision_log (Audit.logger logged))
  = S (length (Audit.decision_log self)) /\
  forallb printable line = true /\
  (ascii_of_nat 10 ∉ line) /\
  (forall record', well_formed record' = true ->
     Json.dumps false record' = line -> record' = record).
Proof.
  intros Hrepr logged Hwritten line. subst logged line.
  unfold Audit.log_decision in *.
  destruct (Audit.decision_entry _ _ _ self jobs schedule grid_state clock)
    as [[entry clock']|e] eqn:Hentry; [|done].
  simpl in Hwritten. injection Hwritten as <-. simpl.
  destruct (decision_entry_fields _ _ _ Hrepr _ _ _ _ _ _ _ Hentry) as [Hwf _].
  set (record := Json.JDict (Json.dict_set "hash" _ entry)).
  assert (Hwf' : well_formed record = true).
  { apply well_formed_dict_set; [done|reflexivity]. }
  assert (Hprint : forallb printable (Json.dumps false record) = true).
  { by apply dumps_plain_printable. }
  split; [by rewrite last_snoc|]. split; [rewrite length_app; simpl; lia|].
  split; [done|]. split.
  - intros Hin. rewrite forallb_forall in Hprint.
    apply list_elem_of_In, Hprint in Hin. discriminate Hin.
  - intros record' Hw Heq. by apply dumps_plain_inj.
Qed.

Lemma ledger_record_is_one_line_witness :
  exists record,
    Audit.written ledger_logged = Some record /\
    length (Audit.decision_log (Audit.logger ledger_logged)) = 1%nat /\
    (ascii_of_nat 10 ∉ Json.dumps false record).
Proof.
  destruct (ledger_record_is_one_line decimal_repr seconds_stamp seconds_stamp
              Audit.init [ledger_job] ledger_schedule ledger_grid_state sample_clock
              (default Json.JNull (Audit.written ledger_logged))
              decimal_repr_literal)
    as (_ & Hlen & _ & Hline & _).
  { by vm_compute. }
  exists (default Json.JNull (Audit.written ledger_logged)).
  split; [by vm_compute|]. split; [exact Hlen | exact Hline].
Defined.

Section OutcomeFacts.
Import Audit.

Variable float_repr : Q -> string.
Variable isoformat : Z -> string.
Variable strftime : Z -> string.

Lemma has_figures_dec s : has_figures s \/ lacks_figure s.
Proof.
  unfold has_figures, lacks_figure.
  destruct (sj_cost s), (sj_carbon s); eauto.
Qed.

Lemma schedule_summaries_result schedule clock :
  match schedule_summaries float_repr isoformat schedule clock with
  | Ok _ => Forall has_figures schedule
  | Raise e => (exists key, e = KeyError key) /\ Exists lacks_figure schedule
  end.
Proof.
  revert clock. induction schedule as [|s schedule IH]; intros clock; simpl; [done|].
  unfold schedule_summary. destruct (now clock) as [t1 c1]. destruct (now c1) as [t2 c2].
  destruct (sj_cost s) as [cost|] eqn:Hcost; simpl.
  2:{ split; [eauto|]. left. by left. }
  destruct (sj_carbon s) as [carbon|] eqn:Hcarbon; simpl.
  2:{ split; [eauto|]. left. by right. }
  specialize (IH c2).
  destruct (schedule_summaries float_repr isoformat schedule c2) as [[xs c3]|e]; simpl.
  - constructor; [|done]. split; [by rewrite Hcost | by rewrite Hcarbon].
  - destruct IH as [Hk Hex]. split; [done|]. by right.
Qed.

Lemma regional_distribution_result schedule d :
  Forall has_figures schedule ->
  exists d', _calculate_regional_distribution schedule d = Ok d'.
Proof.
  intros Hall. revert d. induction Hall as [|s schedule [[c Hc] [cb Hcb]] Hall IH];
    intros d; simpl; [eauto|].
  rewrite Hc, Hcb. simpl. apply IH.
Qed.

Lemma decision_entry_result self jobs schedule grid_state clock :
  match decision_entry float_repr isoformat strftime self jobs schedule grid_state clock with
  | Ok _ => Forall has_figures schedule
  | Raise e => (exists key, e = KeyError key) /\ Exists lacks_figure schedule
  end.
Proof.
  unfold decision_entry.
  destruct (now clock) as [t1 c1]. destruct (now c1) as [t2 c2].
  pose proof (schedule_summaries_result schedule c2) as Hs.
  destruct (schedule_summaries float_repr isoformat schedule c2) as [[xs c3]|e]; simpl;
    [|done].
  destruct (regional_distribution_result schedule [] Hs) as [d' ->]. done.
Qed.

End OutcomeFacts.

(** How [log_decision] ends.  When every entry of the schedule has its
    cost and its carbon, the record is written and the counters and
    totals of the logger are brought up to date, and only then the two
    closing percentages are computed: the call returns if both baseline
    totals are not zero and raises [ZeroDivisionError] if one is, with
    the record written all the same; an empty schedule always ends this
    way.  When an entry lacks a figure, the call raises [KeyError]
    before anything is written and the logger is as it was. *)
Theorem log_decision_outcome
    (float_repr : Q -> string) (isoformat strftime : Z -> string)
    (self : Audit.AuditLogger) (jobs : list ComputeJob) (schedule : list ScheduledJob)
    (grid_state : GridForecast) (clock : Clock) :
  let logged := Audit.log_decision float_repr isoformat strftime self jobs schedule
                  grid_state clock in
  let after := Audit.logger logged in
  let t := Audit.totals schedule in
  (Forall has_figures schedule ->
     is_Some (Audit.written logged) /\
     length (Audit.decision_log after) = S (length (Audit.decision_log self)) /\
     Audit.decisions_logged after = (Audit.decisions_logged self + 1)%Z /\
     Audit.jobs_processed after
     = (Audit.jobs_processed self + Z.of_nat (length schedule))%Z /\
     Audit.total_cost_saved after
     = Audit.total_cost_saved self + (Audit.t_baseline_cost t - Audit.t_cost t) /\
     Audit.total_carbon_saved after
     = Audit.total_carbon_saved self + (Audit.t_baseline_carbon t - Audit.t_carbon t) /\
     Audit.total_p415_revenue after = Audit.total_p415_revenue self + Audit.t_p415 t /\
     (~ Audit.t_baseline_cost t == 0 -> ~ Audit.t_baseline_carbon t == 0 ->
      Audit.outcome logged = Ok ()) /\
     (Audit.t_baseline_cost t == 0 \/ Audit.t_baseline_carbon t == 0 ->
      Audit.outcome logged = Raise ZeroDivisionError)) /\
  (Exists lacks_figure schedule ->
     Audit.written logged = None /\ after = self /\
     exists key, Audit.outcome logged = Raise (KeyError key)) /\
  (schedule = [] ->
     is_Some (Audit.written logged) /\ Audit.outcome logged = Raise ZeroDivisionError).
Proof.
  intros logged after t.
  pose proof (decision_entry_result float_repr isoformat strftime self jobs schedule
                grid_state clock) as Hentry.
  assert (Hfig : Forall has_figures schedule ->
     is_Some (Audit.written logged) /\
     length (Audit.decision_log after) = S (length (Audit.decision_log self)) /\
     Audit.decisions_logged after = (Audit.decisions_logged self + 1)%Z /\
     Audit.jobs_processed after
     = (Audit.jobs_processed self + Z.of_nat (length schedule))%Z /\
     Audit.total_cost_saved after
     = Audit.total_cost_saved self + (Audit.t_baseline_cost t - Audit.t_cost t) /\
     Audit.total_carbon_saved after
     = Audit.total_carbon_saved self + (Audit.t_baseline_carbon t - Audit.t_carbon t) /\
     Audit.total_p415_revenue after = Audit.total_p415_revenue self + Audit.t_p415 t /\
     (~ Audit.t_baseline_cost t == 0 -> ~ Audit.t_baseline_carbon t == 0 ->
      Audit.outcome logged = Ok ()) /\
     (Audit.t_baseline_cost t == 0 \/ Audit.t_baseline_carbon t == 0 ->
      Audit.outcome logged = Raise ZeroDivisionError)).
  { intros Hall. unfold after, logged, Audit.log_decision. fold t. clearbody t.
    destruct (Audit.decision_entry _ _ _ self jobs schedule grid_state clock)
      as [[entry clock']|e].
    2:{ destruct Hentry as [_ Hex]. apply Exists_exists in Hex as (s & Hs & Hl).
        rewrite Forall_forall in Hall. destruct (Hall s Hs) as [[? Hc] [? Hcb]].
        destruct Hl; congruence. }
    simpl. split; [eauto|]. split; [rewrite length_app; simpl; lia|].
    split; [done|]. split; [done|]. split; [done|]. split; [done|]. split; [done|].
    unfold Audit.cost_savings, Audit.carbon_savings, py_div. split.
    - intros Hc Hcb.
      destruct (Qeq_bool (Audit.t_baseline_cost t) 0) eqn:H1.
      { by apply Qeq_bool_iff in H1. }
      destruct (Qeq_bool (Audit.t_baseline_carbon t) 0) eqn:H2.
      { by apply Qeq_bool_iff in H2. }
      done.
    - intros [Hc|Hcb].
      + apply Qeq_bool_iff in Hc. by rewrite Hc.
      + apply Qeq_bool_iff in Hcb. rewrite Hcb.
        by destruct (Qeq_bool (Audit.t_baseline_cost t) 0). }
  split; [exact Hfig|]. split.
  - intros Hex. unfold after, logged, Audit.log_decision.
    destruct (Audit.decision_entry _ _ _ self jobs schedule grid_state clock)
      as [[entry clock']|e].
    + apply Exists_exists in Hex as (s & Hs & Hl).
      rewrite Forall_forall in Hentry. destruct (Hentry s Hs) as [[? Hc] [? Hcb]].
      destruct Hl; congruence.
    + destruct Hentry as [[key ->] _]. simpl. eauto.
  - intros Hempty. destruct Hfig as (Hw & _ & _ & _ & _ & _ & _ & _ & Hz).
    { rewrite Hempty. constructor. }
    split; [done|]. apply Hz. left. unfold t. by rewrite Hempty.
Qed.

Section DistributionFacts.
Import Audit.





End DistributionFacts.



Section DigestFacts.
Import Sha256.

Lemma round_length s kw : length (round s kw) = length s.
Proof.
  unfold round.
  destruct s as [|a [|b [|c [|d [|e [|f [|g [|h [|]]]]]]]]]; reflexivity.
Qed.

Lemma fold_round_length l s : length (fold_left round l s) = length s.
Proof.
  revert s. induction l as [|kw l IH]; intros s; simpl; [done|].
  by rewrite IH, round_length.
Qed.

Lemma compress_length h block : length (compress h block) = length h.
Proof.
  unfold compress. rewrite length_zip_with, fold_round_length. lia.
Qed.

Lemma blocks_length n h bytes : length (blocks n h bytes) = length h.
Proof.
  revert h bytes. induction n as [|n IH]; intros h bytes; simpl; [done|].
  by rewrite IH, compress_length.
Qed.

Lemma bind_length {A B} (f : A -> list B) (k : nat) (l : list A) :
  (forall x, length (f x) = k) -> length (l ≫= f) = (k * length l)%nat.
Proof.
  intros Hf. induction l as [|x l IH]; [simpl; lia|].
  change ((x :: l) ≫= f) with (f x ++ (l ≫= f)).
  rewrite length_app, Hf, IH. simpl. lia.
Qed.

Lemma hex_digit_hex x : hex_char (hex_digit x) = true.
Proof.
  unfold hex_digit. generalize (Z.to_nat x). intros n.
  do 17 (destruct n as [|n]; [reflexivity|]). reflexivity.
Qed.

Lemma hexdigest_shape msg :
  String.length (hexdigest msg) = 64%nat /\
  forallb hex_char (list_ascii_of_string (hexdigest msg)) = true.
Proof.
  unfold hexdigest. rewrite list_ascii_of_string_of_list_ascii. split.
  - assert (Hlen : forall l, String.length (string_of_list_ascii l) = length l).
    { induction l as [|c l IH]; simpl; [done|]. by rewrite IH. }
    rewrite Hlen, (bind_length _ 2); [|done].
    unfold digest. rewrite (bind_length _ 4); [|intros x; reflexivity].
    by rewrite blocks_length.
  - induction (digest msg) as [|b l IH]; [done|].
    change ((b :: l) ≫= ?f) with (f b ++ (l ≫= f)).
    rewrite forallb_app, IH. cbn [forallb]. by rewrite !hex_digit_hex.
Qed.

End DigestFacts.

(** A hash is sixty-four hexadecimal digits.  Whatever the data,
    [_calculate_hash] returns a text of 64 characters, each a digit or a
    letter from [a] to [f]; so does the hash of any text. *)
Theorem calculate_hash_is_hex_digest (data : Json.json) (text : list ascii) :
  String.length (Audit._calculate_hash data) = 64%nat /\
  forallb hex_char (list_ascii_of_string (Audit._calculate_hash data)) = true /\
  String.length (Sha256.sha256_hex text) = 64%nat /\
  forallb hex_char (list_ascii_of_string (Sha256.sha256_hex text)) = true.
Proof.
  unfold Audit._calculate_hash, Sha256.sha256_hex.
  pose proof (hexdigest_shape (Sha256.encode (Json.dumps true data))) as [? ?].
  pose proof (hexdigest_shape (Sha256.encode text)) as [? ?].
  done.
Qed.

(** ** The carbon intensity client: reading a response *)

Section ParseFacts.
Import Json CarbonApi.

Lemma extend_repeat fuel values hours :
  (Z.to_nat hours <= fuel + length values)%nat ->
  extend fuel values hours
  = values ++ repeat (default (JInt 200) (last values)) (Z.to_nat hours - length values).
Proof.
  revert values. induction fuel as [|fuel IH]; intros values Hfuel; simpl.
  - replace (Z.to_nat hours - length values)%nat with 0%nat by lia.
    by rewrite app_nil_r.
  - destruct (Z.ltb_spec (Z.of_nat (length values)) hours) as [Hlt|Hge].
    + rewrite IH by (rewrite length_app; simpl; lia).
      rewrite last_snoc, length_app. simpl.
      replace (Z.to_nat hours - length values)%nat
        with (S (Z.to_nat hours - (length values + 1)))%nat by lia.
      simpl. by rewrite <- app_assoc.
    + replace (Z.to_nat hours - length values)%nat with 0%nat by lia.
      by rewrite app_nil_r.
Qed.

End ParseFacts.

(** A parsed forecast fills the horizon.  For a horizon of [hours >= 0]
    and a mock generator that gives [hours] values, [_parse_carbon_data]
    always returns exactly [hours] values: when the response can be
    read, the values of the response in their order, cut at the horizon
    or, if there are fewer, followed by copies of the last of them (of
    [200] if there is none); and the mock values when the response
    cannot be read. *)
Theorem parse_carbon_data_fills_horizon
    (mock : Z -> string -> list Json.json) (data : Json.json) (hours : Z) :
  (0 <= hours)%Z ->
  length (mock hours "default"%string) = Z.to_nat hours ->
  let result := CarbonApi._parse_carbon_data mock data hours in
  length result = Z.to_nat hours /\
  match CarbonApi.parsed_values data with
  | Some values =>
      result
      = take (Z.to_nat hours)
          (values ++ repeat (default (Json.JInt 200) (last values))
                       (Z.to_nat hours - length values))
  | None => result = mock hours "default"%string
  end.
Proof.
  intros Hh Hmock result. unfold result, CarbonApi._parse_carbon_data.
  destruct (CarbonApi.parsed_values data) as [values|]; [|done].
  rewrite extend_repeat by lia.
  assert (Hslice : forall l : list Json.json,
            Forecaster.py_slice l 0 hours = take (Z.to_nat hours) l).
  { intros l. rewrite <- (py_slice_prefix l). f_equal. lia. }
  rewrite Hslice. split; [|done].
  rewrite length_take, length_app, repeat_length. lia.
Qed.

Lemma parse_carbon_data_fills_horizon_witness :
  CarbonApi._parse_carbon_data flat_mock_carbon sample_response 4
  = [Json.JInt 180; Json.JInt 200; Json.JInt 200; Json.JInt 200] /\
  length (CarbonApi._parse_carbon_data flat_mock_carbon (Json.JStr "busy") 4) = 4%nat.
Proof.
  split; [by vm_compute|].
  apply (parse_carbon_data_fills_horizon flat_mock_carbon (Json.JStr "busy") 4).
  - lia.
  - reflexivity.
Defined.
